(** * The chat client of static/js/chat.js

    A shallow embedding of the second (voice and attachment) revision of
    the script: the price helpers, the product-card helpers, the link
    formatter with its two regular expressions, and the event handlers
    over an explicit page state.

    Conventions of the model.
    - A JavaScript string is the list of its UTF-16 code units.
    - A JavaScript number is a binary64 double: NaN, an infinity, or a
      finite double held by its rational value. Arithmetic, [parseFloat]
      and the two conversions to a string round as IEEE 754 and ECMAScript
      prescribe. The two zeros are not told apart.
    - A function that can throw returns a [result].
    - The page is the state the handlers read and write. The script
      writes texts into it as markup; the model does not parse markup and
      keeps a record of whether a text that can bring markup of its own
      has been written. *)

From Stdlib Require Import String Ascii DecimalString.
From Stdlib Require Import Bool Arith ZArith NArith QArith Qround Qabs Lia Lqa List.
Import ListNotations.

Local Open Scope Z_scope.

(** ** Strings *)

Definition jsstring := list N.

(** [js] reads an ASCII literal as a JavaScript string. *)
Definition js (s : string) : jsstring :=
  map N_of_ascii (list_ascii_of_string s).

(** The double quote, code unit 34. *)
Definition dq : jsstring := [34%N].

Definition jsstring_eqb (a b : jsstring) : bool :=
  if list_eq_dec N.eq_dec a b then true else false.

Definition is_digit (c : N) : bool := (48 <=? c)%N && (c <=? 57)%N.
Definition is_upper (c : N) : bool := (65 <=? c)%N && (c <=? 90)%N.
Definition is_lower (c : N) : bool := (97 <=? c)%N && (c <=? 122)%N.

(** [\w] *)
Definition is_word (c : N) : bool :=
  is_digit c || is_upper c || is_lower c || (c =? 95)%N.

(** [\s], and the characters that [String.prototype.trim] removes:
    WhiteSpace and LineTerminator. *)
Definition is_space (c : N) : bool :=
  ((9 <=? c)%N && (c <=? 13)%N) || (c =? 32)%N || (c =? 160)%N
  || (c =? 5760)%N || ((8192 <=? c)%N && (c <=? 8202)%N)
  || (c =? 8232)%N || (c =? 8233)%N || (c =? 8239)%N || (c =? 8287)%N
  || (c =? 12288)%N || (c =? 65279)%N.

(** Case folding of the [i] flag. Outside ASCII no code unit folds to an
    ASCII letter, so folding ASCII letters is all the patterns here need. *)
Definition fold_case (c : N) : N := if is_lower c then (c - 32)%N else c.

Fixpoint trimStart (s : jsstring) : jsstring :=
  match s with
  | c :: s' => if is_space c then trimStart s' else s
  | [] => []
  end.

Definition trimEnd (s : jsstring) : jsstring := rev (trimStart (rev s)).

Definition trim (s : jsstring) : jsstring := trimEnd (trimStart s).

(** [s.substring(0, n)] for [n >= 0]. *)
Definition substring0 (n : nat) (s : jsstring) : jsstring := firstn n s.

(** [s.startsWith(p)] *)
Fixpoint startsWith (p s : jsstring) : bool :=
  match p, s with
  | [], _ => true
  | a :: p', b :: s' => (a =? b)%N && startsWith p' s'
  | _ :: _, [] => false
  end.

(** ** Exceptions *)

Inductive exn := URIError | RangeError | TypeError.

Inductive result (A : Type) :=
| Ok (a : A)
| Throw (e : exn).
Arguments Ok {A} a.
Arguments Throw {A} e.

Definition bind {A B} (r : result A) (f : A -> result B) : result B :=
  match r with
  | Ok a => f a
  | Throw e => Throw e
  end.

Notation "x <- c ;; k" := (bind c (fun x => k))
  (at level 61, c at next level, right associativity).

(** [s.repeat(count)] throws a RangeError on a negative count. *)
Definition repeat_str (s : jsstring) (count : Z) : result jsstring :=
  if count <? 0 then Throw RangeError
  else Ok (concat (repeat s (Z.to_nat count))).

(** ** Numbers

    A Number is a binary64 floating point number. A finite one is held by
    its value, a rational; [Fin q] stands for the double nearest [q], as
    [JSON.parse] and [parseFloat] read a decimal, so that [Fin (1 # 10)]
    is the number 0.1 of a reply. The two zeros are not told apart: none
    of the functions below divides by a zero or prints the sign of one. *)

Inductive number := NaN | Fin (q : Q) | Inf (negative : bool).

(** 2 and 10 to the power [e] *)
Definition pow2 (e : Z) : Q :=
  match e with
  | Zneg p => 1 # (2 ^ p)%positive
  | _ => inject_Z (2 ^ e)
  end.

Definition pow10 (e : Z) : Q :=
  match e with
  | Zneg p => 1 # (10 ^ p)%positive
  | _ => inject_Z (10 ^ e)
  end.

(** The binade of a rational above 0: the [e] with 2^e <= q < 2^(e+1). *)
Definition ilog2 (q : Q) : Z :=
  let a := Z.log2 (Qnum q) - Z.log2 (Zpos (Qden q)) in
  if Qle_bool (pow2 a) q then a else a - 1.

(** To the nearest integer, a tie to the even one. *)
Definition round_half_even (q : Q) : Z :=
  let f := Qfloor q in
  match Qcompare (q - inject_Z f) (1 # 2) with
  | Lt => f
  | Gt => f + 1
  | Eq => if Z.even f then f else f + 1
  end.

(** The Number value for [q]: the double nearest [q], of two equally near
    the one with the even significand, and an infinity from 2^1024 on. The
    significand has 53 bits, less below 2^-1022, where the doubles are
    2^-1074 apart. *)
Definition binary64 (q : Q) : number :=
  match Qcompare q 0 with
  | Eq => Fin 0
  | c =>
      let a := Qabs q in
      let u := Z.max (ilog2 a) (-1022) - 52 in
      let r := Qred (inject_Z (round_half_even (a / pow2 u)) * pow2 u) in
      let negative := match c with Lt => true | _ => false end in
      if Qle_bool (pow2 1024) r then Inf negative
      else Fin (if negative then - r else r)
  end.

(** The double a number stands for. *)
Definition to_double (n : number) : number :=
  match n with
  | Fin q => binary64 q
  | _ => n
  end.

(** [a < b] on doubles: false as soon as one side is NaN. *)
Definition num_ltb (a b : number) : bool :=
  match a, b with
  | Fin x, Fin y => negb (Qle_bool y x)
  | Fin _, Inf s => negb s
  | Inf s, Fin _ => s
  | Inf s, Inf t => s && negb t
  | _, _ => false
  end.

(** [a === b] on doubles: NaN equals nothing. *)
Definition num_eqb (a b : number) : bool :=
  match a, b with
  | Fin x, Fin y => Qeq_bool x y
  | Inf s, Inf t => Bool.eqb s t
  | _, _ => false
  end.

(** [a / b], [a - b] and [a * b] on doubles: the exact result, rounded.
    A zero divisor is taken for the positive zero. *)
Definition num_div (a b : number) : number :=
  match a, b with
  | NaN, _ | _, NaN => NaN
  | Fin x, Fin y =>
      match Qcompare y 0 with
      | Eq => match Qcompare x 0 with
              | Eq => NaN
              | Lt => Inf true
              | Gt => Inf false
              end
      | _ => binary64 (x / y)
      end
  | Fin _, Inf _ => Fin 0
  | Inf s, Fin y => Inf (xorb s (negb (Qle_bool 0 y)))
  | Inf _, Inf _ => NaN
  end.

Definition num_sub (a b : number) : number :=
  match a, b with
  | NaN, _ | _, NaN => NaN
  | Fin x, Fin y => binary64 (x - y)
  | Fin _, Inf s => Inf (negb s)
  | Inf s, Fin _ => Inf s
  | Inf s, Inf t => if Bool.eqb s t then NaN else Inf s
  end.

Definition num_mul (a b : number) : number :=
  match a, b with
  | NaN, _ | _, NaN => NaN
  | Fin x, Fin y => binary64 (x * y)
  | Fin x, Inf s | Inf s, Fin x =>
      match Qcompare x 0 with
      | Eq => NaN
      | Lt => Inf (negb s)
      | Gt => Inf s
      end
  | Inf s, Inf t => Inf (xorb s t)
  end.

(** [Math.round(x)]: the integer nearest [x], the larger one of two; it
    is a double whenever [x] is. *)
Definition Math_round (x : number) : number :=
  match x with
  | Fin q => Fin (inject_Z (Qfloor (q + (1 # 2))))
  | _ => x
  end.

(** [Math.floor] of the double nearest [q]; it is only applied to a
    rating, to count stars. Where that double is an infinity, the floor
    of [q] itself stands for it: [repeat] refuses the one and the other,
    as the count it is given or as the count that is left of 5. *)
Definition Math_floor (q : Q) : Z :=
  match binary64 q with
  | Fin y => Qfloor y
  | _ => Qfloor q
  end.

Definition digits_of_N (n : N) : jsstring :=
  js (NilZero.string_of_uint (N.to_uint n)).

Definition digit_val (c : N) : Z := Z.of_N c - 48.

Definition digits_value (ds : jsstring) : Z :=
  fold_left (fun acc c => 10 * acc + digit_val c) ds 0.

Fixpoint take_digits (s : jsstring) : jsstring * jsstring :=
  match s with
  | c :: s' =>
      if is_digit c then let (ds, r) := take_digits s' in (c :: ds, r)
      else ([], s)
  | [] => ([], [])
  end.

(** [parseFloat] on the strings its callers pass: the longest prefix
    [digits], [digits.digits], [digits.] or [.digits] is read, the number
    is the double nearest its decimal value, and when there is no such
    prefix the result is NaN. The callers strip every character other than
    a digit or a point first, so that leading white space, a sign, an
    exponent and the word Infinity, which the built-in also reads, cannot
    occur and are left out. *)
Definition parseFloat (s : jsstring) : number :=
  let (ip, r) := take_digits s in
  let fp := match r with
            | c :: r' => if (c =? 46)%N then fst (take_digits r') else []
            | [] => []
            end in
  match ip, fp with
  | [], [] => NaN
  | _, _ =>
      binary64 (Qmake (digits_value (ip ++ fp))
                      (Z.to_pos (10 ^ Z.of_nat (length fp))))
  end.

(** [parseFloat] applied to a number goes through the number's string
    form and reads the same double back. *)
Definition parseFloat_number (x : number) : number := to_double x.

(** The decade of a rational above 0: the [e] with 10^e <= q < 10^(e+1),
    from an estimate that is off by one at most. *)
Definition ilog10 (q : Q) : Z :=
  let g := (ilog2 q * 30103) / 100000 in
  if Qle_bool (pow10 (g + 2)) q then g + 2
  else if Qle_bool (pow10 (g + 1)) q then g + 1
  else if Qle_bool (pow10 g) q then g
  else if Qle_bool (pow10 (g - 1)) q then g - 1
  else g - 2.

(** Is [x] the double nearest [v]? *)
Definition same_double (v x : Q) : bool :=
  match binary64 v with
  | Fin y => Qeq_bool y x
  | _ => false
  end.

(** The decimals with [k] digits that read back as the double [x], which
    lies in the decade [n0 - 1]: of the two that enclose [x] the nearer one,
    of two equally near the even one. [(n, s)] stands for s * 10^(n-k). *)
Definition shortest_at (x : Q) (n0 k : Z) : option (Z * Z) :=
  let t := (x / pow10 (n0 - k))%Q in
  let lo := Qfloor t in
  let hi := lo + 1 in
  let vlo := (inject_Z lo * pow10 (n0 - k))%Q in
  let vhi := (inject_Z hi * pow10 (n0 - k))%Q in
  let chi := if hi <? 10 ^ k then (n0, hi) else (n0 + 1, 10 ^ (k - 1)) in
  match same_double vlo x, same_double vhi x with
  | true, false => Some (n0, lo)
  | false, true => Some chi
  | true, true =>
      match Qcompare (x - vlo) (vhi - x) with
      | Lt => Some (n0, lo)
      | Gt => Some chi
      | Eq => if Z.even lo then Some (n0, lo) else Some chi
      end
  | false, false => None
  end.

(** The decimal with the fewest digits that reads back as [x]; seventeen
    digits are enough for every double. *)
Fixpoint shortest (fuel : nat) (x : Q) (n0 k : Z) : Z * Z :=
  match fuel with
  | O => (n0, Qfloor (x / pow10 (n0 - k)))
  | S fuel' =>
      match shortest_at x n0 k with
      | Some r => r
      | None => shortest fuel' x n0 (k + 1)
      end
  end.

Definition zeros (n : Z) : jsstring := repeat 48%N (Z.to_nat n).

Definition exponent_part (n : Z) : jsstring :=
  js "e" ++ (if 0 <=? n - 1 then js "+" else js "-")
    ++ digits_of_N (Z.to_N (Z.abs (n - 1))).

(** [Number::toString] of a double above 0: its shortest decimal, in
    plain notation when the point falls within 21 digits to the right or 6
    to the left, with an exponent otherwise. *)
Definition positive_toString (x : Q) : jsstring :=
  let n0 := ilog10 x + 1 in
  let (n, s) := shortest 17 x n0 1 in
  let ds := digits_of_N (Z.to_N s) in
  let k := Z.of_nat (length ds) in
  if (k <=? n) && (n <=? 21) then ds ++ zeros (n - k)
  else if (0 <? n) && (n <=? 21) then
    firstn (Z.to_nat n) ds ++ js "." ++ skipn (Z.to_nat n) ds
  else if (-6 <? n) && (n <=? 0) then js "0." ++ zeros (- n) ++ ds
  else if k =? 1 then ds ++ exponent_part n
  else firstn 1 ds ++ js "." ++ skipn 1 ds ++ exponent_part n.

Definition sign_text (negative : bool) : jsstring :=
  if negative then js "-" else [].

(** [Number::toString] *)
Definition Number_toString (x : number) : jsstring :=
  match to_double x with
  | NaN => js "NaN"
  | Inf s => sign_text s ++ js "Infinity"
  | Fin q =>
      match Qcompare q 0 with
      | Eq => js "0"
      | Lt => js "-" ++ positive_toString (Qabs q)
      | Gt => positive_toString q
      end
  end.

(** Zeros in front, up to [n] digits. *)
Definition pad_left (n : nat) (ds : jsstring) : jsstring :=
  repeat 48%N (n - length ds) ++ ds.

(** [x.toFixed(2)] of a double: the integer [n] with [n / 100] closest
    to [|x|], the larger one on a tie, written with two decimals; from
    10^21 on, and for what is not finite, the string of the number. *)
Definition toFixed2 (x : number) : jsstring :=
  match x with
  | NaN => js "NaN"
  | Inf s => sign_text s ++ js "Infinity"
  | Fin q =>
      let s := if Qle_bool 0%Q q then [] else js "-" in
      let a := Qabs q in
      if Qle_bool (pow10 21) a then s ++ positive_toString a
      else
        let n := Qfloor (a * 100 + (1 # 2))%Q in
        let ds := pad_left 3 (digits_of_N (Z.to_N n)) in
        let k := (length ds - 2)%nat in
        s ++ firstn k ds ++ js "." ++ skipn k ds
  end.

(** ** Values of the price fields *)

Inductive value :=
| VUndefined
| VNull
| VNum (n : number)
| VStr (s : jsstring).

(** Truthiness, as an [if] or [&&] tests it. *)
Definition truthy (v : value) : bool :=
  match v with
  | VUndefined | VNull => false
  | VNum n =>
      match to_double n with
      | NaN => false
      | Fin q => negb (Qeq_bool q 0%Q)
      | Inf _ => true
      end
  | VStr s => negb (jsstring_eqb s [])
  end.

(** [a !== b] *)
Definition strict_neq (a b : value) : bool :=
  match a, b with
  | VUndefined, VUndefined => false
  | VNull, VNull => false
  | VNum x, VNum y => negb (num_eqb (to_double x) (to_double y))
  | VStr s, VStr t => negb (jsstring_eqb s t)
  | _, _ => true
  end.

(** The string a template literal puts in place of [${v}]. *)
Definition ToString (v : value) : jsstring :=
  match v with
  | VUndefined => js "undefined"
  | VNull => js "null"
  | VNum n => Number_toString n
  | VStr s => s
  end.

(** [s.replace(/[^0-9.]/g, '')] *)
Definition strip_non_numeric (s : jsstring) : jsstring :=
  filter (fun c => is_digit c || (c =? 46)%N) s.

(** ** PriceNormalizer *)

(** chat.js, [extractCurrentPrice]. *)
Definition extractCurrentPrice (priceString : value) : jsstring :=
  match priceString with
  | VStr s =>
      let numericString := strip_non_numeric s in
      toFixed2 (parseFloat numericString)
  | VNum n => toFixed2 (to_double n)
  | _ => js "0.00"
  end.

(** The number [calculateDiscount] reads from one of its arguments. *)
Definition price_number (p : value) : number :=
  match p with
  | VStr s => parseFloat (strip_non_numeric s)
  | VNum n => parseFloat_number n
  | VUndefined | VNull => NaN
  end.

(** chat.js, [calculateDiscount]. *)
Definition calculateDiscount (currentPrice originalPrice : value) : number :=
  let current := price_number currentPrice in
  let original := price_number originalPrice in
  if num_ltb (Fin 0) original && num_ltb current original then
    let discountPercent :=
      Math_round
        (num_mul (num_sub (Fin 1) (num_div current original)) (Fin 100)) in
    discountPercent
  else Fin 0.

(** ** encodeURIComponent *)

Definition hex_digit (n : N) : N :=
  if (n <? 10)%N then (48 + n)%N else (55 + n)%N.

(** One byte as a percent escape, in upper case. *)
Definition pct (b : N) : jsstring :=
  [37%N; hex_digit (b / 16)%N; hex_digit (b mod 16)%N].

Definition utf8 (cp : N) : list N :=
  if (cp <? 128)%N then [cp]
  else if (cp <? 2048)%N then
    [(192 + cp / 64)%N; (128 + cp mod 64)%N]
  else if (cp <? 65536)%N then
    [(224 + cp / 4096)%N; (128 + (cp / 64) mod 64)%N; (128 + cp mod 64)%N]
  else
    [(240 + cp / 262144)%N; (128 + (cp / 4096) mod 64)%N;
     (128 + (cp / 64) mod 64)%N; (128 + cp mod 64)%N].

(** The characters [encodeURIComponent] leaves as they are: letters,
    digits and [- _ . ! ~ * ' ( )]. *)
Definition uri_unreserved (c : N) : bool :=
  is_digit c || is_upper c || is_lower c
  || existsb (N.eqb c) [45; 95; 46; 33; 126; 42; 39; 40; 41]%N.

Definition is_high_surrogate (c : N) : bool := (55296 <=? c)%N && (c <=? 56319)%N.
Definition is_low_surrogate (c : N) : bool := (56320 <=? c)%N && (c <=? 57343)%N.

Definition escape_cp (cp : N) : jsstring := concat (map pct (utf8 cp)).

(** Every other character becomes the escapes of its UTF-8 bytes; a
    surrogate that is not half of a pair throws a URIError. *)
Fixpoint encodeURIComponent (s : jsstring) : result jsstring :=
  match s with
  | [] => Ok []
  | c :: s' =>
      if uri_unreserved c then
        rest <- encodeURIComponent s' ;; Ok (c :: rest)
      else if is_low_surrogate c then Throw URIError
      else if is_high_surrogate c then
        match s' with
        | d :: s'' =>
            if is_low_surrogate d then
              rest <- encodeURIComponent s'' ;;
              Ok (escape_cp ((c - 55296) * 1024 + (d - 56320) + 65536)%N ++ rest)
            else Throw URIError
        | [] => Throw URIError
        end
      else
        rest <- encodeURIComponent s' ;; Ok (escape_cp c ++ rest)
  end.

(** ** Regular expressions

    The fragment of the pattern language the script uses, matched by
    backtracking in the order ECMAScript prescribes: the left alternative
    first, an optional part tried before it is skipped, a lazy repetition
    extended one character at a time. *)

Inductive regex :=
| Eps
| Cls (p : N -> bool)
| Seq (r1 r2 : regex)
| Alt (r1 r2 : regex)
| Opt (r : regex)
| Plus (greedy : bool) (p : N -> bool)
| Group (i : nat) (r : regex)
| WordB
| EndA.

Definition captures := list (nat * jsstring).

Fixpoint cap (i : nat) (cs : captures) : option jsstring :=
  match cs with
  | [] => None
  | (j, s) :: cs' => if (i =? j)%nat then Some s else cap i cs'
  end.

(** A match: the captures and the input left after it. *)
Definition found := (captures * jsstring)%type.

Section Matcher.

Variable p : N -> bool.
Variable k : option N -> jsstring -> option found.

Fixpoint plus_lazy (s : jsstring) : option found :=
  match s with
  | c :: s' =>
      if p c then
        match k (Some c) s' with
        | Some r => Some r
        | None => plus_lazy s'
        end
      else None
  | [] => None
  end.

Fixpoint plus_greedy (s : jsstring) : option found :=
  match s with
  | c :: s' =>
      if p c then
        match plus_greedy s' with
        | Some r => Some r
        | None => k (Some c) s'
        end
      else None
  | [] => None
  end.

End Matcher.

Definition word_at (c : option N) : bool :=
  match c with
  | Some x => is_word x
  | None => false
  end.

(** [rmatch r prev s cs k]: match [r] at the head of [s], the character
    before it being [prev], then go on with [k]. *)
Fixpoint rmatch (r : regex) (prev : option N) (s : jsstring) (cs : captures)
    (k : option N -> jsstring -> captures -> option found) : option found :=
  match r with
  | Eps => k prev s cs
  | Cls p =>
      match s with
      | c :: s' => if p c then k (Some c) s' cs else None
      | [] => None
      end
  | Seq r1 r2 =>
      rmatch r1 prev s cs (fun prev' s' cs' => rmatch r2 prev' s' cs' k)
  | Alt r1 r2 =>
      match rmatch r1 prev s cs k with
      | Some x => Some x
      | None => rmatch r2 prev s cs k
      end
  | Opt r1 =>
      match rmatch r1 prev s cs k with
      | Some x => Some x
      | None => k prev s cs
      end
  | Plus greedy p =>
      (if greedy then plus_greedy else plus_lazy) p
        (fun prev' s' => k prev' s' cs) s
  | Group i r1 =>
      rmatch r1 prev s cs
        (fun prev' s' cs' =>
           k prev' s' ((i, firstn (length s - length s') s) :: cs'))
  | WordB =>
      if xorb (word_at prev) (word_at (hd_error s)) then k prev s cs else None
  | EndA =>
      match s with
      | [] => k prev s cs
      | _ :: _ => None
      end
  end.

Definition match_at (r : regex) (prev : option N) (s : jsstring) : option found :=
  rmatch r prev s [] (fun _ s' cs => Some (cs, s')).

(** [s.match(r)] as a test: is there a match anywhere in [s]? *)
Fixpoint search_from (r : regex) (prev : option N) (s : jsstring) : bool :=
  match match_at r prev s with
  | Some _ => true
  | None =>
      match s with
      | c :: s' => search_from r (Some c) s'
      | [] => false
      end
  end.

Definition regex_test (r : regex) (s : jsstring) : bool := search_from r None s.

(** [s.replace(r, f)] for a global [r] and a callback [f] that receives
    the match and its captures. [skip] counts the characters of a match
    that remain to be passed over. *)
Fixpoint replace_from (r : regex) (f : jsstring -> captures -> result jsstring)
    (prev : option N) (skip : nat) (s : jsstring) : result jsstring :=
  match skip with
  | S n =>
      match s with
      | c :: s' => replace_from r f (Some c) n s'
      | [] => Ok []
      end
  | O =>
      match match_at r prev s with
      | Some (cs, rest) =>
          let matched := firstn (length s - length rest) s in
          out <- f matched cs ;;
          match s with
          | c :: s' =>
              match matched with
              | [] =>
                  tail <- replace_from r f (Some c) O s' ;;
                  Ok (out ++ c :: tail)
              | _ :: m' =>
                  tail <- replace_from r f (Some c) (length m') s' ;;
                  Ok (out ++ tail)
              end
          | [] => Ok out
          end
      | None =>
          match s with
          | c :: s' =>
              tail <- replace_from r f (Some c) O s' ;; Ok (c :: tail)
          | [] => Ok []
          end
      end
  end.

Definition replace_all (r : regex) (f : jsstring -> captures -> result jsstring)
    (s : jsstring) : result jsstring :=
  replace_from r f None O s.

(** A literal, one character after the other; [ci] is the [i] flag. *)
Definition chr (ci : bool) (a : N) : regex :=
  Cls (fun c => if ci then (fold_case c =? fold_case a)%N else (c =? a)%N).

Fixpoint lit_of (ci : bool) (s : jsstring) : regex :=
  match s with
  | [] => Eps
  | [a] => chr ci a
  | a :: s' => Seq (chr ci a) (lit_of ci s')
  end.

Definition lit (ci : bool) (s : string) : regex := lit_of ci (js s).

Fixpoint alts (rs : list regex) : regex :=
  match rs with
  | [] => Eps
  | [r] => r
  | r :: rs' => Alt r (alts rs')
  end.

(** ** ResponseLinkifier *)

Definition is_quote (c : N) : bool := (c =? 34)%N || (c =? 39)%N.

(** The pattern of the first [replace], global: a quote, either kind,
    in group 1; one or more characters that are not quotes, lazily, in
    group 2; a quote, either kind, in group 3. *)
Definition re_quoted : regex :=
  Seq (Group 1 (Cls is_quote))
      (Seq (Group 2 (Plus false (fun c => negb (is_quote c))))
           (Group 3 (Cls is_quote))).

(** [/phone|camera|laptop|headphone|speaker|watch|tablet|TV|monitor|keyboard|mouse|book/i] *)
Definition re_keywords : regex :=
  alts (map (lit true)
    ["phone"; "camera"; "laptop"; "headphone"; "speaker"; "watch";
     "tablet"; "TV"; "monitor"; "keyboard"; "mouse"; "book"]%string).

(** [/\b(the |a |an )?([\w\s]+?)( product| device| gadget| item)\b/gi] *)
Definition re_generic : regex :=
  Seq WordB
   (Seq (Opt (Group 1 (alts (map (lit true) ["the "; "a "; "an "]%string))))
    (Seq (Group 2 (Plus false (fun c => is_word c || is_space c)))
     (Seq (Group 3 (alts (map (lit true)
                      [" product"; " device"; " gadget"; " item"]%string)))
          WordB))).

Definition amazon_search : jsstring := js "https://www.amazon.com/s?k=".

(** The anchor both callbacks build around a phrase. *)
Definition product_link (searchQuery text : jsstring) : jsstring :=
  js "<a href=" ++ dq ++ amazon_search ++ searchQuery ++ dq
    ++ js " target=" ++ dq ++ js "_blank" ++ dq
    ++ js " class=" ++ dq ++ js "product-link" ++ dq ++ js ">"
    ++ text ++ js "</a>".

Definition or_empty (o : option jsstring) : jsstring :=
  match o with
  | Some s => s
  | None => []
  end.

(** The callback of the first [replace]. *)
Definition link_quoted (whole : jsstring) (cs : captures) : result jsstring :=
  let p1 := or_empty (cap 1 cs) in
  let p2 := or_empty (cap 2 cs) in
  let p3 := or_empty (cap 3 cs) in
  if regex_test re_keywords p2 then
    searchQuery <- encodeURIComponent p2 ;;
    Ok (p1 ++ product_link searchQuery p2 ++ p3)
  else Ok whole.

(** The callback of the second [replace]. *)
Definition link_generic (whole : jsstring) (cs : captures) : result jsstring :=
  let article := cap 1 cs in
  let product := or_empty (cap 2 cs) in
  let suffix := or_empty (cap 3 cs) in
  if (3 <? length product)%nat then
    searchQuery <- encodeURIComponent (trim product) ;;
    Ok (or_empty article ++ product_link searchQuery product ++ suffix)
  else Ok whole.

Definition pass_quoted (message : jsstring) : result jsstring :=
  replace_all re_quoted link_quoted message.

Definition pass_generic (message : jsstring) : result jsstring :=
  replace_all re_generic link_generic message.

(** chat.js, [formatMessageWithLinks]. *)
Definition formatMessageWithLinks (message : jsstring) : result jsstring :=
  m1 <- pass_quoted message ;; pass_generic m1.

(** ** Products *)

(** A product object of a reply. The optional fields are [None] when
    the reply leaves them out or gives null; the description is [None]
    when it is not a string. The id, the name and the stock notice are
    only written into templates and are held by their string forms. *)
Record product := {
  pid : jsstring;
  name : jsstring;
  description : option jsstring;
  price : value;
  original_price : value;
  in_stock : jsstring;
  image_url : option jsstring;
  category : option jsstring;
  model : option jsstring;
  brand : option jsstring;
  rating : option Q;
  warranty : option jsstring
}.

(** [if (field)] on an optional string: present and not empty. *)
Definition truthy_str (o : option jsstring) : bool :=
  match o with
  | Some s => truthy (VStr s)
  | None => false
  end.

(** [if (product.rating)]: present and not zero. *)
Definition truthy_num (o : option Q) : bool :=
  match o with
  | Some r => truthy (VNum (Fin r))
  | None => false
  end.

(** An attribute value between its double quotes. *)
Definition quoted (s : string) : jsstring := dq ++ js s ++ dq.

Definition nl : jsstring := [10%N].
Definition spaces (n : nat) : jsstring := repeat 32%N n.


(** The default display of [formatPriceDisplay]. *)
Definition plain_badge (price : jsstring) : jsstring :=
  js "<span class=" ++ quoted "badge bg-primary" ++ js ">" ++ price ++ js "</span>".

(** The sale display of [formatPriceDisplay]. *)
Definition sale_display (price : jsstring) (discount : number)
    (originalPrice : jsstring)
  : jsstring :=
  nl ++ spaces 12 ++ js "<div class=" ++ quoted "d-flex flex-column" ++ js ">"
    ++ nl ++ spaces 16 ++ js "<span class=" ++ quoted "badge bg-danger" ++ js ">"
    ++ price ++ js " <small class=" ++ quoted "text-white" ++ js ">-"
    ++ Number_toString discount ++ js "%</small></span>"
    ++ nl ++ spaces 16 ++ js "<small class="
    ++ quoted "text-decoration-line-through text-muted" ++ js ">"
    ++ originalPrice ++ js "</small>"
    ++ nl ++ spaces 12 ++ js "</div>"
    ++ nl ++ spaces 8.

(** The [originalPrice] of [formatPriceDisplay], the struck-through text
    of the sale display: a string as it is, a number as a dollar amount
    with two decimals. *)
Definition strikeout (orig : value) : jsstring :=
  match orig with
  | VStr s => s
  | v => js "$" ++ toFixed2 (price_number v)
  end.

(** chat.js, [formatPriceDisplay]. *)
Definition formatPriceDisplay (p : product) : jsstring :=
  if truthy (original_price p) && strict_neq (original_price p) (price p) then
    let originalPrice := strikeout (original_price p) in
    let discount := calculateDiscount (price p) (original_price p) in
    sale_display (ToString (price p)) discount originalPrice
  else plain_badge (ToString (price p)).

Definition star_filled : jsstring := [9733%N].
Definition star_empty : jsstring := [9734%N].

(** One line of the details block: an icon and a text. *)
Definition detail_line (icon : string) (text : jsstring) : jsstring :=
  js "<div><i class=" ++ quoted icon ++ js "></i> " ++ text ++ js "</div>".

Definition no_details : jsstring :=
  js "<div class=" ++ quoted "text-muted"
    ++ js ">No additional details available</div>".

(** The five-glyph scale of the rating line. *)
Definition stars_of (r : Q) : result jsstring :=
  filled <- repeat_str star_filled (Math_floor r) ;;
  empty <- repeat_str star_empty (5 - Math_floor r) ;;
  Ok (filled ++ empty).

(** chat.js, [getProductDetails]. *)
Definition getProductDetails (p : product) : result jsstring :=
  let details := [] in
  let details :=
    if truthy_str (category p)
    then details ++ detail_line "fas fa-tag me-1 text-secondary" (or_empty (category p))
    else details in
  let details :=
    if truthy_str (model p)
    then details ++ detail_line "fas fa-cube me-1 text-secondary" (or_empty (model p))
    else details in
  let details :=
    if truthy_str (brand p)
    then details ++ detail_line "fas fa-trademark me-1 text-secondary" (or_empty (brand p))
    else details in
  details <-
    match rating p with
    | Some r =>
        if truthy_num (rating p) then
          stars <- stars_of r ;;
          Ok (details ++ detail_line "fas fa-star me-1 text-warning"
                (stars ++ js " (" ++ Number_toString (Fin r) ++ js ")"))
        else Ok details
    | None => Ok details
    end ;;
  let details :=
    if truthy_str (warranty p)
    then details ++ detail_line "fas fa-shield-alt me-1 text-secondary" (or_empty (warranty p))
    else details in
  Ok (if jsstring_eqb details [] then no_details else details).

Definition placeholder_image : jsstring :=
  js "https://via.placeholder.com/150x150?text=No+Image".

(** The values [displayProducts] computes for one product and puts into
    the fixed markup of its card, in the order of their computation. *)
Record card := {
  card_priceDisplay : jsstring;
  card_amazonUrl : jsstring;
  card_imageUrl : jsstring;
  card_priceLabel : jsstring;
  card_productDetails : jsstring;
  card_name : jsstring;
  card_stock_class : jsstring;
  card_in_stock : jsstring;
  card_description : jsstring;
  card_product_id : jsstring
}.

(** The text of the description paragraph of a card. *)
Definition description_text (d : jsstring) : jsstring :=
  substring0 100 d ++ (if (100 <? length d)%nat then js "..." else []).

(** The body of the [forEach] of [displayProducts]. *)
Definition product_card (p : product) : result card :=
  let priceDisplay := formatPriceDisplay p in
  searchQuery <- encodeURIComponent (name p) ;;
  let amazonUrl := amazon_search ++ searchQuery in
  let imageUrl := if truthy_str (image_url p) then or_empty (image_url p)
                  else placeholder_image in
  let currentPrice := extractCurrentPrice (price p) in
  let priceLabel := js "$" ++ currentPrice in
  productDetails <- getProductDetails p ;;
  (* [product.description.substring]: a TypeError without a string *)
  d <- match description p with
       | Some d => Ok d
       | None => Throw TypeError
       end ;;
  Ok {| card_priceDisplay := priceDisplay;
        card_amazonUrl := amazonUrl;
        card_imageUrl := imageUrl;
        card_priceLabel := priceLabel;
        card_productDetails := productDetails;
        card_name := name p;
        card_stock_class :=
          if jsstring_eqb (in_stock p) (js "In Stock") then js "bg-success"
          else js "bg-danger";
        card_in_stock := in_stock p;
        card_description := description_text d;
        card_product_id := pid p |}.

Definition speaker : product :=
  {| pid := js "p1"; name := js "Speaker"; description := Some (js "...");
     price := VStr (js "$80"); original_price := VStr (js "$100");
     in_stock := js "In Stock"; image_url := None; category := None;
     model := None; brand := None; rating := None; warranty := None |}.

(** ** The page

    The state the handlers read and write: the children of the chat
    container, the text field, the script's [currentAttachment], the file
    input and the two previews, the carousel and whether the Details
    buttons of its cards have their click listener. Scrolling, focus and
    [preventDefault] do not touch this state and are left out, and so is
    the voice input with its status line: what it recognises is put into
    the text field, which is the event [Typed] of the model.

    The script writes the texts of the user, of the replies and of the
    products into the page as markup, through [innerHTML]. A text that
    opens a tag, or that ends the attribute value it is written into,
    brings elements or attributes of its own, with ids, classes and
    handlers the script did not choose; an element with the id
    [typing-indicator] inside a message is what [getElementById] finds
    before the indicator. The model does not parse markup:
    [foreign_markup] records that such a text has been written, and the
    chat and the carousel of the model are those of the page only as long
    as it is [false]. It is a record about the page, no part of it, and no
    handler reads it. *)

Record file := {
  file_name : jsstring;
  file_type : jsstring;
  file_dataURL : jsstring   (* what a FileReader yields for it *)
}.

Inductive role := user | bot.

(** The children of [#chat-container]; each has the class [message]. *)
Inductive node :=
| MessageNode (r : role) (innerHTML : jsstring)
| ImageMessageNode (innerHTML : jsstring) (src : jsstring)
| TypingNode.

Record page := mkPage {
  chat : list node;
  userInput : jsstring;
  currentAttachment : option file;
  fileUpload : option file;
  filePreview_hidden : bool;
  imagePreview_hidden : bool;
  imagePreview_src : jsstring;
  carousel : list card;
  carousel_hidden : bool;
  details_listening : bool;
  foreign_markup : bool
}.

Definition set_chat (v : list node) (p : page) : page :=
  mkPage v (userInput p) (currentAttachment p) (fileUpload p)
    (filePreview_hidden p) (imagePreview_hidden p) (imagePreview_src p)
    (carousel p) (carousel_hidden p)
    (details_listening p) (foreign_markup p).
Definition set_userInput (v : jsstring) (p : page) : page :=
  mkPage (chat p) v (currentAttachment p) (fileUpload p)
    (filePreview_hidden p) (imagePreview_hidden p) (imagePreview_src p)
    (carousel p) (carousel_hidden p)
    (details_listening p) (foreign_markup p).
Definition set_currentAttachment (v : option file) (p : page) : page :=
  mkPage (chat p) (userInput p) v (fileUpload p)
    (filePreview_hidden p) (imagePreview_hidden p) (imagePreview_src p)
    (carousel p) (carousel_hidden p)
    (details_listening p) (foreign_markup p).
Definition set_fileUpload (v : option file) (p : page) : page :=
  mkPage (chat p) (userInput p) (currentAttachment p) v
    (filePreview_hidden p) (imagePreview_hidden p) (imagePreview_src p)
    (carousel p) (carousel_hidden p)
    (details_listening p) (foreign_markup p).
Definition set_filePreview_hidden (v : bool) (p : page) : page :=
  mkPage (chat p) (userInput p) (currentAttachment p) (fileUpload p)
    v (imagePreview_hidden p) (imagePreview_src p)
    (carousel p) (carousel_hidden p)
    (details_listening p) (foreign_markup p).
Definition set_imagePreview_hidden (v : bool) (p : page) : page :=
  mkPage (chat p) (userInput p) (currentAttachment p) (fileUpload p)
    (filePreview_hidden p) v (imagePreview_src p)
    (carousel p) (carousel_hidden p)
    (details_listening p) (foreign_markup p).
Definition set_imagePreview_src (v : jsstring) (p : page) : page :=
  mkPage (chat p) (userInput p) (currentAttachment p) (fileUpload p)
    (filePreview_hidden p) (imagePreview_hidden p) v
    (carousel p) (carousel_hidden p)
    (details_listening p) (foreign_markup p).
Definition set_carousel (v : list card) (p : page) : page :=
  mkPage (chat p) (userInput p) (currentAttachment p) (fileUpload p)
    (filePreview_hidden p) (imagePreview_hidden p) (imagePreview_src p)
    v (carousel_hidden p)
    (details_listening p) (foreign_markup p).
Definition set_carousel_hidden (v : bool) (p : page) : page :=
  mkPage (chat p) (userInput p) (currentAttachment p) (fileUpload p)
    (filePreview_hidden p) (imagePreview_hidden p) (imagePreview_src p)
    (carousel p) v
    (details_listening p) (foreign_markup p).
Definition set_details_listening (v : bool) (p : page) : page :=
  mkPage (chat p) (userInput p) (currentAttachment p) (fileUpload p)
    (filePreview_hidden p) (imagePreview_hidden p) (imagePreview_src p)
    (carousel p) (carousel_hidden p)
    v (foreign_markup p).
Definition set_foreign_markup (v : bool) (p : page) : page :=
  mkPage (chat p) (userInput p) (currentAttachment p) (fileUpload p)
    (filePreview_hidden p) (imagePreview_hidden p) (imagePreview_src p)
    (carousel p) (carousel_hidden p)
    (details_listening p) v.

(** ** Replies and requests *)

(** The order of a reply; the script only logs it. *)
Inductive orderRef := OrderRef (json : jsstring).

(** [data.data] of a reply. *)
Record payload := {
  products : option (list product);
  product_ : option product;
  order : option orderRef
}.

(** The parsed body of a response: [message] is [None] when the body
    has no message that is a string, [data] when it has no truthy data. *)
Record reply := {
  message : option jsstring;
  data : option payload
}.

(** How a [fetch] settles: it rejects, or it resolves with a response
    that is ok or not and whose body is JSON ([Some]) or not. *)
Inductive outcome :=
| Rejected
| Response (ok : bool) (body : option reply).

Inductive body :=
| JsonBody (msg session_id : jsstring)
| FormBody (msg session_id : jsstring) (f : option file).

(** What the handlers do to the world outside the page. *)
Inductive effect :=
| Fetch (endpoint : jsstring) (b : body)
| TypingShown
| TypingRemoved
| Alert (msg : jsstring)
| ConsoleError
| ConsoleLog (o : orderRef)
| ReadAsDataURL (f : file).

(** The two promise chains. *)
Inductive chain := PlainChain | FileChain.

(** The two [onload] callbacks, with what their closures hold. *)
Inductive read_task :=
| PreviewRead (f : file)
| SendRead (msg : jsstring) (f : file).

Record world := mkWorld {
  dom : page;
  sessionId : jsstring;
  fetches : list (nat * chain);
  readers : list (nat * read_task);
  next_id : nat;
  log : list effect
}.

Definition on_dom (f : page -> page) (w : world) : world :=
  mkWorld (f (dom w)) (sessionId w) (fetches w) (readers w) (next_id w) (log w).
Definition emit (e : effect) (w : world) : world :=
  mkWorld (dom w) (sessionId w) (fetches w) (readers w) (next_id w) (log w ++ [e]).
Definition set_fetches (v : list (nat * chain)) (w : world) : world :=
  mkWorld (dom w) (sessionId w) v (readers w) (next_id w) (log w).
Definition set_readers (v : list (nat * read_task)) (w : world) : world :=
  mkWorld (dom w) (sessionId w) (fetches w) v (next_id w) (log w).
Definition set_next_id (v : nat) (w : world) : world :=
  mkWorld (dom w) (sessionId w) (fetches w) (readers w) v (log w).

(** [fetch(endpoint, ...)]: the request goes out and its chain waits. *)
Definition fetch (endpoint : jsstring) (b : body) (c : chain) (w : world) : world :=
  let w := emit (Fetch endpoint b) w in
  set_next_id (S (next_id w)) (set_fetches (fetches w ++ [(next_id w, c)]) w).

(** [reader.readAsDataURL(f)] with [onload] set to the task. *)
Definition readAsDataURL (t : read_task) (f : file) (w : world) : world :=
  let w := emit (ReadAsDataURL f) w in
  set_next_id (S (next_id w)) (set_readers (readers w ++ [(next_id w, t)]) w).

(** ** The handlers *)

(** The code unit [c] occurs in [s]. *)
Definition holds (c : N) (s : jsstring) : bool := existsb (N.eqb c) s.

(** A text written between tags opens a tag of its own with a [<]. *)
Definition opens_tag (s : jsstring) : bool := holds 60 s.

(** The record of [foreign_markup], kept at every write of a text as
    markup. *)
Definition note_markup (b : bool) (w : world) : world :=
  on_dom (fun p => set_foreign_markup (foreign_markup p || b) p) w.

(** The texts of a product that its card holds between tags: the name,
    the stock notice, the description as far as it is shown, the price,
    the original price where it is struck through, and the details. *)
Definition card_texts (p : product) : list jsstring :=
  [name p; in_stock p; description_text (or_empty (description p));
   ToString (price p);
   if truthy (original_price p) && strict_neq (original_price p) (price p)
   then strikeout (original_price p) else [];
   or_empty (category p); or_empty (model p); or_empty (brand p);
   or_empty (warranty p)].

(** The texts of a product that its card holds inside attribute values
    between double quotes: the address of the image, the name, the id. *)
Definition card_attributes (p : product) : list jsstring :=
  [or_empty (image_url p); name p; pid p].

(** The card of the product holds markup the script did not write: a text
    opens a tag, or a double quote ends an attribute value before its
    closing quote. *)
Definition brings_markup (p : product) : bool :=
  existsb opens_tag (card_texts p) || existsb (holds 34) (card_attributes p).


(** [message.replace(/\n/g, '<br>')] *)
Definition br_newlines (s : jsstring) : jsstring :=
  flat_map (fun c => if (c =? 10)%N then js "<br>" else [c]) s.

(** chat.js, [addMessageToChat]. *)
Definition addMessageToChat (r : role) (msg : jsstring) (w : world) : world :=
  let formattedMessage := br_newlines msg in
  on_dom (fun p => set_chat
    (chat p ++ [MessageNode r (js "<p>" ++ formattedMessage ++ js "</p>")]) p) w.

(** chat.js, [showTypingIndicator]. *)
Definition showTypingIndicator (w : world) : world :=
  emit TypingShown (on_dom (fun p => set_chat (chat p ++ [TypingNode]) p) w).

Definition is_typing (n : node) : bool :=
  match n with
  | TypingNode => true
  | _ => false
  end.

(** Without the first element whose id is [typing-indicator]. *)
Fixpoint remove_first_typing (l : list node) : list node :=
  match l with
  | [] => []
  | n :: l' => if is_typing n then l' else n :: remove_first_typing l'
  end.

(** chat.js, [removeTypingIndicator]: [getElementById] finds the first
    element with the id [typing-indicator] in document order, if there is
    one. In a page without foreign markup only the indicators have this
    id, and they are children of the chat container. *)
Definition removeTypingIndicator (w : world) : world :=
  if existsb is_typing (chat (dom w)) then
    emit TypingRemoved
      (on_dom (fun p => set_chat (remove_first_typing (chat p)) p) w)
  else w.

(** The [forEach] of [displayProducts]: a card that throws ends the loop
    and leaves the cards appended before it. *)
Fixpoint append_cards (ps : list product) (w : world) : result unit * world :=
  match ps with
  | [] => (Ok tt, w)
  | p :: ps' =>
      match product_card p with
      | Ok c =>
          let w := on_dom (fun d => set_carousel (carousel d ++ [c]) d) w in
          append_cards ps' (note_markup (brings_markup p) w)
      | Throw e => (Throw e, w)
      end
  end.

(** chat.js, [displayProducts]. The cards are new elements, and their
    Details buttons get their click listener after the loop and after the
    carousel is shown: a throw in the loop leaves the cards appended so
    far without one. *)
Definition displayProducts (ps : list product) (w : world) : result unit * world :=
  let w := on_dom (fun d => set_details_listening false (set_carousel [] d)) w in
  match append_cards ps w with
  | (Ok _, w) =>
      let w := on_dom (set_carousel_hidden false) w in
      (Ok tt, on_dom (set_details_listening true) w)
  | (Throw e, w) => (Throw e, w)
  end.

Definition or_nil {A} (o : option (list A)) : list A :=
  match o with
  | Some l => l
  | None => []
  end.

(** [data.products && data.products.length > 0] *)
Definition products_populated (d : payload) : bool :=
  match products d with
  | Some (_ :: _) => true
  | _ => false
  end.

(** chat.js, [handleResponseData]. *)
Definition handleResponseData (d : payload) (w : world) : result unit * world :=
  if products_populated d then displayProducts (or_nil (products d)) w
  else
    match product_ d with
    | Some p => displayProducts [p] w
    | None =>
        match order d with
        | Some o => (Ok tt, emit (ConsoleLog o) w)
        | None => (Ok tt, on_dom (set_carousel_hidden true) w)
        end
    end.

Definition api_chat : jsstring := js "/api/chat".
Definition api_chat_with_file : jsstring := js "/api/chat-with-file".

Definition apology_plain : jsstring :=
  js "Sorry, I encountered an error. Please try again.".
Definition apology_file : jsstring :=
  js "Sorry, I encountered an error processing your file. Please try again.".

Definition only_images : jsstring :=
  js "Only image files are supported at this time.".

(** chat.js, [removeAttachment]. *)
Definition removeAttachment (w : world) : world :=
  on_dom (fun p =>
    set_userInput []
      (set_imagePreview_hidden true
        (set_filePreview_hidden true
          (set_fileUpload None
            (set_currentAttachment None p))))) w.

(** chat.js, [sendFileToBackend], up to the [fetch]. *)
Definition sendFileToBackend (msg : jsstring) (f : option file) (w : world) : world :=
  let w := showTypingIndicator w in
  fetch api_chat_with_file (FormBody msg (sessionId w) f) FileChain w.

(** chat.js, [sendMessageWithAttachment], up to the end of the handler;
    the [onload] callback is [SendRead]. *)
Definition sendMessageWithAttachment (w : world) : world :=
  match currentAttachment (dom w) with
  | None => w
  | Some f =>
      let t := trim (userInput (dom w)) in
      let msg := if jsstring_eqb t [] then js "I'm sending an image." else t in
      let w := readAsDataURL (SendRead msg f) f w in
      let w := on_dom (set_userInput []) w in
      removeAttachment w
  end.

(** chat.js, [sendMessage], up to the [fetch]. *)
Definition sendMessage (w : world) : world :=
  let msg := trim (userInput (dom w)) in
  match currentAttachment (dom w) with
  | Some _ => sendMessageWithAttachment w
  | None =>
      if jsstring_eqb msg [] then w
      else
        let w := addMessageToChat user msg w in
        let w := note_markup (opens_tag msg) w in
        let w := on_dom (set_userInput []) w in
        let w := showTypingIndicator w in
        fetch api_chat (JsonBody msg (sessionId w)) PlainChain w
  end.

(** The text of a reply as its chain shows it: linkified on the plain
    chain, as it is on the file chain. Without a string, [message.replace]
    is a TypeError, in [formatMessageWithLinks] on the plain chain and in
    [addMessageToChat], before anything is added, on the file chain. *)
Definition shown_text (c : chain) (r : reply) : result jsstring :=
  match message r with
  | None => Throw TypeError
  | Some m =>
      match c with
      | PlainChain => formatMessageWithLinks m
      | FileChain => Ok m
      end
  end.

(** The last [then] of a chain, run on the parsed reply. A throw leaves
    what was done before it. *)
Definition on_reply (c : chain) (r : reply) (w : world) : result unit * world :=
  let w := removeTypingIndicator w in
  match shown_text c r with
  | Throw e => (Throw e, w)
  | Ok text =>
      let w := addMessageToChat bot text w in
      let w := note_markup (opens_tag (or_empty (message r))) w in
      match data r with
      | Some d => handleResponseData d w
      | None => (Ok tt, w)
      end
  end.

Definition apology (c : chain) : jsstring :=
  match c with
  | PlainChain => apology_plain
  | FileChain => apology_file
  end.

(** The [catch] of a chain. *)
Definition on_error (c : chain) (w : world) : world :=
  let w := emit ConsoleError w in
  let w := removeTypingIndicator w in
  addMessageToChat bot (apology c) w.

(** A chain from the settlement of its [fetch] on: the first [then]
    throws unless the response is ok, [response.json()] rejects a body that
    is not JSON, and the [catch] also receives what the last [then]
    throws. *)
Definition settle (c : chain) (o : outcome) (w : world) : world :=
  match o with
  | Rejected => on_error c w
  | Response false _ => on_error c w
  | Response true None => on_error c w
  | Response true (Some r) =>
      match on_reply c r w with
      | (Ok _, w') => w'
      | (Throw _, w') => on_error c w'
      end
  end.

(** The pattern of the file name: a point, then to the end of the name
    one or more characters other than a slash or a point. *)
Definition re_extension : regex :=
  Seq (chr false 46)
      (Seq (Plus true (fun c => negb ((c =? 47)%N || (c =? 46)%N))) EndA).

Definition strip_extension (n : jsstring) : jsstring :=
  match replace_all re_extension (fun _ _ => Ok []) n with
  | Ok s => s
  | Throw _ => n
  end.

(** chat.js, [handleFileUpload], on the first file of the input. *)
Definition handleFileUpload (file : option file) (w : world) : world :=
  match file with
  | None => w
  | Some f =>
      if negb (startsWith (js "image/") (file_type f)) then
        let w := emit (Alert only_images) w in
        on_dom (set_fileUpload None) w
      else
        let w := on_dom (set_currentAttachment (Some f)) w in
        let w := readAsDataURL (PreviewRead f) f w in
        let w := on_dom (set_filePreview_hidden false) w in
        on_dom (set_userInput
                  (js "I'm sending an image of " ++ strip_extension (file_name f)
                     ++ js ".")) w
  end.

(** chat.js, [clearChat]: every element of class [message] but the
    first. *)
Definition clearChat (w : world) : world :=
  on_dom (fun p => set_carousel_hidden true (set_chat (firstn 1 (chat p)) p)) w.

(** The [onload] callbacks. *)
Definition run_read (t : read_task) (w : world) : world :=
  match t with
  | PreviewRead f =>
      on_dom (fun p => set_imagePreview_hidden false
                         (set_imagePreview_src (file_dataURL f) p)) w
  | SendRead msg f =>
      let w := on_dom (fun p => set_chat
                 (chat p ++ [ImageMessageNode (js "<p>" ++ msg ++ js "</p>")
                                              (file_dataURL f)]) p) w in
      let w := note_markup (opens_tag msg) w in
      sendFileToBackend msg (currentAttachment (dom w)) w
  end.

(** ** Events *)

(** What the page reacts to. The click that runs [clearChat] is the one
    on the New Chat link of the navigation bar: the base template gives it
    the id [clearChatBtn], the chat template gives the same id to its Clear
    Chat button further down, and [getElementById] hands the script the
    first of the two, so that the button has no listener and a click on it
    is no event of the script. The button that removes the staged file has
    no type and sits in the message form: its click runs
    [removeAttachment] and then submits the form, which [sendMessage]
    ignores, the draft being empty and nothing staged by then. *)
Inductive event :=
| Typed (text : jsstring)          (* the user edits the text field *)
| Submit                           (* submit of the message form *)
| NewChatClick                     (* click on the link with id clearChatBtn *)
| FileChange (f : option file)     (* the file input changes *)
| RemoveFileClick
| ReaderLoad (id : nat)            (* a pending read completes *)
| Settle (id : nat) (o : outcome). (* a pending fetch settles *)

Fixpoint lookup {A} (id : nat) (l : list (nat * A)) : option A :=
  match l with
  | [] => None
  | (j, a) :: l' => if (id =? j)%nat then Some a else lookup id l'
  end.

Fixpoint without {A} (id : nat) (l : list (nat * A)) : list (nat * A) :=
  match l with
  | [] => []
  | (j, a) :: l' => if (id =? j)%nat then l' else (j, a) :: without id l'
  end.

(** One turn of the event loop: the listeners of the event. *)
Definition step (e : event) (w : world) : world :=
  match e with
  | Typed text => on_dom (set_userInput text) w
  | Submit => sendMessage w
  | NewChatClick => clearChat w
  | FileChange f => handleFileUpload f (on_dom (set_fileUpload f) w)
  | RemoveFileClick => sendMessage (removeAttachment w)
  | ReaderLoad id =>
      match lookup id (readers w) with
      | Some t => run_read t (set_readers (without id (readers w)) w)
      | None => w
      end
  | Settle id o =>
      match lookup id (fetches w) with
      | Some c => settle c o (set_fetches (without id (fetches w)) w)
      | None => w
      end
  end.

Definition run (es : list event) (w : world) : world :=
  fold_left (fun w e => step e w) es w.

(** The welcome message of the template, without the white space
    between its tags. *)
Definition welcome : node :=
  MessageNode bot
    (js "<p>Hello! I'm your AI shopping assistant. How can I help you today?</p>"
       ++ js "<p class=" ++ quoted "small text-muted"
       ++ js ">Try asking about products, checking order status, or getting recommendations!</p>").

(** The page as the template serves it. *)
Definition initial (session : jsstring) : world :=
  mkWorld (mkPage [welcome] [] None None true true [] [] true false false)
          session [] [] 0 [].

Definition count_typing (w : world) : nat :=
  length (filter is_typing (chat (dom w))).

Definition is_fetch (e : effect) : bool :=
  match e with
  | Fetch _ _ => true
  | _ => false
  end.

Definition is_removed (e : effect) : bool :=
  match e with
  | TypingRemoved => true
  | _ => false
  end.

Definition is_shown (e : effect) : bool :=
  match e with
  | TypingShown => true
  | _ => false
  end.

(** ** Notions and sample data of the statements *)

(** [a < b] on doubles, as a proposition. *)
Definition num_lt (a b : number) : Prop :=
  match a, b with
  | Fin x, Fin y => (x < y)%Q
  | Fin _, Inf s => s = false
  | Inf s, Fin _ => s = true
  | Inf s, Inf t => s = true /\ t = false
  | _, _ => False
  end.

(** A double that is not below 0. *)
Definition num_nonneg (a : number) : Prop :=
  match a with
  | Fin x => (0 <= x)%Q
  | Inf s => s = false
  | NaN => False
  end.

(** The percentage as the exact quotient gives it, rounded to the
    nearest integer, which is what the code would return if its
    arithmetic were exact. *)
Definition exact_percent (c o : Q) : Z :=
  Qfloor ((1 - c / o) * 100 + (1 # 2))%Q.

(** A field is present when the record has it and it is not null. *)
Definition present (v : value) : Prop := v <> VUndefined /\ v <> VNull.

Definition is_sale_display (s : jsstring) : Prop :=
  exists pr d o, s = sale_display pr d o.

Definition five_dollars (orig : value) : product :=
  {| pid := js "p2"; name := js "Cable"; description := Some (js "A cable");
     price := VStr (js "$5"); original_price := orig;
     in_stock := js "In Stock"; image_url := None; category := None;
     model := None; brand := None; rating := None; warranty := None |}.

(** The rating line: [n] filled glyphs, then empty ones up to five, then
    the rating between parentheses. *)
Definition rating_line (r : Q) : jsstring :=
  let n := Z.to_nat (Math_floor r) in
  detail_line "fas fa-star me-1 text-warning"
    ((repeat 9733%N n ++ repeat 9734%N (5 - n))
       ++ js " (" ++ Number_toString (Fin r) ++ js ")").

Definition text_line (icon : string) (o : option jsstring) : list jsstring :=
  if truthy_str o then [detail_line icon (or_empty o)] else [].

(** The detail lines in their fixed order: category, model, brand,
    rating, warranty, each one only when its field is truthy. *)
Definition detail_lines (p : product) : list jsstring :=
  text_line "fas fa-tag me-1 text-secondary" (category p)
  ++ text_line "fas fa-cube me-1 text-secondary" (model p)
  ++ text_line "fas fa-trademark me-1 text-secondary" (brand p)
  ++ match rating p with
     | Some r => if truthy_num (rating p) then [rating_line r] else []
     | None => []
     end
  ++ text_line "fas fa-shield-alt me-1 text-secondary" (warranty p).

Definition rated (r : Q) : product :=
  {| pid := js "p3"; name := js "Lamp"; description := Some (js "A lamp");
     price := VStr (js "$12"); original_price := VUndefined;
     in_stock := js "In Stock"; image_url := None;
     category := Some (js "Home"); model := None; brand := None;
     rating := Some r; warranty := None |}.

Definition line_if_present (icon : string) (o : option jsstring) : list jsstring :=
  match o with
  | Some s => [detail_line icon s]
  | None => []
  end.

(** The detail lines if every field that is present had its line. *)
Definition lines_if_present (p : product) : list jsstring :=
  line_if_present "fas fa-tag me-1 text-secondary" (category p)
  ++ line_if_present "fas fa-cube me-1 text-secondary" (model p)
  ++ line_if_present "fas fa-trademark me-1 text-secondary" (brand p)
  ++ match rating p with
     | Some r => [rating_line r]
     | None => []
     end
  ++ line_if_present "fas fa-shield-alt me-1 text-secondary" (warranty p).

(** The cards of a list of products, when none throws. *)
Fixpoint cards_of (ps : list product) : result (list card) :=
  match ps with
  | [] => Ok []
  | p :: ps' =>
      c <- product_card p ;; cs <- cards_of ps' ;; Ok (c :: cs)
  end.

(** The cards built before the first product whose card throws, and
    what that one throws. *)
Fixpoint cards_until (ps : list product) : list card * option exn :=
  match ps with
  | [] => ([], None)
  | p :: ps' =>
      match product_card p with
      | Ok c => let (cs, e) := cards_until ps' in (c :: cs, e)
      | Throw e => ([], Some e)
      end
  end.

(** [out] is what rendering [ps] as the carousel makes of [w]: the
    carousel holds the cards built before the first throw; when no card
    throws it is shown, when one throws that is the outcome and the
    carousel is as visible as it was. The transcript and the log are as
    they were. *)
Definition rendered (ps : list product) (w : world)
    (out : result unit * world) : Prop :=
  carousel (dom (snd out)) = fst (cards_until ps)
  /\ chat (dom (snd out)) = chat (dom w)
  /\ log (snd out) = log w
  /\ match snd (cards_until ps) with
     | None => fst out = Ok tt /\ carousel_hidden (dom (snd out)) = false
     | Some e => fst out = Throw e
                 /\ carousel_hidden (dom (snd out)) = carousel_hidden (dom w)
     end.

Definition cat_png : file :=
  {| file_name := js "cat.png"; file_type := js "image/png";
     file_dataURL := js "data:image/png;base64,AAAA" |}.

Definition notes_pdf : file :=
  {| file_name := js "notes.pdf"; file_type := js "application/pdf";
     file_dataURL := js "data:application/pdf;base64,AAAA" |}.

Definition session0 : jsstring := js "session_k3x9".

(** The page after the user has staged the image. *)
Definition staged : world := step (FileChange (Some cat_png)) (initial session0).

Definition order1 : orderRef := OrderRef (js "o1").


Definition hi : jsstring := js "hi".



(** The effects of a send: indicators shown and removed, requests. *)
Definition is_send_effect (e : effect) : bool :=
  is_fetch e || is_shown e || is_removed e.

Definition send_trace (w : world) : list effect :=
  filter is_send_effect (log w).

Definition is_send_task (t : read_task) : bool :=
  match t with
  | SendRead _ _ => true
  | PreviewRead _ => false
  end.

(** The events that may happen while a send is under way without
    touching it: the user edits the text field or the file input, or a
    preview read completes. A submit, a click on New Chat, the read of a
    send and a settlement are not among them. *)
Definition bystander (w : world) (e : event) : bool :=
  match e with
  | Typed _ | FileChange _ | RemoveFileClick => true
  | ReaderLoad id =>
      match lookup id (readers w) with
      | Some t => negb (is_send_task t)
      | None => true
      end
  | Submit | NewChatClick | Settle _ _ => false
  end.

Fixpoint calm (es : list event) (w : world) : bool :=
  match es with
  | [] => true
  | e :: es' => bystander w e && calm es' (step e w)
  end.

(** The text a send with an attachment carries. *)
Definition attachment_text (w : world) : jsstring :=
  if jsstring_eqb (trim (userInput (dom w))) [] then js "I'm sending an image."
  else trim (userInput (dom w)).

Definition ok_reply : outcome :=
  Response true (Some {| message := Some (js "ok"); data := None |}).

(** The ids of the pending reads are below the next id to be given. *)
Definition fresh_ids (w : world) : Prop :=
  Forall (fun x => (fst x < next_id w)%nat) (readers w).

(** A plain send under way, then a click on New Chat, then the
    reply. *)
Definition sending : world := run [Typed hi; Submit] (initial session0).
Definition cleared : world := step NewChatClick sending.
Definition cleared_settled : world := step (Settle 0 ok_reply) cleared.

(** The matches a global [replace] finds, left to right without
    overlap, each with its captures. *)
Fixpoint scan (r : regex) (prev : option N) (skip : nat) (s : jsstring)
  : list (jsstring * captures) :=
  match skip with
  | S n =>
      match s with
      | c :: s' => scan r (Some c) n s'
      | [] => []
      end
  | O =>
      match match_at r prev s with
      | Some (cs, rest) =>
          let matched := firstn (length s - length rest) s in
          (matched, cs)
            :: match s with
               | c :: s' => scan r (Some c) (pred (length matched)) s'
               | [] => []
               end
      | None =>
          match s with
          | c :: s' => scan r (Some c) O s'
          | [] => []
          end
      end
  end.

(** The spans between quotes that the first pass looks at. *)
Definition quoted_spans (m : jsstring) : list jsstring :=
  map (fun x => or_empty (cap 2 (snd x))) (scan re_quoted None 0 m).

(** No span between quotes holds a product keyword. *)
Definition no_keyword_span (m : jsstring) : bool :=
  forallb (fun p2 => negb (regex_test re_keywords p2)) (quoted_spans m).

(** The product parts of the phrases the second pass looks at. *)
Definition generic_products (m : jsstring) : list jsstring :=
  map (fun x => or_empty (cap 2 (snd x))) (scan re_generic None 0 m).

(** No product part of a phrase of the second pass is longer than 3
    characters. *)
Definition no_long_generic (m : jsstring) : bool :=
  forallb (fun p => negb (3 <? length p)%nat) (generic_products m).

(** The linkifier applied to its own output. *)
Definition linkify_twice (m : jsstring) : result jsstring :=
  m1 <- formatMessageWithLinks m ;; formatMessageWithLinks m1.

Definition quoted_phone : jsstring := js "'phone'".

(** ** Notions for the properties of the whole script *)

(** The requests sent so far. *)
Definition requests (w : world) : list effect := filter is_fetch (log w).

(** The transcript without the typing indicators. *)
Definition messages (w : world) : list node :=
  filter (fun n => negb (is_typing n)) (chat (dom w)).

Definition is_bot_message (n : node) : bool :=
  match n with
  | MessageNode bot _ => true
  | _ => false
  end.

Definition is_submit (e : event) : bool :=
  match e with
  | Submit => true
  | _ => false
  end.

Definition is_clear (e : event) : bool :=
  match e with
  | NewChatClick => true
  | _ => false
  end.

(** The reads of sends that have not completed yet. *)
Definition pending_sends (w : world) : nat :=
  length (filter (fun x => is_send_task (snd x)) (readers w)).

(** A request as the two senders build it: the endpoint of its kind, the
    session id of the page, a text that is not empty. *)
Definition well_formed_request (session : jsstring) (e : effect) : Prop :=
  match e with
  | Fetch endpoint (JsonBody msg sid) =>
      endpoint = api_chat /\ sid = session /\ msg <> []
  | Fetch endpoint (FormBody msg sid _) =>
      endpoint = api_chat_with_file /\ sid = session /\ msg <> []
  | _ => True
  end.

(** The text of a pending read of a send is not empty. *)
Definition send_text_ok (x : nat * read_task) : Prop :=
  match snd x with
  | SendRead msg _ => msg <> []
  | PreviewRead _ => True
  end.

(** An effect that is neither a request nor the showing of an
    indicator. *)
Definition is_aftermath (e : effect) : Prop :=
  is_fetch e = false /\ is_shown e = false.

(** The draft and the attachment controls of the page. *)
Definition attachment_ui (w : world)
  : jsstring * option file * option file * bool * bool * jsstring :=
  (userInput (dom w), currentAttachment (dom w), fileUpload (dom w),
   filePreview_hidden (dom w), imagePreview_hidden (dom w),
   imagePreview_src (dom w)).

(** A rating that is not 0 and whose floor is below 0 or above 5. *)
Definition bad_rating (p : product) : bool :=
  match rating p with
  | Some r =>
      truthy_num (Some r) && ((Math_floor r <? 0) || (5 <? Math_floor r))
  | None => false
  end.

(** No surrogate without its other half. *)
Fixpoint well_paired (s : jsstring) : bool :=
  match s with
  | [] => true
  | c :: s' =>
      if is_low_surrogate c then false
      else if is_high_surrogate c then
        match s' with
        | d :: s'' => is_low_surrogate d && well_paired s''
        | [] => false
        end
      else well_paired s'
  end.

(** The characters of an encoded component: the unreserved ones and the
    percent sign. *)
Definition url_safe (c : N) : bool := uri_unreserved c || (c =? 37)%N.

(** The products [handleResponseData] passes to [displayProducts]. *)
Definition shown_products (d : payload) : list product :=
  if products_populated d then or_nil (products d)
  else match product_ d with
       | Some p => [p]
       | None => []
       end.

(** A product whose card can be built: a name without a lone
    surrogate, no bad rating, a description. *)
Definition good_product (p : product) : bool :=
  well_paired (name p) && negb (bad_rating p)
  && match description p with
     | Some _ => true
     | None => false
     end.

Definition bot_node (text : jsstring) : node :=
  MessageNode bot (js "<p>" ++ br_newlines text ++ js "</p>").

(** A reply with two products, the second one rated 7. *)
Definition two_products : reply :=
  {| message := Some (js "Here you are");
     data := Some {| products := Some [speaker; rated 7];
                     product_ := None; order := None |} |}.

(** The click handler [displayProducts] gives the Details button of a
    card: the draft becomes a question about the product the button
    names in its [data-product-id] attribute, and the form is submitted. *)
Definition product_info_click (productId : jsstring) (w : world) : world :=
  step Submit
    (on_dom (set_userInput (js "Tell me more about product " ++ productId)) w).

(** A click on the Details button of the card at place [i] of the
    carousel: its listener runs if [displayProducts] got as far as giving
    it one, and reads the id of the product from the attribute of the
    button, which is the id written there unless that alters the
    attribute. A click that runs the listener amounts to the two events
    of typing the question and submitting it. *)
Definition details_click (i : nat) (w : world) : world :=
  match nth_error (carousel (dom w)) i with
  | Some c =>
      if details_listening (dom w) then product_info_click (card_product_id c) w
      else w
  | None => w
  end.


(** A pattern without capture groups. *)
Fixpoint group_free (r : regex) : bool :=
  match r with
  | Seq r1 r2 | Alt r1 r2 => group_free r1 && group_free r2
  | Opt r1 => group_free r1
  | Group _ _ => false
  | _ => true
  end.

(** A character of the class of the second group of the product-noun
    pattern: a word character or white space. *)
Definition word_or_space (c : N) : bool := is_word c || is_space c.

(** What the first pass puts in place of the span between two quotes:
    the anchor around the span when it holds a product keyword, the span
    itself when it does not. *)
Definition span_markup (p2 : jsstring) : result jsstring :=
  if regex_test re_keywords p2 then
    searchQuery <- encodeURIComponent p2 ;; Ok (product_link searchQuery p2)
  else Ok p2.

(** * Properties *)

(** Most facts about a handler follow by opening the world and its page
    and computing. *)
Ltac open_world w := destruct w as [[] ? ? ? ? ?].

(** ** Evaluations *)

Example calculateDiscount_80_100 :
  calculateDiscount (VNum (Fin 80%Q)) (VNum (Fin 100%Q)) = Fin 20.
Proof. vm_compute. reflexivity. Qed.

(** (1 - 17 / 40) * 100 is 57.49999999999999 in doubles, and 57.5
    exactly. *)
Example calculateDiscount_17_40 :
  calculateDiscount (VStr (js "$17")) (VStr (js "$40")) = Fin 57
  /\ exact_percent 17 40 = 58.
Proof. split; vm_compute; reflexivity. Qed.

Example extractCurrentPrice_ex :
  extractCurrentPrice (VStr (js "$1,234.5")) = js "1234.50".
Proof. vm_compute. reflexivity. Qed.

Example extractCurrentPrice_ex2 :
  extractCurrentPrice (VStr (js "N/A")) = js "NaN".
Proof. vm_compute. reflexivity. Qed.

(** The double nearest 1.005 is below it. *)
Example extractCurrentPrice_ex3 :
  extractCurrentPrice (VStr (js "$1.005")) = js "1.00"
  /\ extractCurrentPrice (VNum (Fin (1005 # 1000))) = js "1.00".
Proof. split; vm_compute; reflexivity. Qed.

Example extractCurrentPrice_ex4 :
  extractCurrentPrice (VNum (Fin (inject_Z (10 ^ 21)))) = js "1e+21"
  /\ extractCurrentPrice (VStr (js "999999999999999999999")) = js "1e+21"
  /\ extractCurrentPrice (VStr (js "99999999999999999999")) =
     js "100000000000000000000.00".
Proof. repeat split; vm_compute; reflexivity. Qed.

Example toString_ex :
  Number_toString (Fin (-9 # 2)%Q) = js "-4.5"
  /\ Number_toString (Fin (1 # 10)%Q) = js "0.1"
  /\ Number_toString (Fin (1999 # 100)%Q) = js "19.99"
  /\ Number_toString (Fin (1 # 10000000)%Q) = js "1e-7"
  /\ Number_toString (Fin (inject_Z (10 ^ 23))) = js "1e+23"
  /\ Number_toString (num_div (Fin 1) (Fin 3)) = js "0.3333333333333333".
Proof. repeat split; vm_compute; reflexivity. Qed.

Example toFixed_ex : toFixed2 (to_double (Fin (-1 # 1000)%Q)) = js "-0.00".
Proof. vm_compute. reflexivity. Qed.

Example toFixed_ex2 : toFixed2 (to_double (Fin (5 # 1000)%Q)) = js "0.01".
Proof. vm_compute. reflexivity. Qed.

Example binary64_ex :
  binary64 (1 # 10) = Fin (3602879701896397 # 36028797018963968)
  /\ binary64 (inject_Z (2 ^ 53 + 1)) = Fin (inject_Z (2 ^ 53))
  /\ binary64 (inject_Z (2 ^ 1024)) = Inf false
  /\ binary64 (1 # 10 ^ 400) = Fin 0.
Proof. repeat split; vm_compute; reflexivity. Qed.

Example link_ex1 :
  formatMessageWithLinks (js "Try 'phone' now") =
  Ok (js "Try '" ++ product_link (js "phone") (js "phone") ++ js "' now").
Proof. vm_compute. reflexivity. Qed.

Example link_ex2 :
  formatMessageWithLinks (js "the smart device today") =
  Ok (js "the " ++ product_link (js "smart") (js "smart") ++ js " device today").
Proof. vm_compute. reflexivity. Qed.

Example speaker_price :
  formatPriceDisplay speaker = sale_display (js "$80") (Fin 20) (js "$100").
Proof. vm_compute. reflexivity. Qed.

(** ** Doubles *)

Lemma pow2_pos (e : Z) : (0 < pow2 e)%Q.
Proof.
  destruct e as [|p|p]; unfold pow2; try reflexivity.
  unfold Qlt. simpl. pose proof (Z.pow_pos_nonneg 2 (Z.pos p)). lia.
Qed.

(** For an exponent that is not above 0, [pow2 u] is one over the
    integer 2^-u. *)
Lemma pow2_nonpos (u : Z) :
  u <= 0 -> (pow2 u * inject_Z (2 ^ (- u)) == 1)%Q.
Proof.
  intros Hu. destruct u as [|p|p]; [reflexivity | lia |].
  unfold pow2. cbn [Z.opp]. rewrite <- Pos2Z.inj_pow.
  unfold Qeq, Qmult, inject_Z. simpl. lia.
Qed.

Lemma Qabs_nonneg_eq (q : Q) : (0 <= q)%Q -> Qabs q = q.
Proof.
  destruct q as [n d]. unfold Qle. simpl. intros H.
  rewrite Z.abs_eq by lia. reflexivity.
Qed.

Lemma round_half_even_nonneg (x : Q) :
  (0 <= x)%Q -> 0 <= round_half_even x.
Proof.
  intros H. unfold round_half_even.
  assert (F : 0 <= Qfloor x).
  { apply (Z.le_trans _ (Qfloor 0)); [discriminate|].
    apply Qfloor_resp_le. exact H. }
  destruct (Qcompare _ _); [destruct (Z.even _)| |]; lia.
Qed.

Lemma round_half_even_le (x : Q) (n : Z) :
  (x <= inject_Z n)%Q -> round_half_even x <= n.
Proof.
  intros H. unfold round_half_even.
  assert (F : Qfloor x <= n).
  { rewrite <- (Qfloor_Z n). apply Qfloor_resp_le. exact H. }
  destruct (Z.eq_dec (Qfloor x) n) as [E|E].
  - rewrite E.
    destruct (Qcompare_spec (x - inject_Z n) (1 # 2)) as [C|C|C];
      [exfalso; lra | lia | exfalso; lra].
  - destruct (Qcompare _ _); [destruct (Z.even _)| |]; lia.
Qed.

Lemma ilog2_le_52 (q : Q) :
  (0 < q)%Q -> (q < inject_Z (2 ^ 53))%Q -> ilog2 q <= 52.
Proof.
  intros H0 H. unfold ilog2.
  set (a := Z.log2 (Qnum q) - Z.log2 (Z.pos (Qden q))).
  assert (A : a <= 53).
  { destruct q as [n d]. unfold Qlt in H0, H. cbn [Qnum Qden inject_Z] in *.
    subst a.
    assert (Hd : Z.pos d < 2 ^ (Z.log2 (Z.pos d) + 1)).
    { pose proof (Z.log2_spec (Z.pos d)) as S. unfold Z.succ in S. lia. }
    pose proof (Z.log2_nonneg (Z.pos d)) as Ld.
    assert (Hn : n < 2 ^ (54 + Z.log2 (Z.pos d))).
    { replace (54 + Z.log2 (Z.pos d)) with (53 + (Z.log2 (Z.pos d) + 1)) by lia.
      rewrite Z.pow_add_r by lia.
      set (P := 2 ^ 53) in *. set (D := 2 ^ (Z.log2 (Z.pos d) + 1)) in *.
      assert (0 < P) by (subst P; reflexivity).
      nia. }
    apply Z.log2_lt_pow2 in Hn; lia. }
  destruct (Z.eq_dec a 53) as [E|E].
  - rewrite E. change (pow2 53) with (inject_Z (2 ^ 53)).
    destruct (Qle_bool (inject_Z (2 ^ 53)) q) eqn:B; [|lia].
    apply Qle_bool_iff in B. exfalso. lra.
  - destruct (Qle_bool (pow2 a) q); lia.
Qed.

(** Rounding to a double does not leave an interval whose ends are
    integers below 2^53, which are doubles. *)
Lemma binary64_range (q : Q) (m : Z) :
  (0 <= q)%Q -> (q <= inject_Z m)%Q -> m < 2 ^ 53 ->
  exists y, binary64 q = Fin y /\ (0 <= y)%Q /\ (y <= inject_Z m)%Q.
Proof.
  intros H0 Hm Hb. unfold binary64.
  destruct (Qcompare_spec q 0) as [C|C|C].
  - exists 0%Q. split; [reflexivity|]. split; lra.
  - exfalso. lra.
  - rewrite (Qabs_nonneg_eq q H0).
    assert (Hq : (q < inject_Z (2 ^ 53))%Q).
    { apply (Qle_lt_trans _ _ _ Hm). rewrite <- Zlt_Qlt. exact Hb. }
    pose proof (ilog2_le_52 q C Hq) as L.
    set (u := Z.max (ilog2 q) (-1022) - 52).
    assert (Hu : u <= 0) by (subst u; lia).
    pose proof (pow2_pos u) as Pu.
    pose proof (pow2_nonpos u Hu) as Iu.
    set (k := 2 ^ (- u)) in *.
    set (n := round_half_even (q / pow2 u)).
    assert (N0 : 0 <= n).
    { apply round_half_even_nonneg. apply Qle_shift_div_l; [exact Pu | lra]. }
    assert (N1 : n <= m * k).
    { apply round_half_even_le. apply Qle_shift_div_r; [exact Pu|].
      rewrite inject_Z_mult.
      setoid_replace (inject_Z m * inject_Z k * pow2 u)%Q
        with (inject_Z m * (pow2 u * inject_Z k))%Q by ring.
      rewrite Iu. lra. }
    set (r := Qred (inject_Z n * pow2 u)).
    assert (R : (r == inject_Z n * pow2 u)%Q) by apply Qred_correct.
    assert (R0 : (0 <= r)%Q).
    { rewrite R. apply Qmult_le_0_compat; [|lra].
      change 0%Q with (inject_Z 0). rewrite <- Zle_Qle. exact N0. }
    assert (R1 : (r <= inject_Z m)%Q).
    { rewrite R.
      setoid_replace (inject_Z m) with (inject_Z (m * k) * pow2 u)%Q.
      - apply Qmult_le_compat_r; [|lra]. rewrite <- Zle_Qle. exact N1.
      - rewrite inject_Z_mult.
        setoid_replace (inject_Z m * inject_Z k * pow2 u)%Q
          with (inject_Z m * (pow2 u * inject_Z k))%Q by ring.
        rewrite Iu. ring. }
    destruct (Qle_bool (pow2 1024) r) eqn:B.
    + apply Qle_bool_iff in B. exfalso.
      assert (T : (inject_Z (2 ^ 53) < pow2 1024)%Q) by reflexivity.
      assert (Hm' : (inject_Z m < inject_Z (2 ^ 53))%Q)
        by (rewrite <- Zlt_Qlt; exact Hb).
      lra.
    + exists r. repeat split; assumption.
Qed.

(** A double read from a rational that is not below 0 is not below 0. *)
Lemma binary64_nonneg (q : Q) : (0 <= q)%Q -> num_nonneg (binary64 q).
Proof.
  intros H0. unfold binary64.
  destruct (Qcompare_spec q 0) as [C|C|C].
  - simpl. lra.
  - exfalso. lra.
  - rewrite (Qabs_nonneg_eq q H0).
    set (u := Z.max (ilog2 q) (-1022) - 52).
    pose proof (pow2_pos u) as Pu.
    set (r := Qred (inject_Z (round_half_even (q / pow2 u)) * pow2 u)).
    destruct (Qle_bool (pow2 1024) r); [reflexivity|].
    simpl. subst r. rewrite Qred_correct.
    apply Qmult_le_0_compat; [|lra].
    change 0%Q with (inject_Z 0). rewrite <- Zle_Qle.
    apply round_half_even_nonneg. apply Qle_shift_div_l; [exact Pu | lra].
Qed.

(** ** Numbers read from strings *)

Lemma take_digits_digits (s : jsstring) :
  Forall (fun c => is_digit c = true) (fst (take_digits s)).
Proof.
  induction s as [|c s IH]; simpl.
  - constructor.
  - destruct (is_digit c) eqn:Hc.
    + destruct (take_digits s) as [ds r]. simpl in *. constructor; assumption.
    + constructor.
Qed.

Lemma digit_val_nonneg (c : N) : is_digit c = true -> 0 <= digit_val c.
Proof.
  unfold is_digit, digit_val. intros H.
  apply andb_true_iff in H. destruct H as [H _].
  apply N.leb_le in H. lia.
Qed.

Lemma digits_value_nonneg (ds : jsstring) :
  Forall (fun c => is_digit c = true) ds -> 0 <= digits_value ds.
Proof.
  unfold digits_value.
  assert (G : forall acc, 0 <= acc ->
            Forall (fun c => is_digit c = true) ds ->
            0 <= fold_left (fun a c => 10 * a + digit_val c) ds acc).
  { induction ds as [|c ds IH]; cbn [fold_left]; intros acc Hacc Hds.
    - assumption.
    - inversion Hds as [|? ? Hc Hrest]; subst. apply IH; [|assumption].
      pose proof (digit_val_nonneg c Hc). lia. }
  apply G. lia.
Qed.

Lemma Forall_digit_app (a b : jsstring) :
  Forall (fun c => is_digit c = true) a ->
  Forall (fun c => is_digit c = true) b ->
  Forall (fun c => is_digit c = true) (a ++ b).
Proof. intros Ha Hb. apply Forall_app. split; assumption. Qed.

(** What [parseFloat] reads is NaN or a double that is not below 0. *)
Lemma parseFloat_nonneg (s : jsstring) :
  parseFloat s = NaN \/ num_nonneg (parseFloat s).
Proof.
  unfold parseFloat.
  pose proof (take_digits_digits s) as Hip.
  destruct (take_digits s) as [ip r]. simpl in Hip.
  set (fp := match r with
             | c :: r' => if (c =? 46)%N then fst (take_digits r') else []
             | [] => []
             end).
  assert (Hfp : Forall (fun c => is_digit c = true) fp).
  { subst fp. destruct r as [|c r']; [constructor|].
    destruct (c =? 46)%N; [apply take_digits_digits | constructor]. }
  pose proof (digits_value_nonneg (ip ++ fp) (Forall_digit_app _ _ Hip Hfp)) as Hv.
  assert (Hq : (0 <= Qmake (digits_value (ip ++ fp))
                           (Z.to_pos (10 ^ Z.of_nat (length fp))))%Q).
  { unfold Qle. simpl. lia. }
  destruct ip as [|a ip']; destruct fp as [|b fp'];
    first [left; reflexivity | right; apply binary64_nonneg; exact Hq].
Qed.

(** ** PriceNormalizer *)

Lemma num_ltb_spec (a b : number) : num_ltb a b = true <-> num_lt a b.
Proof.
  destruct a as [|x|s], b as [|y|t]; simpl;
    try (split; [discriminate | tauto]).
  - rewrite negb_true_iff. split.
    + intros H. apply Qnot_le_lt. intros Hle.
      apply Qle_bool_iff in Hle. congruence.
    + intros H. destruct (Qle_bool y x) eqn:E; [|reflexivity].
      apply Qle_bool_iff in E. exfalso. exact (Qlt_not_le _ _ H E).
  - destruct t; simpl; split; congruence.
  - tauto.
  - destruct s, t; simpl; split; try tauto; try discriminate;
      intros [? ?]; discriminate.
Qed.

(** The percentage the doubles give lies between 0 and 100 when the
    current price is not below 0 and below the original one. *)
Lemma discount_range (c o : number) :
  num_nonneg c -> num_lt (Fin 0) o -> num_lt c o ->
  exists z,
    Math_round (num_mul (num_sub (Fin 1) (num_div c o)) (Fin 100))
    = Fin (inject_Z z)
    /\ 0 <= z <= 100.
Proof.
  intros Hc Ho Hco.
  destruct c as [|x|s]; [contradiction| |].
  2:{ simpl in Hc. subst s. destruct o as [|y|t]; simpl in Hco;
        [contradiction | discriminate | destruct Hco; discriminate]. }
  destruct o as [|y|t]; [contradiction| |].
  - simpl in Hc, Ho, Hco.
    assert (D0 : (0 <= x / y)%Q) by (apply Qle_shift_div_l; lra).
    assert (D1 : (x / y <= inject_Z 1)%Q)
      by (apply Qle_shift_div_r; [lra | change (inject_Z 1) with 1%Q; lra]).
    destruct (binary64_range (x / y) 1 D0 D1 eq_refl) as (r & Er & R0 & R1).
    change (inject_Z 1) with 1%Q in R1.
    assert (S0 : (0 <= 1 - r)%Q) by lra.
    assert (S1 : (1 - r <= inject_Z 1)%Q) by (change (inject_Z 1) with 1%Q; lra).
    destruct (binary64_range (1 - r) 1 S0 S1 eq_refl) as (s & Es & S2 & S3).
    change (inject_Z 1) with 1%Q in S3.
    assert (T0 : (0 <= s * 100)%Q) by lra.
    assert (T1 : (s * 100 <= inject_Z 100)%Q)
      by (change (inject_Z 100) with 100%Q; lra).
    destruct (binary64_range (s * 100) 100 T0 T1 eq_refl) as (t & Et & T2 & T3).
    change (inject_Z 100) with 100%Q in T3.
    exists (Qfloor (t + (1 # 2))).
    split.
    + unfold num_div.
      destruct (Qcompare_spec y 0) as [C|C|C]; [exfalso; lra | exfalso; lra|].
      rewrite Er. cbn [num_sub]. rewrite Es. cbn [num_mul]. rewrite Et.
      reflexivity.
    + split.
      * apply (Z.le_trans _ (Qfloor 0)); [discriminate|].
        apply Qfloor_resp_le. lra.
      * apply (Z.le_trans _ (Qfloor (201 # 2))); [|discriminate].
        apply Qfloor_resp_le. lra.
  - simpl in Ho. subst t. exists 100. split; [|lia].
    vm_compute. reflexivity.
Qed.

Lemma price_number_string_nonneg (s : jsstring) :
  price_number (VStr s) = NaN \/ num_nonneg (price_number (VStr s)).
Proof. apply parseFloat_nonneg. Qed.

Lemma calculateDiscount_guarded (cur orig : value) :
  num_lt (Fin 0) (price_number orig) ->
  num_lt (price_number cur) (price_number orig) ->
  calculateDiscount cur orig =
    Math_round
      (num_mul
         (num_sub (Fin 1) (num_div (price_number cur) (price_number orig)))
         (Fin 100)).
Proof.
  intros H0 H1. unfold calculateDiscount.
  apply num_ltb_spec in H0. apply num_ltb_spec in H1.
  rewrite H0, H1. reflexivity.
Qed.

Lemma calculateDiscount_unguarded (cur orig : value) :
  ~ num_lt (Fin 0) (price_number orig)
  \/ ~ num_lt (price_number cur) (price_number orig) ->
  calculateDiscount cur orig = Fin 0.
Proof.
  intros H. unfold calculateDiscount.
  destruct (num_ltb (Fin 0) (price_number orig)) eqn:E1;
    destruct (num_ltb (price_number cur) (price_number orig)) eqn:E2;
    try reflexivity.
  apply num_ltb_spec in E1. apply num_ltb_spec in E2. tauto.
Qed.

Lemma calculateDiscount_range (cur orig : value) :
  num_nonneg (price_number cur) \/ price_number cur = NaN ->
  exists z, calculateDiscount cur orig = Fin (inject_Z z) /\ 0 <= z <= 100.
Proof.
  intros Hc.
  destruct (num_ltb (Fin 0) (price_number orig)) eqn:E1;
    destruct (num_ltb (price_number cur) (price_number orig)) eqn:E2;
    try (exists 0; split; [|lia];
         unfold calculateDiscount; rewrite E1, E2; reflexivity).
  apply num_ltb_spec in E1. apply num_ltb_spec in E2.
  rewrite (calculateDiscount_guarded cur orig E1 E2).
  destruct Hc as [Hc|Hc].
  - apply discount_range; assumption.
  - rewrite Hc in E2. contradiction.
Qed.

(** C1, as the code has it: [calculateDiscount] returns 0 unless the
    original price reads as a number above 0 and the current price as a
    number below it (a field that does not read as a number fails both
    tests); otherwise it returns what [Math.round] makes of
    (1 - current / original) * 100 as the doubles give it, each operation
    rounded, which is 57 and not 58 for 17 and 40. The result is an integer
    in 0..100 when the current price is not below 0, and so for every
    current price given as a string, whose sign the strip removes; and
    calculateDiscount(80, 100) is 20. *)
Theorem calculateDiscount_amended (cur orig : value) :
  (~ num_lt (Fin 0) (price_number orig)
   \/ ~ num_lt (price_number cur) (price_number orig) ->
   calculateDiscount cur orig = Fin 0)
  /\ (num_lt (Fin 0) (price_number orig) ->
      num_lt (price_number cur) (price_number orig) ->
      calculateDiscount cur orig =
        Math_round
          (num_mul
             (num_sub (Fin 1)
                (num_div (price_number cur) (price_number orig)))
             (Fin 100))
      /\ (num_nonneg (price_number cur) ->
          exists z,
            calculateDiscount cur orig = Fin (inject_Z z) /\ 0 <= z <= 100))
  /\ (forall s : jsstring, cur = VStr s ->
        exists z,
          calculateDiscount cur orig = Fin (inject_Z z) /\ 0 <= z <= 100)
  /\ calculateDiscount (VNum (Fin 80)) (VNum (Fin 100)) = Fin 20
  /\ calculateDiscount (VStr (js "$17")) (VStr (js "$40")) = Fin 57.
Proof.
  split; [apply calculateDiscount_unguarded|].
  split; [|split; [|split; vm_compute; reflexivity]].
  - intros H0 H1. split; [apply calculateDiscount_guarded; assumption|].
    intros Hc. apply calculateDiscount_range. left. exact Hc.
  - intros s ->. apply calculateDiscount_range.
    destruct (price_number_string_nonneg s) as [H|H]; [right | left]; exact H.
Qed.

Lemma calculateDiscount_amended_witness :
  calculateDiscount (VNum (Fin 80)) (VNum (Fin 100)) = Fin 20
  /\ (exists z, calculateDiscount (VNum (Fin 80)) (VNum (Fin 100))
                = Fin (inject_Z z) /\ 0 <= z <= 100)
  /\ calculateDiscount (VStr (js "$100")) (VStr (js "$80")) = Fin 0.
Proof.
  assert (H0 : num_lt (Fin 0) (price_number (VNum (Fin 100))))
    by (vm_compute; reflexivity).
  assert (H1 : num_lt (price_number (VNum (Fin 80)))
                      (price_number (VNum (Fin 100))))
    by (vm_compute; reflexivity).
  assert (Hc : num_nonneg (price_number (VNum (Fin 80))))
    by (vm_compute; discriminate).
  destruct (calculateDiscount_amended (VNum (Fin 80)) (VNum (Fin 100)))
    as (_ & H & _ & E & _).
  destruct (H H0 H1) as [_ R].
  split; [exact E|]. split; [exact (R Hc)|].
  destruct (calculateDiscount_amended (VStr (js "$100")) (VStr (js "$80")))
    as (Z0 & _).
  apply Z0. right. vm_compute. discriminate.
Defined.

(** C1 as stated fails twice. For the numbers -50 and 100 the guard
    passes and the result is 150, outside 0..100. And the result is the
    rounding of a product of doubles, not of the exact percentage: for the
    prices $17 and $40 the exact percentage is 57.5, which rounds to 58,
    and the code returns 57. *)
Lemma calculateDiscount_negative_current :
  num_lt (Fin 0) (price_number (VNum (Fin 100)))
  /\ num_lt (price_number (VNum (Fin (-50)))) (price_number (VNum (Fin 100)))
  /\ calculateDiscount (VNum (Fin (-50))) (VNum (Fin 100)) = Fin 150
  /\ calculateDiscount (VStr (js "$17")) (VStr (js "$40")) = Fin 57
  /\ exact_percent 17 40 = 58.
Proof. repeat split; vm_compute; reflexivity. Qed.

Lemma extractCurrentPrice_string (s : jsstring) :
  extractCurrentPrice (VStr s) = toFixed2 (parseFloat (strip_non_numeric s)).
Proof. reflexivity. Qed.

Lemma strip_non_numeric_chars (s : jsstring) :
  Forall (fun c => is_digit c = true \/ c = 46%N) (strip_non_numeric s).
Proof.
  unfold strip_non_numeric. apply Forall_forall. intros c Hc.
  apply filter_In in Hc. destruct Hc as [_ Hc].
  apply orb_true_iff in Hc. destruct Hc as [Hc|Hc]; [left; assumption|].
  right. apply N.eqb_eq. assumption.
Qed.

(** A string that strips to nothing parseable gives the text NaN. *)
Lemma extractCurrentPrice_not_a_number (s : jsstring) :
  parseFloat (strip_non_numeric s) = NaN ->
  extractCurrentPrice (VStr s) = js "NaN".
Proof. intros H. rewrite extractCurrentPrice_string, H. reflexivity. Qed.

(** C2, where the code departs from it: the price string N/A strips to
    the empty string, which does not parse, and [extractCurrentPrice]
    returns the text NaN, not 0.00; the 0.00 of the last line of the
    function is only reached by a value that is neither a string nor a
    number. *)
Theorem extractCurrentPrice_unparsable :
  strip_non_numeric (js "N/A") = []
  /\ parseFloat (strip_non_numeric (js "N/A")) = NaN
  /\ extractCurrentPrice (VStr (js "N/A")) = js "NaN"
  /\ extractCurrentPrice (VStr (js "N/A")) <> js "0.00"
  /\ extractCurrentPrice VUndefined = js "0.00".
Proof.
  split; [reflexivity|]. split; [reflexivity|].
  split; [reflexivity|]. split; [|reflexivity].
  vm_compute. discriminate.
Qed.

(** ** buildPriceView *)

Lemma plain_not_sale (x pr o : jsstring) (d : number) :
  plain_badge x <> sale_display pr d o.
Proof. unfold plain_badge, sale_display, nl. simpl. discriminate. Qed.

Lemma formatPriceDisplay_cases (p : product) :
  formatPriceDisplay p =
  if truthy (original_price p) && strict_neq (original_price p) (price p)
  then sale_display (ToString (price p))
         (calculateDiscount (price p) (original_price p))
         (strikeout (original_price p))
  else plain_badge (ToString (price p)).
Proof. reflexivity. Qed.

(** C3, as the code has it: [formatPriceDisplay] gives the sale display
    (current price, percent off, struck-through original) if and only if
    original_price is truthy, that is present and neither 0 nor the empty
    string, and differs from price; otherwise it gives the plain badge
    around the price field as it is. The product with price $80 and
    original_price $100 gets 20 percent off and the struck-through
    $100. *)
Theorem formatPriceDisplay_amended (p : product) :
  formatPriceDisplay p =
    (if truthy (original_price p) && strict_neq (original_price p) (price p)
     then sale_display (ToString (price p))
            (calculateDiscount (price p) (original_price p))
            (strikeout (original_price p))
     else plain_badge (ToString (price p)))
  /\ (is_sale_display (formatPriceDisplay p) <->
      truthy (original_price p) = true
      /\ strict_neq (original_price p) (price p) = true)
  /\ (forall s : jsstring, price p = VStr s -> ToString (price p) = s)
  /\ formatPriceDisplay speaker = sale_display (js "$80") (Fin 20) (js "$100").
Proof.
  split; [apply formatPriceDisplay_cases|].
  split; [|split; [intros s ->; reflexivity | vm_compute; reflexivity]].
  rewrite formatPriceDisplay_cases.
  destruct (truthy (original_price p)) eqn:T;
    destruct (strict_neq (original_price p) (price p)) eqn:D; simpl.
  - split; [tauto|]. intros _. eexists _, _, _. reflexivity.
  - split; [|intros [_ H]; discriminate H].
    intros (pr & d & o & H). exfalso. exact (plain_not_sale _ _ _ _ H).
  - split; [|intros [H _]; discriminate H].
    intros (pr & d & o & H). exfalso. exact (plain_not_sale _ _ _ _ H).
  - split; [|intros [H _]; discriminate H].
    intros (pr & d & o & H). exfalso. exact (plain_not_sale _ _ _ _ H).
Qed.

Lemma formatPriceDisplay_amended_witness :
  formatPriceDisplay (five_dollars (VStr (js "$8"))) =
    sale_display (js "$5") (Fin 38) (js "$8")
  /\ ToString (price (five_dollars VUndefined)) = js "$5".
Proof.
  destruct (formatPriceDisplay_amended (five_dollars (VStr (js "$8"))))
    as (E & _ & _ & _).
  split; [rewrite E; vm_compute; reflexivity|].
  destruct (formatPriceDisplay_amended (five_dollars VUndefined))
    as (_ & _ & V & _).
  apply (V (js "$5")). reflexivity.
Defined.

(** C3 as stated fails: an original_price of 0 is present and differs
    from the price $5, and the display is the plain badge. *)
Lemma formatPriceDisplay_zero_original :
  present (original_price (five_dollars (VNum (Fin 0))))
  /\ original_price (five_dollars (VNum (Fin 0)))
       <> price (five_dollars (VNum (Fin 0)))
  /\ formatPriceDisplay (five_dollars (VNum (Fin 0))) = plain_badge (js "$5")
  /\ ~ is_sale_display (formatPriceDisplay (five_dollars (VNum (Fin 0)))).
Proof.
  split; [split; discriminate|]. split; [discriminate|].
  split; [reflexivity|].
  intros (pr & d & o & H).
  change (formatPriceDisplay (five_dollars (VNum (Fin 0))))
    with (plain_badge (js "$5")) in H.
  exact (plain_not_sale _ _ _ _ H).
Qed.

(** ** ProductPresenter *)

Lemma concat_repeat_unit (x : N) (n : nat) :
  concat (repeat [x] n) = repeat x n.
Proof. induction n as [|n IH]; simpl; [reflexivity | rewrite IH; reflexivity]. Qed.

Lemma floor_rating_range (r : Q) :
  (0 <= r)%Q -> (r <= 5)%Q -> 0 <= Math_floor r <= 5.
Proof.
  intros H0 H5. unfold Math_floor.
  destruct (binary64_range r 5 H0 H5) as (y & -> & Y0 & Y5); [reflexivity|].
  split.
  - apply (Z.le_trans _ (Qfloor 0)); [discriminate|].
    apply Qfloor_resp_le; assumption.
  - apply (Z.le_trans _ (Qfloor 5)); [|discriminate].
    apply Qfloor_resp_le; assumption.
Qed.

(** For a rating in 0..5 the scale has floor(rating) filled glyphs and
    five glyphs in all. *)
Lemma stars_of_scale (r : Q) :
  (0 <= r)%Q -> (r <= 5)%Q ->
  let n := Z.to_nat (Math_floor r) in
  stars_of r = Ok (repeat 9733%N n ++ repeat 9734%N (5 - n))
  /\ (n <= 5)%nat
  /\ length (repeat 9733%N n ++ repeat 9734%N (5 - n)) = 5%nat.
Proof.
  intros H0 H5 n. pose proof (floor_rating_range r H0 H5) as [Hl Hu].
  assert (Hn : (n <= 5)%nat) by (subst n; lia).
  split; [|split; [assumption|]].
  - unfold stars_of, repeat_str, star_filled, star_empty.
    destruct (Math_floor r <? 0) eqn:E1; [apply Z.ltb_lt in E1; lia|].
    destruct (5 - Math_floor r <? 0) eqn:E2; [apply Z.ltb_lt in E2; lia|].
    cbn [bind]. rewrite !concat_repeat_unit.
    replace (Z.to_nat (5 - Math_floor r)) with (5 - n)%nat by (subst n; lia).
    reflexivity.
  - rewrite length_app, !repeat_length. lia.
Qed.

Lemma detail_line_not_empty (icon : string) (t : jsstring) :
  detail_line icon t <> [].
Proof. unfold detail_line. simpl. discriminate. Qed.

Lemma jsstring_eqb_nil (s : jsstring) :
  jsstring_eqb s [] = match s with [] => true | _ :: _ => false end.
Proof.
  unfold jsstring_eqb. destruct (list_eq_dec N.eq_dec s []) as [->|H].
  - reflexivity.
  - destruct s; [contradiction | reflexivity].
Qed.

Lemma description_text_cases (d : jsstring) :
  ((length d <= 100)%nat -> description_text d = d)
  /\ ((100 < length d)%nat -> description_text d = firstn 100 d ++ js "...").
Proof.
  unfold description_text, substring0. split; intros H.
  - destruct (100 <? length d)%nat eqn:E; [apply Nat.ltb_lt in E; lia|].
    rewrite app_nil_r. apply firstn_all2. assumption.
  - destruct (100 <? length d)%nat eqn:E; [reflexivity|].
    apply Nat.ltb_ge in E. lia.
Qed.

Lemma product_card_description (p : product) (c : card) :
  product_card p = Ok c ->
  exists d, description p = Some d
            /\ card_description c = description_text d.
Proof.
  unfold product_card. intros H.
  destruct (encodeURIComponent (name p)) as [q|e]; [|discriminate H].
  simpl in H. destruct (getProductDetails p) as [t|e]; [|discriminate H].
  simpl in H. destruct (description p) as [d|]; [|discriminate H].
  simpl in H. injection H as <-. exists d. split; reflexivity.
Qed.

Lemma detail_lines_not_empty (p : product) :
  Forall (fun l => l <> []) (detail_lines p).
Proof.
  unfold detail_lines, text_line.
  repeat (apply Forall_app; split);
    repeat match goal with
           | |- context [match ?x with _ => _ end] => destruct x
           end;
    repeat constructor; try apply detail_line_not_empty.
Qed.

Lemma concat_not_empty (ls : list jsstring) :
  Forall (fun l => l <> []) ls ->
  (if jsstring_eqb (concat ls) [] then no_details else concat ls) =
  match ls with
  | [] => no_details
  | _ :: _ => concat ls
  end.
Proof.
  intros H. destruct ls as [|l ls]; [reflexivity|].
  inversion H as [|? ? Hl _]; subst.
  rewrite jsstring_eqb_nil. simpl.
  destruct l; [contradiction | reflexivity].
Qed.

Lemma getProductDetails_lines (p : product) :
  (forall r, rating p = Some r -> (0 <= r)%Q /\ (r <= 5)%Q) ->
  getProductDetails p =
  Ok (match detail_lines p with
      | [] => no_details
      | _ :: _ => concat (detail_lines p)
      end).
Proof.
  intros Hr. rewrite <- (concat_not_empty _ (detail_lines_not_empty p)).
  unfold getProductDetails, detail_lines, text_line, rating_line.
  destruct (rating p) as [r|] eqn:R.
  - destruct (Hr r eq_refl) as [H0 H5].
    destruct (stars_of_scale r H0 H5) as (-> & _ & _).
    destruct (truthy_str (category p)), (truthy_str (model p)),
      (truthy_str (brand p)), (truthy_num (Some r)),
      (truthy_str (warranty p));
      cbn [bind app concat]; rewrite ?app_nil_r, <- ?app_assoc;
      reflexivity.
  - destruct (truthy_str (category p)), (truthy_str (model p)),
      (truthy_str (brand p)), (truthy_str (warranty p));
      cbn [bind app concat]; rewrite ?app_nil_r, <- ?app_assoc;
      reflexivity.
Qed.

Lemma product_card_details (p : product) (c : card) :
  product_card p = Ok c ->
  getProductDetails p = Ok (card_productDetails c).
Proof.
  unfold product_card. intros H.
  destruct (encodeURIComponent (name p)) as [q|e]; [|discriminate H].
  simpl in H. destruct (getProductDetails p) as [d|e]; [|discriminate H].
  simpl in H. destruct (description p) as [t|]; [|discriminate H].
  simpl in H. injection H as <-. reflexivity.
Qed.

(** C9, as the code has it: for a product whose rating, if any, is in
    0..5, the details are the lines of category, model, brand, rating and
    warranty in this order, each one exactly when its field is truthy
    (present, not the empty string, not a rating of 0), or a fixed notice
    when there is none; the rating line has five glyphs of which
    floor(rating) are filled; and the card, which is only built for a
    product with a description, shows the description as it is up to 100
    characters, and its first 100 characters followed by three points when
    it is longer. *)
Theorem getProductDetails_amended (p : product) :
  (forall r, rating p = Some r -> (0 <= r)%Q /\ (r <= 5)%Q) ->
  getProductDetails p =
    Ok (match detail_lines p with
        | [] => no_details
        | _ :: _ => concat (detail_lines p)
        end)
  /\ (forall r, rating p = Some r ->
        let n := Z.to_nat (Math_floor r) in
        stars_of r = Ok (repeat 9733%N n ++ repeat 9734%N (5 - n))
        /\ (n <= 5)%nat
        /\ length (repeat 9733%N n ++ repeat 9734%N (5 - n)) = 5%nat)
  /\ (forall c, product_card p = Ok c ->
        getProductDetails p = Ok (card_productDetails c)
        /\ exists d, description p = Some d
                     /\ card_description c = description_text d)
  /\ (forall d : jsstring, (length d <= 100)%nat -> description_text d = d)
  /\ (forall d : jsstring, (100 < length d)%nat ->
        description_text d = firstn 100 d ++ js "...").
Proof.
  intros Hr.
  split; [apply getProductDetails_lines; assumption|].
  split.
  { intros r R. destruct (Hr r R) as [H0 H5]. apply stars_of_scale; assumption. }
  split.
  { intros c Hc. split;
      [apply product_card_details | apply product_card_description];
      assumption. }
  split; intros d; apply description_text_cases.
Qed.

Lemma getProductDetails_amended_witness :
  getProductDetails (rated (9 # 2)) =
    Ok (detail_line "fas fa-tag me-1 text-secondary" (js "Home")
        ++ detail_line "fas fa-star me-1 text-warning"
             ([9733; 9733; 9733; 9733; 9734]%N ++ js " (4.5)"))
  /\ description_text (js "A lamp") = js "A lamp".
Proof.
  assert (H : forall r, rating (rated (9 # 2)) = Some r ->
                        (0 <= r)%Q /\ (r <= 5)%Q).
  { intros r E. injection E as <-. unfold Qle. simpl. lia. }
  destruct (getProductDetails_amended (rated (9 # 2)) H)
    as (E & _ & _ & D & _).
  split; [rewrite E; vm_compute; reflexivity|].
  apply D. simpl. lia.
Defined.

(** C9 as stated fails: a rating of 0 is present and in 0..5, and the
    details have the category line only, with no rating line. *)
Lemma getProductDetails_zero_rating :
  rating (rated 0) = Some 0%Q
  /\ getProductDetails (rated 0) =
       Ok (detail_line "fas fa-tag me-1 text-secondary" (js "Home"))
  /\ getProductDetails (rated 0) <> Ok (concat (lines_if_present (rated 0))).
Proof.
  split; [reflexivity|]. split; [vm_compute; reflexivity|].
  vm_compute. discriminate.
Qed.

(** ** The response data *)

Lemma append_cards_ok (ps : list product) (cs : list card) :
  cards_of ps = Ok cs ->
  forall w, append_cards ps w =
            (Ok tt, note_markup (existsb brings_markup ps)
                      (on_dom (fun d => set_carousel (carousel d ++ cs) d) w)).
Proof.
  revert cs. induction ps as [|p ps IH]; intros cs H w; simpl in *.
  - injection H as <-. open_world w.
    unfold note_markup, on_dom, set_carousel, set_foreign_markup. simpl.
    rewrite app_nil_r, orb_false_r. reflexivity.
  - destruct (product_card p) as [c|e]; [|discriminate H]. simpl in H.
    destruct (cards_of ps) as [cs'|e]; [|discriminate H]. simpl in H.
    injection H as <-. rewrite (IH cs' eq_refl).
    open_world w.
    unfold note_markup, on_dom, set_carousel, set_foreign_markup. simpl.
    rewrite <- app_assoc, orb_assoc. reflexivity.
Qed.

(** When no card throws, [displayProducts] replaces the carousel by the
    cards of the products, shows it and gives the buttons their
    listener. *)
Lemma displayProducts_ok (ps : list product) (cs : list card) (w : world) :
  cards_of ps = Ok cs ->
  displayProducts ps w =
  (Ok tt,
   on_dom (fun d => set_details_listening true (set_carousel_hidden false d))
     (note_markup (existsb brings_markup ps) (on_dom (set_carousel cs) w))).
Proof.
  intros H. unfold displayProducts. rewrite (append_cards_ok ps cs H).
  open_world w. reflexivity.
Qed.

(** The cards of a list of products are those built before the first
    throw, all of them when none throws. *)
Lemma cards_until_of (ps : list product) :
  match cards_of ps with
  | Ok cs => cards_until ps = (cs, None)
  | Throw e => snd (cards_until ps) = Some e
  end.
Proof.
  induction ps as [|p ps IH]; simpl; [reflexivity|].
  destruct (product_card p) as [c|e]; simpl; [|reflexivity].
  destruct (cards_of ps) as [cs|e]; simpl.
  - rewrite IH. reflexivity.
  - destruct (cards_until ps) as [cs' o]. simpl in *. exact IH.
Qed.

(** What the loop of [displayProducts] does to the page. *)
Lemma append_cards_until (ps : list product) (w : world) :
  fst (append_cards ps w) =
    match snd (cards_until ps) with
    | None => Ok tt
    | Some e => Throw e
    end
  /\ carousel (dom (snd (append_cards ps w))) =
       carousel (dom w) ++ fst (cards_until ps)
  /\ carousel_hidden (dom (snd (append_cards ps w))) = carousel_hidden (dom w)
  /\ details_listening (dom (snd (append_cards ps w)))
     = details_listening (dom w).
Proof.
  revert w. induction ps as [|p ps IH]; intros w; simpl.
  - rewrite app_nil_r. repeat split.
  - destruct (product_card p) as [c|e]; simpl.
    + match goal with |- context [append_cards ps ?v] =>
        destruct (IH v) as (F & C & H & L) end.
      destruct (cards_until ps) as [cs o]. simpl in *.
      rewrite F, C, H, L. open_world w. simpl.
      rewrite <- app_assoc. repeat split.
    + rewrite app_nil_r. repeat split.
Qed.

Lemma displayProducts_until (ps : list product) (w : world) :
  fst (displayProducts ps w) =
    match snd (cards_until ps) with
    | None => Ok tt
    | Some e => Throw e
    end
  /\ carousel (dom (snd (displayProducts ps w))) = fst (cards_until ps)
  /\ carousel_hidden (dom (snd (displayProducts ps w))) =
       match snd (cards_until ps) with
       | None => false
       | Some _ => carousel_hidden (dom w)
       end
  /\ details_listening (dom (snd (displayProducts ps w))) =
       match snd (cards_until ps) with
       | None => true
       | Some _ => false
       end.
Proof.
  unfold displayProducts.
  match goal with |- context [append_cards ps ?v] =>
    destruct (append_cards_until ps v) as (F & C & H & L);
    destruct (append_cards ps v) as [[u|e] w1] end;
  simpl in *; destruct (snd (cards_until ps)) as [e'|];
  try discriminate F.
  - open_world w1. open_world w. simpl in *. repeat split; assumption.
  - open_world w1. open_world w. simpl in *.
    injection F as ->. repeat split; assumption.
Qed.

(** ** Submitting an empty draft *)

(** The submit that follows the click on the button that removes the
    staged file finds nothing to send. *)
Lemma remove_file_click (w : world) :
  step RemoveFileClick w = removeAttachment w.
Proof. open_world w. reflexivity. Qed.

(** C10: when the text field trims to the empty string and no attachment
    is staged, a submit leaves everything as it was: the page with its
    transcript and its text field, the pending requests and reads, and the
    log of effects, so that no request goes out and no indicator is
    shown. *)
Theorem sendMessage_empty_noop (w : world) :
  currentAttachment (dom w) = None ->
  trim (userInput (dom w)) = [] ->
  step Submit w = w.
Proof.
  intros Ha Ht. simpl. unfold sendMessage. rewrite Ha, Ht. reflexivity.
Qed.

Lemma sendMessage_empty_noop_witness :
  step Submit (step (Typed (js "   ")) (initial session0)) =
  step (Typed (js "   ")) (initial session0).
Proof.
  apply sendMessage_empty_noop; reflexivity.
Defined.

(** ** Staging a file *)

(** C8, as the code has it: staging a file whose type does not start
    with image/ alerts the user at once, empties the file input and does
    nothing else: the attachment slot, both previews, the text field and
    the pending reads stay as they were. In particular a slot that was
    unset stays unset, and one that held a file still holds it. *)
Theorem handleFileUpload_rejected (w : world) (f : file) :
  startsWith (js "image/") (file_type f) = false ->
  step (FileChange (Some f)) w =
    emit (Alert only_images) (on_dom (set_fileUpload None) w)
  /\ currentAttachment (dom (step (FileChange (Some f)) w))
     = currentAttachment (dom w)
  /\ filePreview_hidden (dom (step (FileChange (Some f)) w))
     = filePreview_hidden (dom w)
  /\ imagePreview_hidden (dom (step (FileChange (Some f)) w))
     = imagePreview_hidden (dom w)
  /\ userInput (dom (step (FileChange (Some f)) w)) = userInput (dom w)
  /\ readers (step (FileChange (Some f)) w) = readers w
  /\ log (step (FileChange (Some f)) w) = log w ++ [Alert only_images].
Proof.
  intros H.
  assert (E : step (FileChange (Some f)) w =
              emit (Alert only_images) (on_dom (set_fileUpload None) w)).
  { unfold step, handleFileUpload. rewrite H. cbn [negb].
    open_world w. reflexivity. }
  rewrite E. open_world w. repeat split; reflexivity.
Qed.

Lemma handleFileUpload_rejected_witness :
  currentAttachment (dom (step (FileChange (Some notes_pdf)) (initial session0)))
  = None
  /\ log (step (FileChange (Some notes_pdf)) (initial session0))
     = [Alert only_images].
Proof.
  destruct (handleFileUpload_rejected (initial session0) notes_pdf)
    as (_ & A & _ & _ & _ & _ & L); [reflexivity|].
  split; [rewrite A; reflexivity | rewrite L; reflexivity].
Defined.

(** C8 as stated fails: with an image already staged, the rejected
    file leaves the slot set and the preview container shown. *)
Lemma handleFileUpload_rejected_keeps_staged :
  startsWith (js "image/") (file_type notes_pdf) = false
  /\ currentAttachment (dom (step (FileChange (Some notes_pdf)) staged))
     = Some cat_png
  /\ filePreview_hidden (dom (step (FileChange (Some notes_pdf)) staged))
     = false
  /\ ~ (currentAttachment (dom (step (FileChange (Some notes_pdf)) staged))
        = None).
Proof.
  split; [reflexivity|]. split; [reflexivity|]. split; [reflexivity|].
  discriminate.
Qed.

(** ** The typing indicator *)

Lemma remove_first_typing_none (l : list node) :
  existsb is_typing l = false -> remove_first_typing l = l.
Proof.
  induction l as [|n l IH]; simpl; [reflexivity|].
  destruct (is_typing n); simpl; [discriminate|].
  intros H. rewrite (IH H). reflexivity.
Qed.

Lemma count_remove_first_typing (l : list node) :
  length (filter is_typing (remove_first_typing l)) =
  pred (length (filter is_typing l)).
Proof.
  induction l as [|n l IH]; simpl; [reflexivity|].
  destruct (is_typing n) eqn:E; simpl; [reflexivity|].
  rewrite E. exact IH.
Qed.

Lemma existsb_typing_count (l : list node) :
  existsb is_typing l = negb (length (filter is_typing l) =? 0)%nat.
Proof.
  induction l as [|n l IH]; simpl; [reflexivity|].
  destruct (is_typing n); simpl; [reflexivity | exact IH].
Qed.

Lemma removeTypingIndicator_chat (w : world) :
  chat (dom (removeTypingIndicator w)) = remove_first_typing (chat (dom w)).
Proof.
  unfold removeTypingIndicator.
  destruct (existsb is_typing (chat (dom w))) eqn:E.
  - open_world w. reflexivity.
  - symmetry. apply remove_first_typing_none. assumption.
Qed.

Lemma removeTypingIndicator_log (w : world) :
  log (removeTypingIndicator w) =
  log w ++ (if existsb is_typing (chat (dom w)) then [TypingRemoved] else []).
Proof.
  unfold removeTypingIndicator.
  destruct (existsb is_typing (chat (dom w))) eqn:E.
  - open_world w. reflexivity.
  - rewrite app_nil_r. reflexivity.
Qed.

Lemma removeTypingIndicator_frame (w : world) :
  userInput (dom (removeTypingIndicator w)) = userInput (dom w)
  /\ currentAttachment (dom (removeTypingIndicator w)) = currentAttachment (dom w)
  /\ fetches (removeTypingIndicator w) = fetches w
  /\ readers (removeTypingIndicator w) = readers w
  /\ next_id (removeTypingIndicator w) = next_id w
  /\ sessionId (removeTypingIndicator w) = sessionId w.
Proof.
  unfold removeTypingIndicator.
  destruct (existsb is_typing (chat (dom w)));
    open_world w; repeat split; reflexivity.
Qed.

Lemma br_newlines_apology (c : chain) : br_newlines (apology c) = apology c.
Proof. destruct c; vm_compute; reflexivity. Qed.


(** What the [catch] of a chain does to the page. *)
Lemma on_error_effect (c : chain) (w : world) :
  chat (dom (on_error c w)) =
    remove_first_typing (chat (dom w))
      ++ [MessageNode bot (js "<p>" ++ apology c ++ js "</p>")]
  /\ log (on_error c w) =
       log w ++ [ConsoleError]
         ++ (if existsb is_typing (chat (dom w)) then [TypingRemoved] else [])
  /\ userInput (dom (on_error c w)) = userInput (dom w)
  /\ currentAttachment (dom (on_error c w)) = currentAttachment (dom w)
  /\ fetches (on_error c w) = fetches w
  /\ readers (on_error c w) = readers w
  /\ next_id (on_error c w) = next_id w
  /\ sessionId (on_error c w) = sessionId w.
Proof.
  unfold on_error, addMessageToChat. rewrite br_newlines_apology.
  set (w1 := emit ConsoleError w).
  pose proof (removeTypingIndicator_chat w1) as Hc.
  pose proof (removeTypingIndicator_log w1) as Hl.
  pose proof (removeTypingIndicator_frame w1) as (Hi & Ha & Hf & Hr & Hn & Hs).
  destruct (removeTypingIndicator w1) as [[] ? ? ? ? ?].
  simpl in *. subst.
  open_world w. simpl.
  rewrite <- app_assoc. repeat split; reflexivity.
Qed.

(** What a submit does when there is a text to send and no attachment. *)
Lemma sendMessage_plain_effect (w : world) :
  currentAttachment (dom w) = None ->
  trim (userInput (dom w)) <> [] ->
  let msg := trim (userInput (dom w)) in
  chat (dom (sendMessage w)) =
    chat (dom w)
      ++ [MessageNode user (js "<p>" ++ br_newlines msg ++ js "</p>"); TypingNode]
  /\ log (sendMessage w) =
       log w ++ [TypingShown; Fetch api_chat (JsonBody msg (sessionId w))]
  /\ fetches (sendMessage w) = fetches w ++ [(next_id w, PlainChain)]
  /\ readers (sendMessage w) = readers w
  /\ next_id (sendMessage w) = S (next_id w)
  /\ userInput (dom (sendMessage w)) = []
  /\ currentAttachment (dom (sendMessage w)) = None
  /\ sessionId (sendMessage w) = sessionId w.
Proof.
  intros Ha Ht msg. unfold sendMessage. rewrite Ha.
  fold msg. rewrite jsstring_eqb_nil.
  destruct msg as [|m0 msg'] eqn:E; [contradiction|].
  unfold fetch, showTypingIndicator, addMessageToChat.
  open_world w. simpl in *. subst.
  rewrite <- !app_assoc. repeat split; reflexivity.
Qed.

(** ** The life of a send *)

Lemma send_trace_emit (e : effect) (w : world) :
  send_trace (emit e w) = send_trace w ++ (if is_send_effect e then [e] else []).
Proof.
  unfold send_trace. destruct w as [? ? ? ? ? l]. simpl.
  rewrite filter_app. simpl. destruct (is_send_effect e); reflexivity.
Qed.

Lemma lookup_app_found {A} (id : nat) (l l' : list (nat * A)) (a : A) :
  lookup id l = Some a -> lookup id (l ++ l') = Some a.
Proof.
  induction l as [|[j b] l IH]; simpl; [discriminate|].
  destruct (id =? j)%nat; [trivial | exact IH].
Qed.

Lemma lookup_without_other {A} (id j : nat) (l : list (nat * A)) :
  id <> j -> lookup id (without j l) = lookup id l.
Proof.
  intros Hne. induction l as [|[k b] l IH]; simpl; [reflexivity|].
  destruct (j =? k)%nat eqn:Ejk.
  - apply Nat.eqb_eq in Ejk. subst k.
    destruct (id =? j)%nat eqn:E; [apply Nat.eqb_eq in E; contradiction|].
    reflexivity.
  - simpl. destruct (id =? k)%nat; [reflexivity | exact IH].
Qed.

(** A bystander leaves the transcript, the requests, the effects of
    sends and the pending reads of sends as they are. *)
Lemma bystander_frame (w : world) (e : event) :
  bystander w e = true ->
  chat (dom (step e w)) = chat (dom w)
  /\ fetches (step e w) = fetches w
  /\ send_trace (step e w) = send_trace w
  /\ sessionId (step e w) = sessionId w
  /\ (forall r t, lookup r (readers w) = Some t -> is_send_task t = true ->
        lookup r (readers (step e w)) = Some t).
Proof.
  destruct e as [text| | |f| |id|id o]; simpl; try discriminate; intros Hb.
  - open_world w. repeat split; trivial.
  - unfold handleFileUpload. destruct f as [f|].
    + destruct (negb (startsWith (js "image/") (file_type f))).
      * destruct w as [[] s fs rs n l]. unfold send_trace. simpl.
        rewrite filter_app. simpl. rewrite app_nil_r.
        repeat split; trivial.
      * destruct w as [[] s fs rs n l]. unfold send_trace. simpl.
        rewrite filter_app. simpl. rewrite app_nil_r.
        repeat split; trivial.
        intros r t H _. apply lookup_app_found. exact H.
    + open_world w. repeat split; trivial.
  - open_world w. repeat split; trivial.
  - destruct (lookup id (readers w)) as [t|] eqn:L.
    + destruct t as [f|msg f]; [|discriminate Hb].
      destruct w as [[] s fs rs n l]. simpl in *.
      repeat split; trivial.
      intros r t H Ht. rewrite lookup_without_other; [exact H|].
      intros ->. rewrite H in L. injection L as ->. discriminate Ht.
    + repeat split; trivial.
Qed.

Lemma calm_frame (es : list event) (w : world) :
  calm es w = true ->
  chat (dom (run es w)) = chat (dom w)
  /\ fetches (run es w) = fetches w
  /\ send_trace (run es w) = send_trace w
  /\ sessionId (run es w) = sessionId w
  /\ (forall r t, lookup r (readers w) = Some t -> is_send_task t = true ->
        lookup r (readers (run es w)) = Some t).
Proof.
  revert w. induction es as [|e es IH]; intros w H; simpl in *.
  - repeat split; trivial.
  - apply andb_true_iff in H. destruct H as [Hb Hc].
    destruct (bystander_frame w e Hb) as (C & F & T & S & R).
    destruct (IH (step e w) Hc) as (C' & F' & T' & S' & R').
    unfold run in *. rewrite C', F', T', S', C, F, T, S.
    repeat split; trivial.
    intros r t Hl Ht. apply R'; [|exact Ht]. apply R; assumption.
Qed.

Lemma note_markup_counts (b : bool) (w : world) :
  count_typing (note_markup b w) = count_typing w
  /\ send_trace (note_markup b w) = send_trace w
  /\ fetches (note_markup b w) = fetches w.
Proof. open_world w. repeat split. Qed.

Lemma append_cards_frame (ps : list product) (w : world) :
  chat (dom (snd (append_cards ps w))) = chat (dom w)
  /\ fetches (snd (append_cards ps w)) = fetches w
  /\ log (snd (append_cards ps w)) = log w.
Proof.
  revert w. induction ps as [|p ps IH]; intros w; simpl.
  - repeat split; reflexivity.
  - destruct (product_card p) as [c|e]; simpl.
    + match goal with |- context [append_cards ps ?v] =>
        destruct (IH v) as (C & F & L) end.
      rewrite C, F, L. open_world w. repeat split; reflexivity.
    + repeat split; reflexivity.
Qed.

Lemma displayProducts_frame (ps : list product) (w : world) :
  chat (dom (snd (displayProducts ps w))) = chat (dom w)
  /\ fetches (snd (displayProducts ps w)) = fetches w
  /\ log (snd (displayProducts ps w)) = log w.
Proof.
  unfold displayProducts.
  match goal with |- context [append_cards ps ?v] =>
    destruct (append_cards_frame ps v) as (C & F & L);
    destruct (append_cards ps v) as [[u|e] w'] end;
    simpl in *.
  - open_world w'. simpl in *. rewrite C, F, L.
    open_world w. repeat split; reflexivity.
  - rewrite C, F, L. open_world w. repeat split; reflexivity.
Qed.

(** Handling the data of a reply touches neither the transcript nor
    the requests nor the effects of sends. *)
Lemma handleResponseData_frame (d : payload) (w : world) :
  chat (dom (snd (handleResponseData d w))) = chat (dom w)
  /\ fetches (snd (handleResponseData d w)) = fetches w
  /\ send_trace (snd (handleResponseData d w)) = send_trace w.
Proof.
  unfold handleResponseData.
  destruct (products_populated d).
  - destruct (displayProducts_frame (or_nil (products d)) w) as (C & F & L).
    unfold send_trace. rewrite C, F, L. repeat split; reflexivity.
  - destruct (product_ d) as [p|].
    + destruct (displayProducts_frame [p] w) as (C & F & L).
      unfold send_trace. rewrite C, F, L. repeat split; reflexivity.
    + destruct (order d) as [o|]; simpl.
      * rewrite send_trace_emit. simpl. rewrite app_nil_r.
        open_world w. repeat split; reflexivity.
      * open_world w. repeat split; reflexivity.
Qed.

Lemma removeTypingIndicator_counts (w : world) :
  count_typing (removeTypingIndicator w) = pred (count_typing w)
  /\ send_trace (removeTypingIndicator w) =
       send_trace w ++ (if (count_typing w =? 0)%nat then [] else [TypingRemoved])
  /\ fetches (removeTypingIndicator w) = fetches w.
Proof.
  unfold count_typing, send_trace.
  rewrite removeTypingIndicator_chat, removeTypingIndicator_log.
  rewrite count_remove_first_typing, existsb_typing_count, filter_app.
  destruct (removeTypingIndicator_frame w) as (_ & _ & F & _).
  destruct (length (filter is_typing (chat (dom w))) =? 0)%nat;
    repeat split; trivial.
Qed.

Lemma addMessageToChat_counts (r : role) (m : jsstring) (w : world) :
  count_typing (addMessageToChat r m w) = count_typing w
  /\ send_trace (addMessageToChat r m w) = send_trace w
  /\ fetches (addMessageToChat r m w) = fetches w.
Proof.
  unfold count_typing, send_trace, addMessageToChat.
  open_world w. simpl.
  rewrite filter_app, length_app. simpl. repeat split; trivial. lia.
Qed.

Lemma on_error_counts (c : chain) (w : world) :
  count_typing (on_error c w) = pred (count_typing w)
  /\ send_trace (on_error c w) =
       send_trace w ++ (if (count_typing w =? 0)%nat then [] else [TypingRemoved])
  /\ fetches (on_error c w) = fetches w.
Proof.
  unfold on_error.
  destruct (addMessageToChat_counts bot (apology c)
              (removeTypingIndicator (emit ConsoleError w))) as (C & T & F).
  destruct (removeTypingIndicator_counts (emit ConsoleError w)) as (C' & T' & F').
  rewrite C, T, F, C', T', F'.
  rewrite send_trace_emit. simpl. rewrite app_nil_r.
  assert (E : count_typing (emit ConsoleError w) = count_typing w)
    by (open_world w; reflexivity).
  rewrite E. open_world w. repeat split; reflexivity.
Qed.

(** Whatever the settlement, a chain that finds one indicator removes
    it, once, and leaves none. *)
Lemma settle_counts (c : chain) (o : outcome) (w : world) :
  count_typing w = 1%nat ->
  count_typing (settle c o w) = 0%nat
  /\ send_trace (settle c o w) = send_trace w ++ [TypingRemoved]
  /\ fetches (settle c o w) = fetches w.
Proof.
  intros H1.
  assert (Herr : count_typing (on_error c w) = 0%nat
                 /\ send_trace (on_error c w) = send_trace w ++ [TypingRemoved]
                 /\ fetches (on_error c w) = fetches w).
  { destruct (on_error_counts c w) as (C & T & F). rewrite C, T, F, H1.
    repeat split; reflexivity. }
  destruct o as [|[|] [r|]]; simpl; try exact Herr.
  unfold on_reply.
  destruct (removeTypingIndicator_counts w) as (C1 & T1 & F1).
  rewrite H1 in C1, T1. simpl in C1, T1.
  set (w1 := removeTypingIndicator w) in *.
  assert (Hthrow : forall w2, count_typing w2 = 0%nat ->
            send_trace w2 = send_trace w ++ [TypingRemoved] ->
            fetches w2 = fetches w ->
            count_typing (on_error c w2) = 0%nat
            /\ send_trace (on_error c w2) = send_trace w ++ [TypingRemoved]
            /\ fetches (on_error c w2) = fetches w).
  { intros w2 C2 T2 F2. destruct (on_error_counts c w2) as (C & T & F).
    rewrite C, T, F, C2, T2, F2. simpl. rewrite app_nil_r.
    repeat split; reflexivity. }
  destruct (shown_text c r) as [text|e].
  - destruct (addMessageToChat_counts bot text w1) as (C2 & T2 & F2).
    rewrite C1 in C2. rewrite T1 in T2. rewrite F1 in F2.
    destruct (note_markup_counts (opens_tag (or_empty (message r)))
                (addMessageToChat bot text w1)) as (C2' & T2' & F2').
    rewrite C2 in C2'. rewrite T2 in T2'. rewrite F2 in F2'.
    clear C2 T2 F2. rename C2' into C2, T2' into T2, F2' into F2.
    set (w2 := note_markup _ (addMessageToChat bot text w1)) in *.
    destruct (data r) as [d|].
    + destruct (handleResponseData_frame d w2) as (C3 & F3 & T3).
      assert (C3' : count_typing (snd (handleResponseData d w2)) = 0%nat)
        by (unfold count_typing in *; rewrite C3; exact C2).
      rewrite T2 in T3. rewrite F2 in F3.
      destruct (handleResponseData d w2) as [[u|e] w3]; simpl in *.
      * repeat split; assumption.
      * apply Hthrow; assumption.
    + repeat split; assumption.
  - apply Hthrow; assumption.
Qed.

Lemma lookup_fresh {A} (n : nat) (l : list (nat * A)) :
  Forall (fun x => (fst x < n)%nat) l -> lookup n l = None.
Proof.
  induction l as [|[j a] l IH]; simpl; [reflexivity|].
  intros H. inversion H as [|? ? Hj Hl]; subst. simpl in Hj.
  destruct (n =? j)%nat eqn:E; [apply Nat.eqb_eq in E; lia|].
  apply IH. assumption.
Qed.

Lemma lookup_app_new {A} (n : nat) (l : list (nat * A)) (a : A) :
  lookup n l = None -> lookup n (l ++ [(n, a)]) = Some a.
Proof.
  induction l as [|[j b] l IH]; simpl.
  - rewrite Nat.eqb_refl. reflexivity.
  - destruct (n =? j)%nat; [discriminate | exact IH].
Qed.

(** What a submit does when an attachment is staged: it starts the read
    of the file and clears the draft; no request goes out yet. *)
Lemma sendMessage_attachment_effect (w : world) (f : file) :
  currentAttachment (dom w) = Some f ->
  chat (dom (sendMessage w)) = chat (dom w)
  /\ fetches (sendMessage w) = fetches w
  /\ send_trace (sendMessage w) = send_trace w
  /\ sessionId (sendMessage w) = sessionId w
  /\ readers (sendMessage w) =
       readers w ++ [(next_id w, SendRead (attachment_text w) f)]
  /\ currentAttachment (dom (sendMessage w)) = None
  /\ userInput (dom (sendMessage w)) = [].
Proof.
  intros Ha. unfold sendMessage, sendMessageWithAttachment, attachment_text.
  rewrite Ha. unfold send_trace.
  destruct w as [[] s fs rs n l]. simpl in *.
  rewrite filter_app. simpl. rewrite app_nil_r. repeat split; reflexivity.
Qed.

(** What the completed read of a send does: the user's message with its
    image, the indicator, then the request. *)
Lemma reader_load_send (w : world) (r : nat) (msg : jsstring) (f : file) :
  lookup r (readers w) = Some (SendRead msg f) ->
  chat (dom (step (ReaderLoad r) w)) =
    chat (dom w)
      ++ [ImageMessageNode (js "<p>" ++ msg ++ js "</p>") (file_dataURL f);
          TypingNode]
  /\ fetches (step (ReaderLoad r) w) = fetches w ++ [(next_id w, FileChain)]
  /\ send_trace (step (ReaderLoad r) w) =
       send_trace w
         ++ [TypingShown;
             Fetch api_chat_with_file
               (FormBody msg (sessionId w) (currentAttachment (dom w)))].
Proof.
  intros H. simpl. rewrite H. unfold send_trace.
  destruct w as [[] s fs rs n l]. simpl.
  rewrite <- !app_assoc. rewrite !filter_app. simpl.
  repeat split; reflexivity.
Qed.

Lemma count_typing_app (w : world) (l : list node) (n : node) :
  chat (dom w) = l ++ [n; TypingNode] -> is_typing n = false ->
  length (filter is_typing l) = 0%nat -> count_typing w = 1%nat.
Proof.
  intros H Hn Hl. unfold count_typing. rewrite H, filter_app, length_app.
  simpl. rewrite Hn. simpl. lia.
Qed.

Lemma step_settle_single (w : world) (id : nat) (c : chain) (o : outcome) :
  fetches w = [(id, c)] -> count_typing w = 1%nat ->
  count_typing (step (Settle id o) w) = 0%nat
  /\ send_trace (step (Settle id o) w) = send_trace w ++ [TypingRemoved]
  /\ fetches (step (Settle id o) w) = [].
Proof.
  intros Hf Hc. simpl. rewrite Hf. simpl. rewrite Nat.eqb_refl.
  destruct (settle_counts c o (set_fetches [] w)) as (C & T & F).
  { open_world w. exact Hc. }
  rewrite C, T, F. open_world w. repeat split; reflexivity.
Qed.

(** C5, as the code has it. Take a submit that starts a send while no
    indicator is shown and no request is in flight, in a page that holds
    no foreign markup up to the settlement, and let only bystanders happen
    until the send is settled: the user may edit the draft or the file
    input or remove the staged file, previews may load, but there is no
    other submit, no click on New Chat, and the file of no other send
    finishes being read. Then, on the plain path, the effects of the send
    are exactly: indicator shown, one request to /api/chat with the
    trimmed text and the session id, and at the settlement, whatever it
    is, one indicator removed; in between the request is the only one in
    flight and one indicator is in the transcript, and afterwards there is
    none. On the attachment path nothing goes out until the file has been
    read; from then on the same holds with one request to
    /api/chat-with-file. *)
Theorem typing_indicator_lifecycle (w : world) (o : outcome) :
  count_typing w = 0%nat -> fetches w = [] -> fresh_ids w ->
  (currentAttachment (dom w) = None -> trim (userInput (dom w)) <> [] ->
   forall es, calm es (step Submit w) = true ->
   let w2 := run es (step Submit w) in
   let w3 := step (Settle (next_id w) o) w2 in
   foreign_markup (dom w3) = false ->
   send_trace w2 =
     send_trace w
       ++ [TypingShown;
           Fetch api_chat (JsonBody (trim (userInput (dom w))) (sessionId w))]
   /\ fetches w2 = [(next_id w, PlainChain)]
   /\ count_typing w2 = 1%nat
   /\ send_trace w3 = send_trace w2 ++ [TypingRemoved]
   /\ fetches w3 = []
   /\ count_typing w3 = 0%nat)
  /\
  (forall f, currentAttachment (dom w) = Some f ->
   forall es1, calm es1 (step Submit w) = true ->
   let w2 := run es1 (step Submit w) in
   let w3 := step (ReaderLoad (next_id w)) w2 in
   forall es2, calm es2 w3 = true ->
   let w4 := run es2 w3 in
   let w5 := step (Settle (next_id w2) o) w4 in
   foreign_markup (dom w5) = false ->
   send_trace w2 = send_trace w
   /\ fetches w2 = []
   /\ count_typing w2 = 0%nat
   /\ send_trace w4 =
        send_trace w
          ++ [TypingShown;
              Fetch api_chat_with_file
                (FormBody (attachment_text w) (sessionId w)
                          (currentAttachment (dom w2)))]
   /\ fetches w4 = [(next_id w2, FileChain)]
   /\ count_typing w4 = 1%nat
   /\ send_trace w5 = send_trace w4 ++ [TypingRemoved]
   /\ fetches w5 = []
   /\ count_typing w5 = 0%nat).
Proof.
  intros Hq Hf Hfresh. split.
  - intros Ha Ht es Hcalm w2 w3 _.
    change (step Submit w) with (sendMessage w) in *.
    destruct (sendMessage_plain_effect w Ha Ht) as (C1 & L1 & F1 & _).
    destruct (calm_frame es (sendMessage w) Hcalm) as (C2 & F2 & T2 & _).
    fold w2 in C2, F2, T2.
    assert (T1 : send_trace (sendMessage w) =
                 send_trace w
                   ++ [TypingShown;
                       Fetch api_chat
                         (JsonBody (trim (userInput (dom w))) (sessionId w))]).
    { unfold send_trace. rewrite L1, filter_app. reflexivity. }
    assert (Hc2 : count_typing w2 = 1%nat).
    { eapply count_typing_app; [rewrite C2; exact C1 | reflexivity | exact Hq]. }
    assert (Hf2 : fetches w2 = [(next_id w, PlainChain)])
      by (rewrite F2, F1, Hf; reflexivity).
    destruct (step_settle_single w2 (next_id w) PlainChain o Hf2 Hc2)
      as (C3 & T3 & F3).
    fold w3 in C3, T3, F3.
    repeat split; try assumption. rewrite T2. exact T1.
  - intros f Ha es1 Hcalm1 w2 w3 es2 Hcalm2 w4 w5 _.
    change (step Submit w) with (sendMessage w) in *.
    destruct (sendMessage_attachment_effect w f Ha)
      as (C1 & F1 & T1 & S1 & R1 & _).
    destruct (calm_frame es1 (sendMessage w) Hcalm1)
      as (C2 & F2 & T2 & S2 & R2).
    fold w2 in C2, F2, T2, S2, R2.
    assert (Hr : lookup (next_id w) (readers w2) =
                 Some (SendRead (attachment_text w) f)).
    { apply R2; [|reflexivity]. rewrite R1. apply lookup_app_new.
      apply lookup_fresh. exact Hfresh. }
    destruct (reader_load_send w2 (next_id w) _ f Hr) as (C3 & F3 & T3).
    fold w3 in C3, F3, T3.
    destruct (calm_frame es2 w3 Hcalm2) as (C4 & F4 & T4 & _).
    fold w4 in C4, F4, T4.
    assert (Hc2 : count_typing w2 = 0%nat)
      by (unfold count_typing in *; rewrite C2, C1; exact Hq).
    assert (Hf2 : fetches w2 = []) by (rewrite F2, F1; exact Hf).
    assert (Hc4 : count_typing w4 = 1%nat).
    { eapply count_typing_app; [rewrite C4; exact C3 | reflexivity | exact Hc2]. }
    assert (Hf4 : fetches w4 = [(next_id w2, FileChain)])
      by (rewrite F4, F3, Hf2; reflexivity).
    destruct (step_settle_single w4 (next_id w2) FileChain o Hf4 Hc4)
      as (C5 & T5 & F5).
    fold w5 in C5, T5, F5.
    assert (T4' : send_trace w4 =
                  send_trace w
                    ++ [TypingShown;
                        Fetch api_chat_with_file
                          (FormBody (attachment_text w) (sessionId w)
                                    (currentAttachment (dom w2)))]).
    { rewrite T4, T3, T2, T1, S2, S1. reflexivity. }
    repeat split; try assumption. rewrite T2. exact T1.
Qed.

Lemma typing_indicator_lifecycle_witness :
  send_trace (run [Typed hi; Submit; Typed (js "more"); Settle 0 ok_reply]
                  (initial session0)) =
    [TypingShown; Fetch api_chat (JsonBody hi session0); TypingRemoved]
  /\ send_trace (run [FileChange (Some cat_png); Submit; ReaderLoad 0;
                      ReaderLoad 1; Typed (js "more"); Settle 2 Rejected]
                     (initial session0)) =
       [TypingShown;
        Fetch api_chat_with_file
          (FormBody (js "I'm sending an image of cat.") session0 None);
        TypingRemoved].
Proof.
  split.
  - assert (F : fresh_ids (step (Typed hi) (initial session0)))
      by (unfold fresh_ids; constructor).
    pose proof (typing_indicator_lifecycle
                  (step (Typed hi) (initial session0)) ok_reply
                  eq_refl eq_refl F) as [P _].
    assert (Ht : trim (userInput (dom (step (Typed hi) (initial session0))))
                 <> []) by (vm_compute; discriminate).
    assert (Hc : calm [Typed (js "more")]
                   (step Submit (step (Typed hi) (initial session0))) = true)
      by reflexivity.
    assert (Hm : foreign_markup
                   (dom (step (Settle (next_id (step (Typed hi) (initial session0)))
                                      ok_reply)
                           (run [Typed (js "more")]
                              (step Submit (step (Typed hi) (initial session0))))))
                 = false) by (vm_compute; reflexivity).
    pose proof (P eq_refl Ht [Typed (js "more")] Hc Hm)
      as (T2 & _ & _ & T3 & _).
    assert (E : run [Typed hi; Submit; Typed (js "more"); Settle 0 ok_reply]
                    (initial session0) =
                step (Settle (next_id (step (Typed hi) (initial session0)))
                             ok_reply)
                  (run [Typed (js "more")]
                     (step Submit (step (Typed hi) (initial session0)))))
      by (vm_compute; reflexivity).
    rewrite E, T3, T2. vm_compute. reflexivity.
  - assert (F : fresh_ids staged) by (unfold fresh_ids; repeat constructor).
    pose proof (typing_indicator_lifecycle staged Rejected eq_refl eq_refl F)
      as [_ A].
    assert (H1 : calm [ReaderLoad 0] (step Submit staged) = true)
      by reflexivity.
    assert (H2 : calm [Typed (js "more")]
                   (step (ReaderLoad (next_id staged))
                      (run [ReaderLoad 0] (step Submit staged))) = true)
      by reflexivity.
    assert (Hm : foreign_markup
                   (dom (step (Settle (next_id (run [ReaderLoad 0]
                                                  (step Submit staged)))
                                      Rejected)
                           (run [Typed (js "more")]
                              (step (ReaderLoad (next_id staged))
                                 (run [ReaderLoad 0] (step Submit staged))))))
                 = false) by (vm_compute; reflexivity).
    pose proof (A cat_png eq_refl [ReaderLoad 0] H1 [Typed (js "more")] H2 Hm)
      as (_ & _ & _ & T4 & _ & _ & T5 & _).
    assert (E : run [FileChange (Some cat_png); Submit; ReaderLoad 0;
                     ReaderLoad 1; Typed (js "more"); Settle 2 Rejected]
                    (initial session0) =
                step (Settle (next_id (run [ReaderLoad 0] (step Submit staged)))
                             Rejected)
                  (run [Typed (js "more")]
                     (step (ReaderLoad (next_id staged))
                        (run [ReaderLoad 0] (step Submit staged)))))
      by (vm_compute; reflexivity).
    rewrite E, T5, T4. vm_compute. reflexivity.
Defined.

(** C5 as stated fails: a click on New Chat while the request is in
    flight takes the indicator away, so that the request stays in flight
    with no indicator, and its settlement removes none. *)
Lemma clear_chat_while_in_flight :
  fetches sending = [(0%nat, PlainChain)]
  /\ count_typing sending = 1%nat
  /\ fetches cleared = [(0%nat, PlainChain)]
  /\ count_typing cleared = 0%nat
  /\ fetches cleared_settled = []
  /\ send_trace cleared_settled =
       [TypingShown; Fetch api_chat (JsonBody hi session0)]
  /\ ~ In TypingRemoved (log cleared_settled).
Proof.
  split; [vm_compute; reflexivity|]. split; [vm_compute; reflexivity|].
  split; [vm_compute; reflexivity|]. split; [vm_compute; reflexivity|].
  split; [vm_compute; reflexivity|]. split; [vm_compute; reflexivity|].
  vm_compute. intros H.
  repeat (destruct H as [H|H]; [discriminate H|]). exact H.
Qed.

(** ** ResponseLinkifier *)

Lemma firstn_length_firstn {A} (k : nat) (l : list A) :
  firstn (length (firstn k l)) l = firstn k l.
Proof.
  rewrite length_firstn. destruct (Nat.le_ge_cases k (length l)) as [H|H].
  - rewrite Nat.min_l by assumption. reflexivity.
  - rewrite Nat.min_r by assumption.
    rewrite firstn_all, firstn_all2 by assumption. reflexivity.
Qed.

(** A [replace] whose callback gives every match back returns its
    input. *)
Lemma replace_from_unchanged (r : regex)
    (f : jsstring -> captures -> result jsstring) (s : jsstring) :
  forall prev skip,
    (forall m cs, In (m, cs) (scan r prev skip s) -> f m cs = Ok m) ->
    replace_from r f prev skip s = Ok (skipn skip s).
Proof.
  induction s as [|c s IH]; intros prev skip H.
  - destruct skip as [|n]; simpl in *; [|reflexivity].
    destruct (match_at r prev []) as [[cs rest]|]; [|reflexivity].
    simpl in *. rewrite (H [] cs) by (left; reflexivity). reflexivity.
  - destruct skip as [|n].
    + cbn [replace_from scan] in *.
      destruct (match_at r prev (c :: s)) as [[cs rest]|].
      * set (k := (length (c :: s) - length rest)%nat) in *.
        rewrite (H (firstn k (c :: s)) cs) by (left; reflexivity).
        cbn [bind].
        destruct k as [|k'].
        -- cbn [firstn] in *. rewrite IH.
           ++ reflexivity.
           ++ intros m cs' Hin. apply H. right. exact Hin.
        -- cbn [firstn] in *. rewrite IH.
           ++ cbn [bind skipn app]. rewrite <- firstn_length_firstn at 1.
              rewrite firstn_skipn. reflexivity.
           ++ intros m cs' Hin. apply H. right. exact Hin.
      * rewrite IH; [reflexivity|]. intros m cs' Hin. apply H. exact Hin.
    + cbn [replace_from scan skipn] in *. apply IH. exact H.
Qed.

Lemma pass_quoted_unchanged (m : jsstring) :
  no_keyword_span m = true -> pass_quoted m = Ok m.
Proof.
  intros H. unfold pass_quoted, replace_all.
  rewrite replace_from_unchanged; [reflexivity|].
  intros mt cs Hin. unfold link_quoted.
  unfold no_keyword_span, quoted_spans in H.
  rewrite forallb_forall in H.
  assert (K : negb (regex_test re_keywords (or_empty (cap 2 cs))) = true).
  { apply H. apply in_map_iff. exists (mt, cs). split; [reflexivity | exact Hin]. }
  apply negb_true_iff in K. rewrite K. reflexivity.
Qed.

(** ** Ids of pending reads *)

Lemma append_cards_ids (ps : list product) (w : world) :
  readers (snd (append_cards ps w)) = readers w
  /\ next_id (snd (append_cards ps w)) = next_id w.
Proof.
  revert w. induction ps as [|p ps IH]; intros w; simpl.
  - split; reflexivity.
  - destruct (product_card p) as [c|e]; simpl; [|split; reflexivity].
    match goal with |- context [append_cards ps ?v] =>
      destruct (IH v) as (R & N) end.
    rewrite R, N. open_world w. split; reflexivity.
Qed.

Lemma handleResponseData_ids (d : payload) (w : world) :
  readers (snd (handleResponseData d w)) = readers w
  /\ next_id (snd (handleResponseData d w)) = next_id w.
Proof.
  assert (D : forall ps, readers (snd (displayProducts ps w)) = readers w
                         /\ next_id (snd (displayProducts ps w)) = next_id w).
  { intros ps. unfold displayProducts.
    match goal with |- context [append_cards ps ?v] =>
      destruct (append_cards_ids ps v) as (R & N);
      destruct (append_cards ps v) as [[u|e] w'] end;
      simpl in *.
    - open_world w'. simpl in *. rewrite R, N.
      open_world w. split; reflexivity.
    - rewrite R, N. open_world w. split; reflexivity. }
  unfold handleResponseData.
  destruct (products_populated d); [apply D|].
  destruct (product_ d) as [p|]; [apply D|].
  destruct (order d) as [o|]; open_world w; split; reflexivity.
Qed.

Lemma settle_ids (c : chain) (o : outcome) (w : world) :
  readers (settle c o w) = readers w /\ next_id (settle c o w) = next_id w.
Proof.
  assert (E : forall w0, readers (on_error c w0) = readers w0
                         /\ next_id (on_error c w0) = next_id w0).
  { intros w0. destruct (on_error_effect c w0) as (_ & _ & _ & _ & _ & R & N & _).
    split; assumption. }
  destruct o as [|[|] [r|]]; simpl; try apply E.
  unfold on_reply.
  destruct (removeTypingIndicator_frame w) as (_ & _ & _ & R1 & N1 & _).
  set (w1 := removeTypingIndicator w) in *.
  destruct (shown_text c r) as [text|e].
  - assert (A : forall b,
                readers (note_markup b (addMessageToChat bot text w1)) = readers w
                /\ next_id (note_markup b (addMessageToChat bot text w1))
                   = next_id w).
    { intros b. rewrite <- R1, <- N1. open_world w1. split; reflexivity. }
    destruct (A (opens_tag (or_empty (message r)))) as [R2 N2].
    set (w2 := note_markup _ (addMessageToChat bot text w1)) in *.
    destruct (data r) as [d|]; [|split; assumption].
    destruct (handleResponseData_ids d w2) as (R3 & N3).
    destruct (handleResponseData d w2) as [[u|e] w3]; simpl in *.
    + rewrite R3, N3. split; assumption.
    + destruct (E w3) as [R4 N4]. rewrite R4, N4, R3, N3. split; assumption.
  - destruct (E w1) as [R4 N4]. rewrite R4, N4. split; assumption.
Qed.

Lemma Forall_without {A} (P : nat * A -> Prop) (id : nat) (l : list (nat * A)) :
  Forall P l -> Forall P (without id l).
Proof.
  induction l as [|[j a] l IH]; simpl; intros H; [constructor|].
  inversion H; subst. destruct (id =? j)%nat; [assumption|].
  constructor; [assumption | apply IH; assumption].
Qed.

Lemma Forall_fresh_snoc (n : nat) (t : read_task) (l : list (nat * read_task)) :
  Forall (fun x => (fst x < n)%nat) l ->
  Forall (fun x => (fst x < S n)%nat) (l ++ [(n, t)]).
Proof.
  intros H. apply Forall_app. split.
  - eapply Forall_impl; [|exact H]. simpl. intros x Hx. lia.
  - constructor; [simpl; lia | constructor].
Qed.

(** The page starts with fresh ids and every event keeps them so. *)
Lemma fresh_ids_reachable (es : list event) (session : jsstring) :
  fresh_ids (run es (initial session)).
Proof.
  assert (S1 : forall e w, fresh_ids w -> fresh_ids (step e w)).
  { intros e w H. unfold fresh_ids in *.
    destruct e as [text| | |f| |id|id o]; simpl.
    - open_world w. exact H.
    - unfold sendMessage, sendMessageWithAttachment.
      destruct (currentAttachment (dom w)) as [f|] eqn:Ha.
      + destruct w as [[] s fs rs n l]. simpl in *.
        apply Forall_fresh_snoc. exact H.
      + destruct (jsstring_eqb (trim (userInput (dom w))) []); [exact H|].
        destruct w as [[] s fs rs n l]. simpl in *.
        eapply Forall_impl; [|exact H]. simpl. intros x Hx. lia.
    - open_world w. exact H.
    - unfold handleFileUpload. destruct f as [f|].
      + destruct (negb (startsWith (js "image/") (file_type f)));
          destruct w as [[] s fs rs n l]; simpl in *; [exact H|].
        apply Forall_fresh_snoc. exact H.
      + open_world w. exact H.
    - open_world w. exact H.
    - destruct (lookup id (readers w)) as [t|]; [|exact H].
      pose proof (Forall_without _ id _ H) as H'.
      destruct t as [f|msg f]; destruct w as [[] s fs rs n l]; simpl in *.
      + exact H'.
      + eapply Forall_impl; [|exact H']. simpl. intros x Hx. lia.
    - destruct (lookup id (fetches w)) as [c|]; [|exact H].
      destruct (settle_ids c o (set_fetches (without id (fetches w)) w))
        as (R & N).
      rewrite R, N. open_world w. exact H. }
  unfold run. rewrite <- fold_left_rev_right.
  induction (rev es) as [|e l IH]; simpl.
  - constructor.
  - apply S1. exact IH.
Qed.

(** * Further properties *)

(** ** What a settlement does to the transcript and the log *)

Lemma remove_first_typing_snoc (l : list node) (n : node) :
  is_typing n = false ->
  remove_first_typing (l ++ [n]) = remove_first_typing l ++ [n].
Proof.
  intros Hn. induction l as [|m l IH]; simpl.
  - rewrite Hn. reflexivity.
  - destruct (is_typing m); [reflexivity | rewrite IH; reflexivity].
Qed.

Lemma remove_first_typing_app_messages (l ms : list node) :
  Forall (fun n => is_typing n = false) ms ->
  remove_first_typing (l ++ ms) = remove_first_typing l ++ ms.
Proof.
  intros H. revert l. induction H as [|n ms Hn _ IH]; intros l.
  - rewrite !app_nil_r. reflexivity.
  - change (l ++ n :: ms) with (l ++ [n] ++ ms).
    rewrite app_assoc, IH, remove_first_typing_snoc by assumption.
    rewrite <- app_assoc. reflexivity.
Qed.

Lemma noted_message_chat (b : bool) (r : role) (m : jsstring) (w : world) :
  chat (dom (note_markup b (addMessageToChat r m w))) =
  chat (dom w) ++ [MessageNode r (js "<p>" ++ br_newlines m ++ js "</p>")].
Proof. open_world w. reflexivity. Qed.

Lemma noted_message_rest (b : bool) (r : role) (m : jsstring) (w : world) :
  log (note_markup b (addMessageToChat r m w)) = log w
  /\ userInput (dom (note_markup b (addMessageToChat r m w))) = userInput (dom w)
  /\ currentAttachment (dom (note_markup b (addMessageToChat r m w)))
     = currentAttachment (dom w)
  /\ fetches (note_markup b (addMessageToChat r m w)) = fetches w
  /\ sessionId (note_markup b (addMessageToChat r m w)) = sessionId w.
Proof. open_world w. repeat split; reflexivity. Qed.

(** Handling the data of a reply only adds order logs to the log and
    leaves the draft, the slot and the session id alone. *)
Lemma handleResponseData_rest (d : payload) (w : world) :
  (exists l, log (snd (handleResponseData d w)) = log w ++ l
             /\ Forall (fun e => is_send_effect e = false) l)
  /\ userInput (dom (snd (handleResponseData d w))) = userInput (dom w)
  /\ currentAttachment (dom (snd (handleResponseData d w)))
     = currentAttachment (dom w)
  /\ sessionId (snd (handleResponseData d w)) = sessionId w.
Proof.
  assert (A : forall ps w0,
            log (snd (append_cards ps w0)) = log w0
            /\ userInput (dom (snd (append_cards ps w0))) = userInput (dom w0)
            /\ currentAttachment (dom (snd (append_cards ps w0)))
               = currentAttachment (dom w0)
            /\ sessionId (snd (append_cards ps w0)) = sessionId w0).
  { induction ps as [|p ps IH]; intros w0; simpl.
    - repeat split; reflexivity.
    - destruct (product_card p) as [c|e]; simpl; [|repeat split; reflexivity].
      match goal with |- context [append_cards ps ?v] =>
        destruct (IH v) as (L & U & C & S) end.
      rewrite L, U, C, S. open_world w0. repeat split; reflexivity. }
  assert (D : forall ps,
            log (snd (displayProducts ps w)) = log w
            /\ userInput (dom (snd (displayProducts ps w))) = userInput (dom w)
            /\ currentAttachment (dom (snd (displayProducts ps w)))
               = currentAttachment (dom w)
            /\ sessionId (snd (displayProducts ps w)) = sessionId w).
  { intros ps. unfold displayProducts.
    match goal with |- context [append_cards ps ?v] =>
      destruct (A ps v) as (L & U & C & S);
      destruct (append_cards ps v) as [[u|e] w'] end;
      simpl in *.
    - open_world w'. simpl in *. rewrite L, U, C, S.
      open_world w. repeat split; reflexivity.
    - rewrite L, U, C, S. open_world w. repeat split; reflexivity. }
  assert (N : forall ps,
            (exists l, log (snd (displayProducts ps w)) = log w ++ l
                       /\ Forall (fun e => is_send_effect e = false) l)
            /\ userInput (dom (snd (displayProducts ps w))) = userInput (dom w)
            /\ currentAttachment (dom (snd (displayProducts ps w)))
               = currentAttachment (dom w)
            /\ sessionId (snd (displayProducts ps w)) = sessionId w).
  { intros ps. destruct (D ps) as (L & U & C & S).
    split; [|repeat split; assumption].
    exists []. rewrite app_nil_r. split; [assumption | constructor]. }
  unfold handleResponseData.
  destruct (products_populated d); [apply N|].
  destruct (product_ d) as [p|]; [apply N|].
  destruct (order d) as [o|]; simpl.
  - split; [|open_world w; repeat split; reflexivity].
    exists [ConsoleLog o]. split; [open_world w; reflexivity|].
    repeat constructor.
  - split; [|open_world w; repeat split; reflexivity].
    exists []. rewrite app_nil_r. split; [open_world w; reflexivity | constructor].
Qed.

Lemma send_effect_aftermath (l : list effect) :
  Forall (fun e => is_send_effect e = false) l -> Forall is_aftermath l.
Proof.
  intros H. eapply Forall_impl; [|exact H]. intros e He.
  unfold is_send_effect in He. unfold is_aftermath.
  destruct (is_fetch e), (is_shown e); simpl in He;
    try discriminate; split; reflexivity.
Qed.

Lemma removal_aftermath (b : bool) :
  Forall is_aftermath (if b then [TypingRemoved] else []).
Proof. destruct b; repeat constructor. Qed.

Lemma on_error_shape (c : chain) (w : world) :
  exists l,
    chat (dom (on_error c w)) =
      remove_first_typing (chat (dom w))
        ++ [MessageNode bot (js "<p>" ++ apology c ++ js "</p>")]
    /\ log (on_error c w) = log w ++ l
    /\ Forall is_aftermath l.
Proof.
  destruct (on_error_effect c w) as (C & L & _).
  eexists. split; [exact C|]. split; [exact L|].
  apply Forall_app. split; [repeat constructor | apply removal_aftermath].
Qed.

(** The shape of every settlement: one or two removals of a first
    indicator, then one or two bot messages at the end of the transcript;
    in the log, no request and no new indicator; the draft, the slot, the
    pending requests and the session id untouched. *)
Lemma settle_shape (c : chain) (o : outcome) (w : world) :
  exists k ms l,
    (k = 1 \/ k = 2)%nat
    /\ ms <> []
    /\ Forall (fun n => is_bot_message n = true) ms
    /\ chat (dom (settle c o w)) =
         Nat.iter k remove_first_typing (chat (dom w)) ++ ms
    /\ log (settle c o w) = log w ++ l
    /\ Forall is_aftermath l
    /\ userInput (dom (settle c o w)) = userInput (dom w)
    /\ currentAttachment (dom (settle c o w)) = currentAttachment (dom w)
    /\ fetches (settle c o w) = fetches w
    /\ sessionId (settle c o w) = sessionId w.
Proof.
  assert (E : forall w0 k0 ms0 l0,
            chat (dom w0) = Nat.iter k0 remove_first_typing (chat (dom w)) ++ ms0 ->
            Forall (fun n => is_bot_message n = true) ms0 ->
            log w0 = log w ++ l0 -> Forall is_aftermath l0 ->
            userInput (dom w0) = userInput (dom w) ->
            currentAttachment (dom w0) = currentAttachment (dom w) ->
            fetches w0 = fetches w -> sessionId w0 = sessionId w ->
            exists ms l,
              ms <> []
              /\ Forall (fun n => is_bot_message n = true) ms
              /\ chat (dom (on_error c w0)) =
                   Nat.iter (S k0) remove_first_typing (chat (dom w)) ++ ms
              /\ log (on_error c w0) = log w ++ l
              /\ Forall is_aftermath l
              /\ userInput (dom (on_error c w0)) = userInput (dom w)
              /\ currentAttachment (dom (on_error c w0)) = currentAttachment (dom w)
              /\ fetches (on_error c w0) = fetches w
              /\ sessionId (on_error c w0) = sessionId w).
  { intros w0 k0 ms0 l0 C0 B0 L0 A0 U0 T0 F0 S0.
    destruct (on_error_shape c w0) as (l1 & C1 & L1 & A1).
    destruct (on_error_effect c w0) as (_ & _ & U1 & T1 & F1 & _ & _ & S1).
    exists (ms0 ++ [MessageNode bot (js "<p>" ++ apology c ++ js "</p>")]),
           (l0 ++ l1).
    split; [intros H; apply app_eq_nil in H; destruct H; discriminate|].
    split; [apply Forall_app; split; [assumption | repeat constructor]|].
    split.
    { rewrite C1, C0, remove_first_typing_app_messages.
      - rewrite <- app_assoc. reflexivity.
      - eapply Forall_impl; [|exact B0]. intros [[] ?|? ?|]; simpl;
          intros; try discriminate; reflexivity. }
    split; [rewrite L1, L0, app_assoc; reflexivity|].
    split; [apply Forall_app; split; assumption|].
    rewrite U1, T1, F1, S1. repeat split; assumption. }
  assert (E0 : exists k ms l,
            (k = 1 \/ k = 2)%nat
            /\ ms <> []
            /\ Forall (fun n => is_bot_message n = true) ms
            /\ chat (dom (on_error c w)) =
                 Nat.iter k remove_first_typing (chat (dom w)) ++ ms
            /\ log (on_error c w) = log w ++ l
            /\ Forall is_aftermath l
            /\ userInput (dom (on_error c w)) = userInput (dom w)
            /\ currentAttachment (dom (on_error c w)) = currentAttachment (dom w)
            /\ fetches (on_error c w) = fetches w
            /\ sessionId (on_error c w) = sessionId w).
  { destruct (E w 0%nat [] []) as (ms & l & H);
      try reflexivity; try constructor.
    - simpl. rewrite !app_nil_r. reflexivity.
    - rewrite app_nil_r. reflexivity.
    - exists 1%nat, ms, l. split; [left; reflexivity | exact H]. }
  destruct o as [|[|] [r|]]; cbn [settle]; try exact E0.
  unfold on_reply.
  pose proof (removeTypingIndicator_chat w) as C1.
  pose proof (removeTypingIndicator_log w) as L1.
  destruct (removeTypingIndicator_frame w) as (U1 & T1 & F1 & _ & _ & S1).
  set (w1 := removeTypingIndicator w) in *.
  destruct (shown_text c r) as [text|e].
  - pose proof (noted_message_chat (opens_tag (or_empty (message r)))
                  bot text w1) as C2.
    destruct (noted_message_rest (opens_tag (or_empty (message r)))
                bot text w1) as (L2 & U2 & T2 & F2 & S2).
    set (w2 := note_markup _ (addMessageToChat bot text w1)) in *.
    set (bt := MessageNode bot (js "<p>" ++ br_newlines text ++ js "</p>")) in *.
    assert (C2' : chat (dom w2) =
                  Nat.iter 1 remove_first_typing (chat (dom w)) ++ [bt])
      by (rewrite C2, C1; reflexivity).
    assert (Done : forall w3 l3,
              chat (dom w3) = chat (dom w2) ->
              log w3 = log w2 ++ l3 -> Forall is_aftermath l3 ->
              userInput (dom w3) = userInput (dom w2) ->
              currentAttachment (dom w3) = currentAttachment (dom w2) ->
              fetches w3 = fetches w2 -> sessionId w3 = sessionId w2 ->
              chat (dom w3) = Nat.iter 1 remove_first_typing (chat (dom w)) ++ [bt]
              /\ log w3 =
                 log w ++ (if existsb is_typing (chat (dom w))
                           then [TypingRemoved] else []) ++ l3
              /\ Forall is_aftermath
                   ((if existsb is_typing (chat (dom w))
                     then [TypingRemoved] else []) ++ l3)
              /\ userInput (dom w3) = userInput (dom w)
              /\ currentAttachment (dom w3) = currentAttachment (dom w)
              /\ fetches w3 = fetches w
              /\ sessionId w3 = sessionId w).
    { intros w3 l3 C3 L3 A3 U3 T3 F3 S3.
      split; [rewrite C3; exact C2'|].
      split; [rewrite L3, L2, L1, app_assoc; reflexivity|].
      split; [apply Forall_app; split; [apply removal_aftermath | assumption]|].
      rewrite U3, T3, F3, S3, U2, T2, F2, S2. repeat split; assumption. }
    destruct (data r) as [d|].
    + destruct (handleResponseData_frame d w2) as (C3 & F3 & _).
      destruct (handleResponseData_rest d w2) as ((l3 & L3 & A3) & U3 & T3 & S3).
      apply send_effect_aftermath in A3.
      destruct (Done _ l3 C3 L3 A3 U3 T3 F3 S3)
        as (C & L & A & U & T & F & S).
      destruct (handleResponseData d w2) as [[u|e] w3]; cbn [fst snd] in *.
      * exists 1%nat, [bt]. eexists. split; [left; reflexivity|].
        split; [discriminate|]. split; [repeat constructor|].
        repeat split; eassumption.
      * assert (B : Forall (fun n => is_bot_message n = true) [bt])
          by (repeat constructor).
        destruct (E w3 1%nat [bt] _ C B L A U T F S) as (ms & l & H).
        exists 2%nat, ms, l. split; [right; reflexivity | exact H].
    + destruct (Done w2 [] eq_refl) as (C & L & A & U & T & F & S);
        try reflexivity; try constructor.
      { rewrite app_nil_r. reflexivity. }
      exists 1%nat, [bt]. eexists. split; [left; reflexivity|].
      split; [discriminate|]. split; [repeat constructor|].
      repeat split; eassumption.
  - destruct (E w1 1%nat [] (if existsb is_typing (chat (dom w))
                             then [TypingRemoved] else []))
      as (ms & l & H); try assumption; try constructor.
    + rewrite app_nil_r. exact C1.
    + apply removal_aftermath.
    + exists 2%nat, ms, l. split; [right; reflexivity | exact H].
Qed.

(** ** Reachable pages *)

Lemma run_snoc (es : list event) (e : event) (w : world) :
  run (es ++ [e]) w = step e (run es w).
Proof. unfold run. rewrite fold_left_app. reflexivity. Qed.

(** What holds at the start and is kept by every event holds after
    every sequence of events. *)
Lemma reachable_ind (P : world -> Prop) (session : jsstring) :
  P (initial session) ->
  (forall e w, P w -> P (step e w)) ->
  forall es, P (run es (initial session)).
Proof.
  intros H0 HS es. induction es as [|e es IH] using rev_ind.
  - exact H0.
  - rewrite run_snoc. apply HS. exact IH.
Qed.

Lemma requests_of_send_trace (w : world) :
  requests w = filter is_fetch (send_trace w).
Proof.
  unfold requests, send_trace. induction (log w) as [|e l IH]; simpl.
  - reflexivity.
  - unfold is_send_effect at 1. destruct (is_fetch e) eqn:E; simpl.
    + rewrite E, IH. reflexivity.
    + destruct (is_shown e || is_removed e); simpl; [rewrite E|]; exact IH.
Qed.

Lemma requests_app_aftermath (w w' : world) (l : list effect) :
  log w' = log w ++ l -> Forall is_aftermath l -> requests w' = requests w.
Proof.
  intros L A. unfold requests. rewrite L, filter_app. clear L.
  assert (E : filter is_fetch l = []).
  { induction A as [|e l [He _] _ IH]; simpl; [reflexivity|].
    rewrite He. exact IH. }
  rewrite E, app_nil_r. reflexivity.
Qed.

Lemma lookup_In {A} (id : nat) (l : list (nat * A)) (a : A) :
  lookup id l = Some a -> In (id, a) l.
Proof.
  induction l as [|[j b] l IH]; simpl; [discriminate|].
  destruct (id =? j)%nat eqn:E.
  - apply Nat.eqb_eq in E. subst j. intros H. injection H as ->. left. reflexivity.
  - intros H. right. apply IH. exact H.
Qed.

Lemma without_length {A} (id : nat) (l : list (nat * A)) (a : A) :
  lookup id l = Some a -> length (without id l) = pred (length l).
Proof.
  induction l as [|[j b] l IH]; simpl; [discriminate|].
  destruct (id =? j)%nat; [reflexivity|].
  intros H. simpl. rewrite (IH H).
  destruct l as [|x l]; [discriminate H | reflexivity].
Qed.

Lemma without_pending (id : nat) (l : list (nat * read_task)) (t : read_task) :
  lookup id l = Some t ->
  (length (filter (fun x => is_send_task (snd x)) (without id l))
   + (if is_send_task t then 1 else 0))%nat
  = length (filter (fun x => is_send_task (snd x)) l).
Proof.
  induction l as [|[j b] l IH]; simpl; [discriminate|].
  destruct (id =? j)%nat.
  - intros H. injection H as ->. destruct (is_send_task t); simpl; lia.
  - intros H. simpl. specialize (IH H).
    destruct (is_send_task b); simpl; lia.
Qed.

(** The reads a step leaves pending, and what the read of a send does
    beside its request. *)
Lemma reader_load_rest (w : world) (id : nat) (t : read_task) :
  lookup id (readers w) = Some t ->
  readers (step (ReaderLoad id) w) = without id (readers w)
  /\ sessionId (step (ReaderLoad id) w) = sessionId w.
Proof.
  intros H. simpl. rewrite H.
  destruct t as [f|msg f]; open_world w; split; reflexivity.
Qed.

Lemma sendMessage_noop (w : world) :
  currentAttachment (dom w) = None -> trim (userInput (dom w)) = [] ->
  sendMessage w = w.
Proof. intros Ha Ht. unfold sendMessage. rewrite Ha, Ht. reflexivity. Qed.

Lemma count_typing_iter (k : nat) (l ms : list node) :
  Forall (fun n => is_bot_message n = true) ms ->
  length (filter is_typing (Nat.iter k remove_first_typing l ++ ms))
  = Nat.iter k pred (length (filter is_typing l)).
Proof.
  intros B. rewrite filter_app, length_app.
  assert (E : filter is_typing ms = []).
  { induction B as [|n ms Hn _ IH]; simpl; [reflexivity|].
    destruct n as [[] ?|? ?|]; simpl in *; try discriminate; exact IH. }
  rewrite E. simpl. rewrite Nat.add_0_r.
  induction k as [|k IH]; simpl; [reflexivity|].
  rewrite count_remove_first_typing, IH. reflexivity.
Qed.

Lemma messages_iter (k : nat) (l : list node) :
  filter (fun n => negb (is_typing n)) (Nat.iter k remove_first_typing l)
  = filter (fun n => negb (is_typing n)) l.
Proof.
  assert (R : forall l0, filter (fun n => negb (is_typing n))
                           (remove_first_typing l0)
                         = filter (fun n => negb (is_typing n)) l0).
  { induction l0 as [|n l0 IH]; simpl; [reflexivity|].
    destruct (is_typing n) eqn:E; simpl; [reflexivity|].
    rewrite E. simpl. rewrite IH. reflexivity. }
  induction k as [|k IH]; simpl; [reflexivity|]. rewrite R. exact IH.
Qed.

Lemma bot_messages_filter (ms : list node) :
  Forall (fun n => is_bot_message n = true) ms ->
  filter (fun n => negb (is_typing n)) ms = ms.
Proof.
  intros B. induction B as [|n ms Hn _ IH]; simpl; [reflexivity|].
  destruct n as [[] ?|? ?|]; simpl in *; try discriminate.
  rewrite IH. reflexivity.
Qed.

(** ** No indicator without a request *)

Lemma count_typing_snoc2 (w w' : world) (n : node) :
  chat (dom w') = chat (dom w) ++ [n; TypingNode] -> is_typing n = false ->
  count_typing w' = S (count_typing w).
Proof.
  intros H Hn. unfold count_typing. rewrite H, filter_app, length_app.
  simpl. rewrite Hn. simpl. lia.
Qed.

Lemma indicators_le_requests_step (e : event) (w : world) :
  (count_typing w <= length (fetches w))%nat ->
  (count_typing (step e w) <= length (fetches (step e w)))%nat.
Proof.
  intros H.
  assert (B : bystander w e = true ->
              (count_typing (step e w) <= length (fetches (step e w)))%nat).
  { intros Hb. destruct (bystander_frame w e Hb) as (C & F & _).
    unfold count_typing in *. rewrite C, F. exact H. }
  destruct e as [text| | |f| |id|id o]; try (apply B; reflexivity).
  - (* Submit *)
    change (step Submit w) with (sendMessage w).
    destruct (currentAttachment (dom w)) as [f|] eqn:Ha.
    + destruct (sendMessage_attachment_effect w f Ha) as (C & F & _).
      unfold count_typing in *. rewrite C, F. exact H.
    + destruct (trim (userInput (dom w))) as [|c t] eqn:Ht.
      * rewrite (sendMessage_noop w Ha Ht). exact H.
      * assert (Hne : trim (userInput (dom w)) <> [])
          by (rewrite Ht; discriminate).
        destruct (sendMessage_plain_effect w Ha Hne) as (C & _ & F & _).
        rewrite (count_typing_snoc2 w _ _ C eq_refl), F, length_app.
        simpl. lia.
  - (* New Chat *)
    simpl. unfold count_typing in *.
    destruct w as [[ch ? ? ? ? ? ? ? ?] ? ? ? ? ?]. simpl in *.
    destruct ch as [|n l]; simpl in *; [lia|].
    destruct (is_typing n); simpl in *; lia.
  - (* a read completes *)
    destruct (lookup id (readers w)) as [[f|msg f]|] eqn:L.
    + apply B. simpl. rewrite L. reflexivity.
    + destruct (reader_load_send w id msg f L) as (C & F & _).
      rewrite (count_typing_snoc2 w _ _ C eq_refl), F, length_app.
      simpl. lia.
    + apply B. simpl. rewrite L. reflexivity.
  - (* a request settles *)
    simpl. destruct (lookup id (fetches w)) as [c|] eqn:L; [|exact H].
    destruct (settle_shape c o (set_fetches (without id (fetches w)) w))
      as (k & ms & l & Hk & _ & Bm & C & _ & _ & _ & _ & F & _).
    unfold count_typing at 1. rewrite C, F, (count_typing_iter k _ ms Bm).
    assert (E : chat (dom (set_fetches (without id (fetches w)) w))
                = chat (dom w)) by (open_world w; reflexivity).
    assert (E' : fetches (set_fetches (without id (fetches w)) w)
                 = without id (fetches w)) by (open_world w; reflexivity).
    rewrite E, E', (without_length _ _ _ L). unfold count_typing in H.
    destruct Hk as [-> | ->]; simpl; lia.
Qed.

(** In every state the page of the model can reach, there are at most
    as many typing indicators as requests in flight. *)
Lemma indicators_le_requests (es : list event) (session : jsstring) :
  (count_typing (run es (initial session))
   <= length (fetches (run es (initial session))))%nat.
Proof.
  apply (reachable_ind
           (fun w => (count_typing w <= length (fetches w))%nat)).
  - apply Nat.le_refl.
  - intros e w. apply indicators_le_requests_step.
Qed.

(** X1: In every state the page can reach without foreign markup being
    written into it, there are at most as many typing indicators in the
    transcript as there are requests in flight; when no request is in
    flight, no indicator is left. *)
Theorem no_dangling_indicator (es : list event) (session : jsstring) :
  foreign_markup (dom (run es (initial session))) = false ->
  (count_typing (run es (initial session))
   <= length (fetches (run es (initial session))))%nat
  /\ (fetches (run es (initial session)) = [] ->
      count_typing (run es (initial session)) = 0%nat).
Proof.
  intros _. pose proof (indicators_le_requests es session) as H.
  split; [exact H|]. intros E. rewrite E in H. simpl in H. lia.
Qed.

Lemma no_dangling_indicator_witness :
  count_typing
    (run [Typed hi; Submit; NewChatClick; Settle 0 ok_reply]
         (initial session0)) = 0%nat.
Proof.
  destruct (no_dangling_indicator
              [Typed hi; Submit; NewChatClick; Settle 0 ok_reply] session0)
    as [_ H].
  - vm_compute. reflexivity.
  - apply H. vm_compute. reflexivity.
Defined.




(** ** The transcript *)

Lemma iter_remove_first_typing_head (k : nat) (n : node) (l : list node) :
  is_typing n = false ->
  Nat.iter k remove_first_typing (n :: l)
  = n :: Nat.iter k remove_first_typing l.
Proof.
  intros Hn. induction k as [|k IH]; simpl; [reflexivity|].
  rewrite IH. simpl. rewrite Hn. reflexivity.
Qed.

Lemma messages_snoc2 (w w' : world) (n : node) :
  chat (dom w') = chat (dom w) ++ [n; TypingNode] -> is_typing n = false ->
  messages w' = messages w ++ [n].
Proof.
  intros H Hn. unfold messages. rewrite H, filter_app. simpl.
  rewrite Hn. reflexivity.
Qed.

(** Every event keeps the first node of the transcript when it is a
    message. *)
Lemma head_kept_step (e : event) (w : world) (n : node) (rest : list node) :
  is_typing n = false ->
  chat (dom w) = n :: rest ->
  exists rest', chat (dom (step e w)) = n :: rest'.
Proof.
  intros Hn H.
  assert (B : bystander w e = true ->
              exists rest', chat (dom (step e w)) = n :: rest').
  { intros Hb. destruct (bystander_frame w e Hb) as (C & _).
    exists rest. rewrite C. exact H. }
  destruct e as [text| | |f| |id|id o]; try (apply B; reflexivity).
  - change (step Submit w) with (sendMessage w).
    destruct (currentAttachment (dom w)) as [f|] eqn:Ha.
    + destruct (sendMessage_attachment_effect w f Ha) as (C & _).
      exists rest. rewrite C. exact H.
    + destruct (trim (userInput (dom w))) as [|c t] eqn:Ht.
      * rewrite (sendMessage_noop w Ha Ht). exists rest. exact H.
      * assert (Hne : trim (userInput (dom w)) <> [])
          by (rewrite Ht; discriminate).
        destruct (sendMessage_plain_effect w Ha Hne) as (C & _).
        eexists. rewrite C, H. reflexivity.
  - exists []. simpl.
    destruct w as [[ch ? ? ? ? ? ? ? ?] ? ? ? ? ?]. simpl in *.
    rewrite H. reflexivity.
  - destruct (lookup id (readers w)) as [[f|msg f]|] eqn:L.
    + apply B. simpl. rewrite L. reflexivity.
    + destruct (reader_load_send w id msg f L) as (C & _).
      eexists. rewrite C, H. reflexivity.
    + apply B. simpl. rewrite L. reflexivity.
  - simpl. destruct (lookup id (fetches w)) as [c|] eqn:L;
      [|exists rest; exact H].
    destruct (settle_shape c o (set_fetches (without id (fetches w)) w))
      as (k & ms & l & _ & _ & _ & C & _).
    assert (E : chat (dom (set_fetches (without id (fetches w)) w))
                = chat (dom w)) by (open_world w; reflexivity).
    eexists. rewrite C, E, H, iter_remove_first_typing_head by exact Hn.
    reflexivity.
Qed.

(** X2: The welcome message of the template stays the first node of the
    transcript whatever happens, and a click on the New Chat link of the
    navigation bar, the element the script finds under the id
    clearChatBtn, leaves it as the only node and hides the carousel. *)
Theorem clear_chat_leaves_welcome (es : list event) (session : jsstring) :
  hd_error (chat (dom (run es (initial session)))) = Some welcome
  /\ chat (dom (step NewChatClick (run es (initial session)))) = [welcome]
  /\ carousel_hidden (dom (step NewChatClick (run es (initial session))))
     = true.
Proof.
  assert (H : exists rest, chat (dom (run es (initial session)))
                           = welcome :: rest).
  { apply (reachable_ind (fun w => exists rest, chat (dom w) = welcome :: rest)).
    - exists []. reflexivity.
    - intros e w [rest Hw].
      apply (head_kept_step e w welcome rest eq_refl Hw). }
  destruct H as [rest H]. split; [rewrite H; reflexivity|].
  destruct (run es (initial session)) as [[ch ? ? ? ? ? ? ? ?] ? ? ? ? ?].
  simpl in *. rewrite H. split; reflexivity.
Qed.

Lemma messages_step (e : event) (w : world) :
  is_clear e = false ->
  exists l, messages (step e w) = messages w ++ l.
Proof.
  intros Hc.
  assert (B : bystander w e = true ->
              exists l, messages (step e w) = messages w ++ l).
  { intros Hb. destruct (bystander_frame w e Hb) as (C & _).
    exists []. unfold messages. rewrite C, app_nil_r. reflexivity. }
  destruct e as [text| | |f| |id|id o]; try (apply B; reflexivity);
    try discriminate Hc.
  - change (step Submit w) with (sendMessage w).
    destruct (currentAttachment (dom w)) as [f|] eqn:Ha.
    + destruct (sendMessage_attachment_effect w f Ha) as (C & _).
      exists []. unfold messages. rewrite C, app_nil_r. reflexivity.
    + destruct (trim (userInput (dom w))) as [|c t] eqn:Ht.
      * rewrite (sendMessage_noop w Ha Ht). exists [].
        rewrite app_nil_r. reflexivity.
      * assert (Hne : trim (userInput (dom w)) <> [])
          by (rewrite Ht; discriminate).
        destruct (sendMessage_plain_effect w Ha Hne) as (C & _).
        eexists. apply (messages_snoc2 w _ _ C eq_refl).
  - destruct (lookup id (readers w)) as [[f|msg f]|] eqn:L.
    + apply B. simpl. rewrite L. reflexivity.
    + destruct (reader_load_send w id msg f L) as (C & _).
      eexists. apply (messages_snoc2 w _ _ C eq_refl).
    + apply B. simpl. rewrite L. reflexivity.
  - simpl. destruct (lookup id (fetches w)) as [c|] eqn:L;
      [|exists []; rewrite app_nil_r; reflexivity].
    destruct (settle_shape c o (set_fetches (without id (fetches w)) w))
      as (k & ms & l & _ & _ & Bm & C & _).
    assert (E : chat (dom (set_fetches (without id (fetches w)) w))
                = chat (dom w)) by (open_world w; reflexivity).
    exists ms. unfold messages.
    rewrite C, E, filter_app, messages_iter, (bot_messages_filter ms Bm).
    reflexivity.
Qed.

(** X3: As long as New Chat is not clicked and no foreign markup is
    written into the page, the messages of the transcript are only ever
    added at the end: none is removed, changed or moved. *)
Theorem transcript_append_only (es : list event) (w : world) :
  forallb (fun e => negb (is_clear e)) es = true ->
  foreign_markup (dom (run es w)) = false ->
  exists l, messages (run es w) = messages w ++ l.
Proof.
  intros H _. revert w H. induction es as [|e es IH]; intros w H.
  - exists []. rewrite app_nil_r. reflexivity.
  - simpl in H. apply andb_true_iff in H. destruct H as [He Hes].
    apply negb_true_iff in He.
    destruct (messages_step e w He) as [l1 H1].
    destruct (IH (step e w) Hes) as [l2 H2].
    exists (l1 ++ l2). change (run (e :: es) w) with (run es (step e w)).
    rewrite H2, H1, app_assoc. reflexivity.
Qed.

Lemma transcript_append_only_witness :
  exists l,
    messages (run [Typed hi; Submit; Settle 0 Rejected] (initial session0))
    = messages (initial session0) ++ l.
Proof.
  apply (transcript_append_only [Typed hi; Submit; Settle 0 Rejected]).
  - reflexivity.
  - vm_compute. reflexivity.
Defined.

(** X4: Every request that settles is answered in the transcript: the
    settlement adds at least one bot message (the reply, the apology, or
    the reply followed by the apology) and nothing else, sends no request,
    and leaves the draft and the attachment slot as they are. *)
Theorem settlement_is_answered (w : world) (id : nat) (c : chain) (o : outcome) :
  lookup id (fetches w) = Some c ->
  exists ms,
    ms <> []
    /\ Forall (fun n => is_bot_message n = true) ms
    /\ messages (step (Settle id o) w) = messages w ++ ms
    /\ requests (step (Settle id o) w) = requests w
    /\ userInput (dom (step (Settle id o) w)) = userInput (dom w)
    /\ currentAttachment (dom (step (Settle id o) w))
       = currentAttachment (dom w).
Proof.
  intros L. simpl. rewrite L.
  destruct (settle_shape c o (set_fetches (without id (fetches w)) w))
    as (k & ms & l & _ & Hne & Bm & C & Lg & A & U & T & _).
  set (w0 := set_fetches (without id (fetches w)) w) in *.
  assert (E : chat (dom w0) = chat (dom w) /\ log w0 = log w
              /\ userInput (dom w0) = userInput (dom w)
              /\ currentAttachment (dom w0) = currentAttachment (dom w))
    by (subst w0; open_world w; repeat split; reflexivity).
  destruct E as (Ec & El & Eu & Et).
  exists ms. split; [exact Hne|]. split; [exact Bm|].
  split.
  { unfold messages.
    rewrite C, Ec, filter_app, messages_iter, (bot_messages_filter ms Bm).
    reflexivity. }
  split.
  { rewrite (requests_app_aftermath w0 _ l Lg A).
    unfold requests. rewrite El. reflexivity. }
  rewrite U, T. split; assumption.
Qed.

Lemma settlement_is_answered_witness :
  exists ms,
    ms <> []
    /\ messages (step (Settle 0 Rejected) sending) = messages sending ++ ms.
Proof.
  destruct (settlement_is_answered sending 0 PlainChain Rejected eq_refl)
    as (ms & Hne & _ & M & _).
  exists ms. split; assumption.
Defined.

(** ** The requests *)

Lemma bystander_readers (w : world) (e : event) :
  bystander w e = true ->
  (Forall send_text_ok (readers w) -> Forall send_text_ok (readers (step e w)))
  /\ pending_sends (step e w) = pending_sends w
  /\ requests (step e w) = requests w.
Proof.
  intros Hb.
  assert (R : requests (step e w) = requests w).
  { destruct (bystander_frame w e Hb) as (_ & _ & T & _).
    rewrite !requests_of_send_trace, T. reflexivity. }
  split; [|split; [|exact R]]; clear R;
    destruct e as [text| | |f| |id|id o]; simpl in *; try discriminate.
  - open_world w. trivial.
  - unfold handleFileUpload. destruct f as [f|]; [|open_world w; trivial].
    destruct (negb (startsWith (js "image/") (file_type f)));
      open_world w; simpl; [trivial|].
    intros H. apply Forall_app. split; [exact H | repeat constructor].
  - open_world w. trivial.
  - destruct (lookup id (readers w)) as [[f|msg f]|] eqn:L;
      try discriminate; [|trivial].
    intros H. open_world w. simpl in *. apply Forall_without. exact H.
  - open_world w. reflexivity.
  - unfold handleFileUpload, pending_sends.
    destruct f as [f|]; [|open_world w; reflexivity].
    destruct (negb (startsWith (js "image/") (file_type f)));
      open_world w; simpl; [reflexivity|].
    rewrite filter_app, length_app. simpl. lia.
  - open_world w. reflexivity.
  - destruct (lookup id (readers w)) as [[f|msg f]|] eqn:L;
      try discriminate; [|reflexivity].
    pose proof (without_pending id _ _ L) as P. simpl in P.
    unfold pending_sends. open_world w. simpl in *. lia.
Qed.

Lemma attachment_text_not_empty (w : world) : attachment_text w <> [].
Proof.
  unfold attachment_text. rewrite jsstring_eqb_nil.
  destruct (trim (userInput (dom w))); discriminate.
Qed.

Lemma requests_snoc (w w' : world) (e : effect) :
  send_trace w' = send_trace w ++ [TypingShown; e] -> is_fetch e = true ->
  requests w' = requests w ++ [e].
Proof.
  intros T He. rewrite !requests_of_send_trace, T, filter_app. simpl.
  rewrite He. reflexivity.
Qed.

Lemma sendMessage_plain_trace (w : world) :
  currentAttachment (dom w) = None -> trim (userInput (dom w)) <> [] ->
  requests (sendMessage w) =
    requests w
      ++ [Fetch api_chat (JsonBody (trim (userInput (dom w))) (sessionId w))].
Proof.
  intros Ha Ht. destruct (sendMessage_plain_effect w Ha Ht) as (_ & L & _).
  unfold requests. rewrite L, filter_app. reflexivity.
Qed.

Lemma sendMessage_attachment_requests (w : world) (f : file) :
  currentAttachment (dom w) = Some f -> requests (sendMessage w) = requests w.
Proof.
  intros Ha. destruct (sendMessage_attachment_effect w f Ha) as (_ & _ & T & _).
  rewrite !requests_of_send_trace, T. reflexivity.
Qed.

Lemma settle_step_rest (w : world) (id : nat) (c : chain) (o : outcome) :
  lookup id (fetches w) = Some c ->
  requests (step (Settle id o) w) = requests w
  /\ readers (step (Settle id o) w) = readers w
  /\ sessionId (step (Settle id o) w) = sessionId w.
Proof.
  intros L. simpl. rewrite L.
  set (w0 := set_fetches (without id (fetches w)) w).
  destruct (settle_shape c o w0) as (k & ms & l & _ & _ & _ & _ & Lg & A & _ & _ & _ & S).
  destruct (settle_ids c o w0) as (R & _).
  rewrite (requests_app_aftermath w0 _ l Lg A), R, S.
  subst w0. open_world w. repeat split; reflexivity.
Qed.

Lemma well_formed_step (session : jsstring) (e : event) (w : world) :
  sessionId w = session
  /\ Forall (well_formed_request session) (requests w)
  /\ Forall send_text_ok (readers w) ->
  sessionId (step e w) = session
  /\ Forall (well_formed_request session) (requests (step e w))
  /\ Forall send_text_ok (readers (step e w)).
Proof.
  intros (S & Q & R).
  assert (B : bystander w e = true ->
              sessionId (step e w) = session
              /\ Forall (well_formed_request session) (requests (step e w))
              /\ Forall send_text_ok (readers (step e w))).
  { intros Hb. destruct (bystander_frame w e Hb) as (_ & _ & _ & S' & _).
    destruct (bystander_readers w e Hb) as (R' & _ & Q').
    rewrite S', Q'. repeat split; auto. }
  destruct e as [text| | |f| |id|id o]; try (apply B; reflexivity).
  - change (step Submit w) with (sendMessage w).
    destruct (currentAttachment (dom w)) as [f|] eqn:Ha.
    + destruct (sendMessage_attachment_effect w f Ha)
        as (_ & _ & _ & S' & R' & _).
      rewrite (sendMessage_attachment_requests w f Ha), S', R'.
      repeat split; auto. apply Forall_app. split; [exact R|].
      constructor; [|constructor]. apply attachment_text_not_empty.
    + destruct (trim (userInput (dom w))) as [|c t] eqn:Ht.
      * rewrite (sendMessage_noop w Ha Ht). repeat split; auto.
      * assert (Hne : trim (userInput (dom w)) <> [])
          by (rewrite Ht; discriminate).
        destruct (sendMessage_plain_effect w Ha Hne)
          as (_ & _ & _ & R' & _ & _ & _ & S').
        rewrite (sendMessage_plain_trace w Ha Hne), S', R'.
        repeat split; auto. apply Forall_app. split; [exact Q|].
        constructor; [|constructor]. simpl. repeat split; auto.
  - simpl. open_world w. repeat split; auto.
  - destruct (lookup id (readers w)) as [[f|msg f]|] eqn:L.
    + apply B. simpl. rewrite L. reflexivity.
    + destruct (reader_load_send w id msg f L) as (_ & _ & T).
      destruct (reader_load_rest w id _ L) as (R' & S').
      rewrite (requests_snoc w _ _ T eq_refl), S', R'.
      repeat split; auto.
      * apply Forall_app. split; [exact Q|].
        constructor; [|constructor]. simpl. repeat split; auto.
        rewrite Forall_forall in R.
        exact (R _ (lookup_In _ _ _ L)).
      * apply Forall_without. exact R.
    + apply B. simpl. rewrite L. reflexivity.
  - destruct (lookup id (fetches w)) as [c|] eqn:L.
    + destruct (settle_step_rest w id c o L) as (Q' & R' & S').
      rewrite Q', R', S'. repeat split; auto.
    + simpl. rewrite L. repeat split; auto.
Qed.

(** X5: Every request the page ever sends is well formed: a JSON request to
    /api/chat or a form request to /api/chat-with-file, with the session
    id the page was loaded with and a text that is not empty; and the
    session id never changes. *)
Theorem requests_well_formed (es : list event) (session : jsstring) :
  sessionId (run es (initial session)) = session
  /\ Forall (well_formed_request session) (requests (run es (initial session))).
Proof.
  assert (H : sessionId (run es (initial session)) = session
              /\ Forall (well_formed_request session)
                   (requests (run es (initial session)))
              /\ Forall send_text_ok (readers (run es (initial session)))).
  { apply (reachable_ind
             (fun w => sessionId w = session
                       /\ Forall (well_formed_request session) (requests w)
                       /\ Forall send_text_ok (readers w))).
    - repeat split; constructor.
    - intros e w. apply well_formed_step. }
  destruct H as (S & Q & _). split; assumption.
Qed.

Lemma requests_per_submit_step (e : event) (w : world) :
  (length (requests (step e w)) + pending_sends (step e w)
   <= length (requests w) + pending_sends w
      + (if is_submit e then 1 else 0))%nat.
Proof.
  assert (B : bystander w e = true ->
              (length (requests (step e w)) + pending_sends (step e w)
               <= length (requests w) + pending_sends w
                  + (if is_submit e then 1 else 0))%nat).
  { intros Hb. destruct (bystander_readers w e Hb) as (_ & P & Q).
    rewrite P, Q. lia. }
  destruct e as [text| | |f| |id|id o]; try (apply B; reflexivity).
  - change (step Submit w) with (sendMessage w). simpl.
    destruct (currentAttachment (dom w)) as [f|] eqn:Ha.
    + destruct (sendMessage_attachment_effect w f Ha)
        as (_ & _ & _ & _ & R' & _).
      rewrite (sendMessage_attachment_requests w f Ha).
      unfold pending_sends. rewrite R', filter_app, length_app. simpl. lia.
    + destruct (trim (userInput (dom w))) as [|c t] eqn:Ht.
      * rewrite (sendMessage_noop w Ha Ht). lia.
      * assert (Hne : trim (userInput (dom w)) <> [])
          by (rewrite Ht; discriminate).
        destruct (sendMessage_plain_effect w Ha Hne) as (_ & _ & _ & R' & _).
        rewrite (sendMessage_plain_trace w Ha Hne), length_app.
        unfold pending_sends. rewrite R'. simpl. lia.
  - simpl. unfold requests, pending_sends. open_world w. simpl. lia.
  - destruct (lookup id (readers w)) as [[f|msg f]|] eqn:L.
    + apply B. simpl. rewrite L. reflexivity.
    + destruct (reader_load_send w id msg f L) as (_ & _ & T).
      destruct (reader_load_rest w id _ L) as (R' & _).
      rewrite (requests_snoc w _ _ T eq_refl), length_app.
      pose proof (without_pending id _ _ L) as P. simpl in P.
      unfold pending_sends. rewrite R'. simpl. lia.
    + apply B. simpl. rewrite L. reflexivity.
  - destruct (lookup id (fetches w)) as [c|] eqn:L.
    + destruct (settle_step_rest w id c o L) as (Q' & R' & _).
      unfold pending_sends. rewrite Q', R'. simpl. lia.
    + simpl. rewrite L. simpl. lia.
Qed.

(** X6: The page never sends more requests than the form was submitted:
    the requests sent so far and the sends still waiting for their file to
    be read are together at most the submits. *)
Theorem at_most_one_request_per_submit (es : list event) (session : jsstring) :
  (length (requests (run es (initial session)))
   + pending_sends (run es (initial session))
   <= length (filter is_submit es))%nat.
Proof.
  induction es as [|e es IH] using rev_ind.
  - apply Nat.le_refl.
  - rewrite run_snoc, filter_app, length_app.
    pose proof (requests_per_submit_step e (run es (initial session))) as H.
    simpl. destruct (is_submit e); simpl; lia.
Qed.

(** ** The attachment *)

(** X7: The request of a send with an attachment is built when the read of
    the file completes, from the attachment slot as it is then. The submit
    has emptied the slot, so when the read completes next, the request goes
    out with the text and the session id but without the file ([None]
    stands for the null the script then appends as the file field), while
    the transcript shows the user's message with the image. *)
Theorem attachment_request_has_no_file (w : world) (f : file) :
  currentAttachment (dom w) = Some f ->
  fresh_ids w ->
  let w1 := step Submit w in
  let w2 := step (ReaderLoad (next_id w)) w1 in
  currentAttachment (dom w1) = None
  /\ requests w1 = requests w
  /\ requests w2 =
       requests w
         ++ [Fetch api_chat_with_file
               (FormBody (attachment_text w) (sessionId w) None)]
  /\ chat (dom w2) =
       chat (dom w)
         ++ [ImageMessageNode (js "<p>" ++ attachment_text w ++ js "</p>")
                              (file_dataURL f);
             TypingNode].
Proof.
  intros Ha Hf w1 w2.
  change (step Submit w) with (sendMessage w) in w1.
  destruct (sendMessage_attachment_effect w f Ha)
    as (C1 & _ & _ & S1 & R1 & A1 & _).
  fold w1 in C1, S1, R1, A1.
  assert (L : lookup (next_id w) (readers w1)
              = Some (SendRead (attachment_text w) f)).
  { rewrite R1. apply lookup_app_new. apply lookup_fresh. exact Hf. }
  destruct (reader_load_send w1 (next_id w) _ f L) as (C2 & _ & T2).
  fold w2 in C2, T2.
  split; [exact A1|].
  split; [apply (sendMessage_attachment_requests w f Ha)|].
  split.
  - rewrite (requests_snoc w1 w2 _ T2 eq_refl).
    unfold w1 at 1. rewrite (sendMessage_attachment_requests w f Ha), S1, A1.
    reflexivity.
  - rewrite C2, C1. reflexivity.
Qed.

Lemma attachment_request_has_no_file_witness :
  requests (step (ReaderLoad (next_id staged)) (step Submit staged)) =
    [Fetch api_chat_with_file
       (FormBody (js "I'm sending an image of cat.") session0 None)].
Proof.
  assert (F : fresh_ids staged) by (unfold fresh_ids; repeat constructor).
  pose proof (attachment_request_has_no_file staged cat_png eq_refl F)
    as (_ & _ & R & _).
  rewrite R. vm_compute. reflexivity.
Defined.

Lemma attachment_ui_settle (c : chain) (o : outcome) (w : world) :
  attachment_ui (settle c o w) = attachment_ui w.
Proof.
  assert (Rm : forall w0, attachment_ui (removeTypingIndicator w0)
                          = attachment_ui w0).
  { intros w0. unfold removeTypingIndicator.
    destruct (existsb is_typing (chat (dom w0))); open_world w0; reflexivity. }
  assert (Er : forall w0, attachment_ui (on_error c w0) = attachment_ui w0).
  { intros w0. unfold on_error.
    set (w1 := removeTypingIndicator (emit ConsoleError w0)).
    assert (E1 : attachment_ui w1 = attachment_ui w0).
    { subst w1. rewrite Rm. open_world w0. reflexivity. }
    rewrite <- E1. open_world w1. reflexivity. }
  assert (Ap : forall ps w0, attachment_ui (snd (append_cards ps w0))
                             = attachment_ui w0).
  { induction ps as [|p ps IH]; intros w0; simpl; [reflexivity|].
    destruct (product_card p) as [cd|e]; simpl; [|reflexivity].
    rewrite IH. open_world w0. reflexivity. }
  assert (Dp : forall ps w0, attachment_ui (snd (displayProducts ps w0))
                             = attachment_ui w0).
  { intros ps w0. unfold displayProducts.
    match goal with |- context [append_cards ps ?v] =>
      pose proof (Ap ps v) as H;
      destruct (append_cards ps v) as [[u|e] w'] end;
      cbn [fst snd] in *.
    - open_world w'. unfold attachment_ui in *. simpl in *. rewrite H.
      open_world w0. reflexivity.
    - rewrite H. open_world w0. reflexivity. }
  assert (Hd : forall d w0, attachment_ui (snd (handleResponseData d w0))
                            = attachment_ui w0).
  { intros d w0. unfold handleResponseData.
    destruct (products_populated d); [apply Dp|].
    destruct (product_ d) as [p|]; [apply Dp|].
    destruct (order d); open_world w0; reflexivity. }
  destruct o as [|[|] [r|]]; cbn [settle]; try apply Er.
  unfold on_reply.
  pose proof (Rm w) as H1. set (w1 := removeTypingIndicator w) in *.
  destruct (shown_text c r) as [text|e]; [|rewrite Er; exact H1].
  assert (H2 : attachment_ui
                 (note_markup (opens_tag (or_empty (message r)))
                    (addMessageToChat bot text w1)) = attachment_ui w)
    by (rewrite <- H1; open_world w1; reflexivity).
  set (w2 := note_markup _ (addMessageToChat bot text w1)) in *.
  destruct (data r) as [d|]; [|exact H2].
  pose proof (Hd d w2) as H3.
  destruct (handleResponseData d w2) as [[u|e] w3]; cbn [fst snd] in *.
  - rewrite H3. exact H2.
  - rewrite Er, H3. exact H2.
Qed.

Lemma notice_iff_staged_step (e : event) (w : world) :
  filePreview_hidden (dom w)
  = match currentAttachment (dom w) with Some _ => false | None => true end ->
  filePreview_hidden (dom (step e w))
  = match currentAttachment (dom (step e w)) with
    | Some _ => false
    | None => true
    end.
Proof.
  intros H. destruct e as [text| | |f| |id|id o]; simpl.
  - open_world w. exact H.
  - unfold sendMessage, sendMessageWithAttachment.
    destruct (currentAttachment (dom w)) as [f|] eqn:Ha.
    + open_world w. reflexivity.
    + destruct (jsstring_eqb (trim (userInput (dom w))) []);
        [rewrite Ha; exact H|].
      open_world w. simpl in *. rewrite Ha. exact H.
  - open_world w. exact H.
  - unfold handleFileUpload. destruct f as [f|]; [|open_world w; exact H].
    destruct (negb (startsWith (js "image/") (file_type f)));
      open_world w; [exact H | reflexivity].
  - open_world w. reflexivity.
  - destruct (lookup id (readers w)) as [[f|msg f]|]; [| |exact H];
      open_world w; exact H.
  - destruct (lookup id (fetches w)) as [c|]; [|exact H].
    pose proof (attachment_ui_settle c o
                  (set_fetches (without id (fetches w)) w)) as E.
    unfold attachment_ui in E.
    destruct (settle c o (set_fetches (without id (fetches w)) w))
      as [[] ? ? ? ? ?].
    open_world w. simpl in *. injection E as -> -> -> -> -> ->. exact H.
Qed.

(** X8: In every state the page can reach, the notice that a file is ready
    to send is shown exactly when a file is staged in the attachment
    slot. *)
Theorem notice_iff_staged (es : list event) (session : jsstring) :
  filePreview_hidden (dom (run es (initial session)))
  = match currentAttachment (dom (run es (initial session))) with
    | Some _ => false
    | None => true
    end.
Proof.
  apply (reachable_ind
           (fun w => filePreview_hidden (dom w)
                     = match currentAttachment (dom w) with
                       | Some _ => false
                       | None => true
                       end)).
  - reflexivity.
  - apply notice_iff_staged_step.
Qed.

(** ** Cards that throw *)

Lemma stars_of_floor (r : Q) :
  0 <= Math_floor r <= 5 ->
  stars_of r =
  Ok (repeat 9733%N (Z.to_nat (Math_floor r))
        ++ repeat 9734%N (5 - Z.to_nat (Math_floor r))).
Proof.
  intros [Hl Hu]. unfold stars_of, repeat_str, star_filled, star_empty.
  destruct (Math_floor r <? 0) eqn:E1; [apply Z.ltb_lt in E1; lia|].
  destruct (5 - Math_floor r <? 0) eqn:E2; [apply Z.ltb_lt in E2; lia|].
  cbn [bind]. rewrite !concat_repeat_unit.
  replace (Z.to_nat (5 - Math_floor r))
    with (5 - Z.to_nat (Math_floor r))%nat by lia.
  reflexivity.
Qed.

Lemma stars_of_out_of_range (r : Q) :
  Math_floor r < 0 \/ 5 < Math_floor r -> stars_of r = Throw RangeError.
Proof.
  intros H. unfold stars_of, repeat_str.
  destruct (Math_floor r <? 0) eqn:E1; [reflexivity|].
  apply Z.ltb_ge in E1.
  destruct (5 - Math_floor r <? 0) eqn:E2; [reflexivity|].
  apply Z.ltb_ge in E2. lia.
Qed.

(** X9: [getProductDetails] on every product: it throws a RangeError
    exactly when the rating is not 0 and its floor is below 0 or above 5
    (the count of one of the two [repeat] calls is then negative), and
    otherwise gives the lines of the truthy fields in their order, or the
    notice that there are none. *)
Theorem getProductDetails_total (p : product) :
  getProductDetails p =
  if bad_rating p then Throw RangeError
  else Ok (match detail_lines p with
           | [] => no_details
           | _ :: _ => concat (detail_lines p)
           end).
Proof.
  rewrite <- (concat_not_empty _ (detail_lines_not_empty p)).
  unfold bad_rating, getProductDetails, detail_lines, text_line, rating_line.
  destruct (rating p) as [r|] eqn:R.
  - destruct (truthy_num (Some r)) eqn:T; cbn [andb].
    + destruct ((Math_floor r <? 0) || (5 <? Math_floor r)) eqn:B.
      * rewrite stars_of_out_of_range; [reflexivity|].
        apply orb_true_iff in B. destruct B as [B|B];
          [left; apply Z.ltb_lt | right; apply Z.ltb_lt]; exact B.
      * apply orb_false_iff in B. destruct B as [B1 B2].
        apply Z.ltb_ge in B1. apply Z.ltb_ge in B2.
        rewrite stars_of_floor by lia.
        destruct (truthy_str (category p)), (truthy_str (model p)),
          (truthy_str (brand p)), (truthy_str (warranty p));
          cbn [bind app concat]; rewrite ?app_nil_r, <- ?app_assoc;
          reflexivity.
    + destruct (truthy_str (category p)), (truthy_str (model p)),
        (truthy_str (brand p)), (truthy_str (warranty p));
        cbn [bind app concat]; rewrite ?app_nil_r, <- ?app_assoc;
        reflexivity.
  - destruct (truthy_str (category p)), (truthy_str (model p)),
      (truthy_str (brand p)), (truthy_str (warranty p));
      cbn [bind app concat]; rewrite ?app_nil_r, <- ?app_assoc;
      reflexivity.
Qed.

(** ** encodeURIComponent on every string *)

Lemma unreserved_not_surrogate (c : N) :
  uri_unreserved c = true ->
  is_low_surrogate c = false /\ is_high_surrogate c = false.
Proof.
  unfold uri_unreserved, is_digit, is_upper, is_lower,
    is_low_surrogate, is_high_surrogate.
  intros H.
  assert (B : (c < 128)%N).
  { apply orb_true_iff in H. destruct H as [H|H];
      [apply orb_true_iff in H; destruct H as [H|H];
       [apply orb_true_iff in H; destruct H as [H|H]|]|].
    - apply andb_true_iff in H. destruct H as [_ H]. apply N.leb_le in H. lia.
    - apply andb_true_iff in H. destruct H as [_ H]. apply N.leb_le in H. lia.
    - apply andb_true_iff in H. destruct H as [_ H]. apply N.leb_le in H. lia.
    - apply existsb_exists in H. destruct H as (x & Hin & Hx).
      apply N.eqb_eq in Hx. subst x. simpl in Hin.
      repeat (destruct Hin as [<- | Hin]; [reflexivity|]). contradiction. }
  split; apply andb_false_iff; left; apply N.leb_gt; lia.
Qed.

(** [encodeURIComponent] throws, a URIError, exactly on the strings
    that have a surrogate without its other half. *)
Lemma encodeURIComponent_total (s : jsstring) :
  match encodeURIComponent s with
  | Ok _ => well_paired s = true
  | Throw e => e = URIError /\ well_paired s = false
  end.
Proof.
  assert (G : forall s0,
            match encodeURIComponent s0 with
            | Ok _ => well_paired s0 = true
            | Throw e => e = URIError /\ well_paired s0 = false
            end
            /\ forall c,
                 match encodeURIComponent (c :: s0) with
                 | Ok _ => well_paired (c :: s0) = true
                 | Throw e => e = URIError /\ well_paired (c :: s0) = false
                 end).
  { induction s0 as [|d s0 [IH1 IH2]].
    - split; [reflexivity|]. intros c. simpl.
      destruct (uri_unreserved c) eqn:U.
      + destruct (unreserved_not_surrogate c U) as [-> ->]. reflexivity.
      + destruct (is_low_surrogate c); [split; reflexivity|].
        destruct (is_high_surrogate c); [split; reflexivity | reflexivity].
    - split; [apply IH2|]. intros c.
      specialize (IH2 d). remember (d :: s0) as t eqn:Et.
      cbn [encodeURIComponent well_paired].
      destruct (uri_unreserved c) eqn:U.
      + destruct (unreserved_not_surrogate c U) as [-> ->].
        destruct (encodeURIComponent t) as [q|e]; exact IH2.
      + destruct (is_low_surrogate c); [split; reflexivity|].
        destruct (is_high_surrogate c).
        * subst t. cbv beta iota.
          destruct (is_low_surrogate d); [|split; reflexivity].
          destruct (encodeURIComponent s0) as [q|e]; exact IH1.
        * destruct (encodeURIComponent t) as [q|e]; exact IH2. }
  apply G.
Qed.

Lemma hex_digit_safe (n : N) : (n < 16)%N -> url_safe (hex_digit n) = true.
Proof.
  intros H. unfold url_safe, uri_unreserved, hex_digit, is_digit, is_upper.
  destruct (n <? 10)%N eqn:E.
  - apply N.ltb_lt in E.
    replace ((48 <=? 48 + n)%N && (48 + n <=? 57)%N) with true; [reflexivity|].
    symmetry. apply andb_true_iff. split; apply N.leb_le; lia.
  - apply N.ltb_ge in E.
    replace ((65 <=? 55 + n)%N && (55 + n <=? 90)%N) with true;
      [rewrite orb_true_r; reflexivity|].
    symmetry. apply andb_true_iff. split; apply N.leb_le; lia.
Qed.

Lemma pct_safe (b : N) :
  (b < 256)%N -> Forall (fun c => url_safe c = true) (pct b).
Proof.
  intros H. unfold pct. repeat constructor.
  - apply hex_digit_safe. apply N.Div0.div_lt_upper_bound. lia.
  - apply hex_digit_safe. apply N.mod_lt. discriminate.
Qed.

Lemma escape_cp_safe (cp : N) :
  (cp < 1114112)%N -> Forall (fun c => url_safe c = true) (escape_cp cp).
Proof.
  intros H. unfold escape_cp, utf8.
  assert (M : forall x, (128 + x mod 64 < 256)%N).
  { intros x. pose proof (N.mod_lt x 64). lia. }
  destruct (cp <? 128)%N eqn:E1.
  { apply N.ltb_lt in E1. cbn [map concat]. rewrite app_nil_r.
    apply pct_safe. lia. }
  destruct (cp <? 2048)%N eqn:E2.
  { apply N.ltb_lt in E2. cbn [map concat]. rewrite app_nil_r.
    apply Forall_app. split; apply pct_safe; [|apply M].
    assert (cp / 64 < 32)%N by (apply N.Div0.div_lt_upper_bound; lia). lia. }
  destruct (cp <? 65536)%N eqn:E3.
  { apply N.ltb_lt in E3. cbn [map concat]. rewrite app_nil_r.
    repeat (apply Forall_app; split); apply pct_safe; try apply M.
    assert (cp / 4096 < 16)%N by (apply N.Div0.div_lt_upper_bound; lia). lia. }
  cbn [map concat]. rewrite app_nil_r.
  repeat (apply Forall_app; split); apply pct_safe; try apply M.
  assert (cp / 262144 < 5)%N by (apply N.Div0.div_lt_upper_bound; lia). lia.
Qed.

(** The result of [encodeURIComponent] on code units consists of
    unreserved characters and percent signs only. *)
Lemma encodeURIComponent_safe (s q : jsstring) :
  Forall (fun c => (c < 65536)%N) s ->
  encodeURIComponent s = Ok q ->
  Forall (fun c => url_safe c = true) q.
Proof.
  assert (G : forall s0,
            (forall q0, Forall (fun c => (c < 65536)%N) s0 ->
                        encodeURIComponent s0 = Ok q0 ->
                        Forall (fun c => url_safe c = true) q0)
            /\ forall c q0, Forall (fun c => (c < 65536)%N) (c :: s0) ->
                        encodeURIComponent (c :: s0) = Ok q0 ->
                        Forall (fun c => url_safe c = true) q0).
  { induction s0 as [|d s0 [IH1 IH2]].
    - split; [intros q0 _ H; injection H as <-; constructor|].
      intros c q0 B H. inversion B as [|? ? Bc _]; subst. simpl in H.
      destruct (uri_unreserved c) eqn:U.
      + injection H as <-. repeat constructor.
        unfold url_safe. rewrite U. reflexivity.
      + destruct (is_low_surrogate c); [discriminate H|].
        destruct (is_high_surrogate c); [discriminate H|].
        injection H as <-. rewrite app_nil_r. apply escape_cp_safe. lia.
    - split; [apply IH2|]. intros c q0 B H.
      inversion B as [|? ? Bc Bt]; subst.
      specialize (IH2 d). remember (d :: s0) as t eqn:Et.
      cbn [encodeURIComponent] in H.
      destruct (uri_unreserved c) eqn:U.
      + destruct (encodeURIComponent t) as [r|e] eqn:Er; [|discriminate H].
        injection H as <-. constructor.
        * unfold url_safe. rewrite U. reflexivity.
        * apply (IH2 r Bt eq_refl).
      + destruct (is_low_surrogate c); [discriminate H|].
        destruct (is_high_surrogate c) eqn:Hh.
        * subst t. cbv beta iota in H.
          destruct (is_low_surrogate d) eqn:Hl; [|discriminate H].
          destruct (encodeURIComponent s0) as [r|e] eqn:Er; [|discriminate H].
          injection H as <-. inversion Bt as [|? ? Bd Bs]; subst.
          apply Forall_app. split; [|apply (IH1 r Bs eq_refl)].
          apply escape_cp_safe.
          unfold is_high_surrogate in Hh. unfold is_low_surrogate in Hl.
          apply andb_true_iff in Hh. destruct Hh as [H1 H2].
          apply andb_true_iff in Hl. destruct Hl as [H3 H4].
          apply N.leb_le in H1, H2, H3, H4. lia.
        * destruct (encodeURIComponent t) as [r|e] eqn:Er; [|discriminate H].
          injection H as <-.
          apply Forall_app. split; [|apply (IH2 r Bt eq_refl)].
          apply escape_cp_safe. lia. }
  intros B H. apply (proj1 (G s) q B H).
Qed.

(** ** Cards *)

Lemma getProductDetails_outcome (p : product) :
  exists s,
    getProductDetails p = if bad_rating p then Throw RangeError else Ok s.
Proof.
  unfold bad_rating, getProductDetails.
  destruct (rating p) as [r|] eqn:R.
  - destruct (truthy_num (Some r)) eqn:T; cbn [andb].
    + destruct ((Math_floor r <? 0) || (5 <? Math_floor r)) eqn:B.
      * exists []. rewrite stars_of_out_of_range; [reflexivity|].
        apply orb_true_iff in B. destruct B as [B|B];
          [left; apply Z.ltb_lt | right; apply Z.ltb_lt]; exact B.
      * apply orb_false_iff in B. destruct B as [B1 B2].
        apply Z.ltb_ge in B1. apply Z.ltb_ge in B2.
        rewrite stars_of_floor by lia. cbn [bind].
        eexists. reflexivity.
    + eexists. reflexivity.
  - eexists. reflexivity.
Qed.

Lemma product_card_total (p : product) :
  match product_card p with
  | Ok c =>
      good_product p = true
      /\ card_name c = name p
      /\ card_product_id c = pid p
      /\ exists q, encodeURIComponent (name p) = Ok q
                   /\ card_amazonUrl c = amazon_search ++ q
  | Throw e =>
      good_product p = false
      /\ e = (if well_paired (name p)
              then if bad_rating p then RangeError else TypeError
              else URIError)
  end.
Proof.
  unfold product_card, good_product.
  pose proof (encodeURIComponent_total (name p)) as E.
  destruct (encodeURIComponent (name p)) as [q|e].
  - rewrite E. cbn [bind].
    destruct (getProductDetails_outcome p) as [s Hs]. rewrite Hs.
    destruct (bad_rating p); cbn [bind andb negb].
    + split; reflexivity.
    + destruct (description p) as [d|]; cbn [bind].
      * repeat split. exists q. split; reflexivity.
      * split; reflexivity.
  - destruct E as [-> ->]. cbn [bind]. split; reflexivity.
Qed.

Lemma cards_of_good (ps : list product) :
  Forall (fun p => good_product p = true) ps ->
  exists cs, cards_of ps = Ok cs
             /\ map card_name cs = map name ps
             /\ map card_product_id cs = map pid ps.
Proof.
  induction 1 as [|p ps Hp _ (cs & E & N & I)].
  - exists []. repeat split.
  - pose proof (product_card_total p) as T. simpl.
    destruct (product_card p) as [c|e].
    + destruct T as (_ & Tn & Ti & _). rewrite E. cbn [bind].
      exists (c :: cs). simpl. rewrite Tn, Ti, N, I. repeat split.
    + destruct T as [T _]. congruence.
Qed.

(** Every card is built exactly when every product is good, and the
    cards then carry the names and the ids of the products, in their
    order. *)
Lemma cards_until_good (ps : list product) :
  (snd (cards_until ps) = None <-> forallb good_product ps = true)
  /\ (snd (cards_until ps) = None ->
      map card_name (fst (cards_until ps)) = map name ps
      /\ map card_product_id (fst (cards_until ps)) = map pid ps).
Proof.
  induction ps as [|p ps [[I1 I2] I3]]; simpl.
  - repeat split.
  - pose proof (product_card_total p) as T.
    destruct (product_card p) as [c|e].
    + destruct T as (G & Tn & Ti & _). rewrite G. cbn [andb].
      destruct (cards_until ps) as [cs o]. simpl in *.
      split; [split; assumption|].
      intros H. destruct (I3 H) as [N I]. rewrite Tn, Ti, N, I.
      split; reflexivity.
    + destruct T as [G _]. rewrite G. simpl.
      split; [split; discriminate | discriminate].
Qed.

Lemma handleResponseData_none (d : payload) (w : world) :
  products d = None \/ products d = Some [] ->
  handleResponseData d w =
    match product_ d with
    | Some p => displayProducts [p] w
    | None =>
        match order d with
        | Some o => (Ok tt, emit (ConsoleLog o) w)
        | None => (Ok tt, on_dom (set_carousel_hidden true) w)
        end
    end.
Proof.
  unfold handleResponseData, products_populated.
  intros [-> | ->]; reflexivity.
Qed.

Lemma displayProducts_rendered (ps : list product) (w : world) :
  rendered ps w (displayProducts ps w).
Proof.
  destruct (displayProducts_until ps w) as (F & C & H & _).
  destruct (displayProducts_frame ps w) as (Ch & _ & L).
  unfold rendered. rewrite C, Ch, L, F, H.
  destruct (snd (cards_until ps)); repeat split.
Qed.

(** C4, as the code has it: [handleResponseData] takes exactly one of
    four ways, in this order. A products list that is not empty is
    rendered as the carousel; failing that, a single product is rendered
    as a carousel of one; failing that, an order is logged and the page is
    left as it is; failing all three, the carousel is hidden and keeps its
    cards. With a products list that is not empty, the product and the
    order have no influence. A rendering puts the cards of the products
    into the carousel up to the first product whose card throws: it shows
    the carousel when there is none, and it throws what the card throws,
    leaving the carousel as visible as it was, when there is one. No card
    throws exactly when every product has a name without a lone
    surrogate, no bad rating and a description, and the cards then carry
    the names and the ids of the products in their order. *)
Theorem handleResponseData_amended (d : payload) (w : world) :
  (forall q qs, products d = Some (q :: qs) ->
     rendered (q :: qs) w (handleResponseData d w))
  /\ (forall q, products d = None \/ products d = Some [] ->
        product_ d = Some q ->
        rendered [q] w (handleResponseData d w))
  /\ (forall o, products d = None \/ products d = Some [] ->
        product_ d = None -> order d = Some o ->
        fst (handleResponseData d w) = Ok tt
        /\ log (snd (handleResponseData d w)) = log w ++ [ConsoleLog o]
        /\ dom (snd (handleResponseData d w)) = dom w)
  /\ (products d = None \/ products d = Some [] ->
      product_ d = None -> order d = None ->
      fst (handleResponseData d w) = Ok tt
      /\ carousel_hidden (dom (snd (handleResponseData d w))) = true
      /\ carousel (dom (snd (handleResponseData d w))) = carousel (dom w)
      /\ chat (dom (snd (handleResponseData d w))) = chat (dom w)
      /\ log (snd (handleResponseData d w)) = log w)
  /\ (forall q qs pr o pr' o',
        handleResponseData
          {| products := Some (q :: qs); product_ := pr; order := o |} w =
        handleResponseData
          {| products := Some (q :: qs); product_ := pr'; order := o' |} w)
  /\ (forall ps,
        (snd (cards_until ps) = None <-> forallb good_product ps = true)
        /\ (snd (cards_until ps) = None ->
            map card_name (fst (cards_until ps)) = map name ps
            /\ map card_product_id (fst (cards_until ps)) = map pid ps)).
Proof.
  split.
  { intros q qs H. unfold handleResponseData, products_populated.
    rewrite H. apply displayProducts_rendered. }
  split.
  { intros q H P. rewrite (handleResponseData_none d w H), P.
    apply displayProducts_rendered. }
  split.
  { intros o H P O. rewrite (handleResponseData_none d w H), P, O.
    open_world w. repeat split. }
  split.
  { intros H P O. rewrite (handleResponseData_none d w H), P, O.
    open_world w. repeat split. }
  split; [reflexivity|].
  exact cards_until_good.
Qed.

Lemma handleResponseData_amended_witness :
  exists c,
    carousel
      (dom (snd (handleResponseData
                   {| products := Some [speaker]; product_ := Some (rated 3);
                      order := Some order1 |} (initial session0)))) = [c]
    /\ card_priceLabel c = js "$80.00"
    /\ carousel_hidden
         (dom (snd (handleResponseData
                      {| products := Some [speaker]; product_ := Some (rated 3);
                         order := Some order1 |} (initial session0)))) = false.
Proof.
  destruct (handleResponseData_amended
              {| products := Some [speaker]; product_ := Some (rated 3);
                 order := Some order1 |} (initial session0))
    as (P & _).
  destruct (P speaker [] eq_refl) as (C & _ & _ & H).
  destruct (cards_until [speaker]) as [cs o] eqn:E.
  vm_compute in E. injection E as <- <-. cbn [fst snd] in *.
  eexists. split; [exact C|]. split; [reflexivity | exact (proj2 H)].
Defined.

(** C4 as stated fails: a products list whose only product is rated 7
    is not rendered. The rating line asks for a negative number of empty
    stars, the handler throws a RangeError, and the carousel stays empty
    and hidden. *)
Lemma handleResponseData_bad_rating :
  products_populated
    {| products := Some [rated 7]; product_ := None; order := None |} = true
  /\ fst (handleResponseData
            {| products := Some [rated 7]; product_ := None; order := None |}
            (initial session0)) = Throw RangeError
  /\ carousel
       (dom (snd (handleResponseData
                    {| products := Some [rated 7]; product_ := None;
                       order := None |} (initial session0)))) = []
  /\ carousel_hidden
       (dom (snd (handleResponseData
                    {| products := Some [rated 7]; product_ := None;
                       order := None |} (initial session0)))) = true.
Proof. vm_compute. repeat split. Qed.

(** X10: For products whose names have no lone surrogate, whose ratings
    are not bad and which have a description, [displayProducts] does not
    throw: it replaces the carousel by one card per product, in the order
    of the products, shows it and gives the Details buttons their click
    listener. *)
Theorem displayProducts_renders (ps : list product) (w : world) :
  Forall (fun p => good_product p = true) ps ->
  fst (displayProducts ps w) = Ok tt
  /\ map card_name (carousel (dom (snd (displayProducts ps w)))) = map name ps
  /\ map card_product_id (carousel (dom (snd (displayProducts ps w))))
     = map pid ps
  /\ carousel_hidden (dom (snd (displayProducts ps w))) = false
  /\ details_listening (dom (snd (displayProducts ps w))) = true.
Proof.
  intros H.
  assert (G : snd (cards_until ps) = None).
  { apply (proj1 (cards_until_good ps)). apply forallb_forall.
    intros p Hp. exact (proj1 (Forall_forall _ ps) H p Hp). }
  destruct (proj2 (cards_until_good ps) G) as [N I].
  destruct (displayProducts_until ps w) as (F & C & Hd & L).
  rewrite F, C, Hd, L, G. repeat split; assumption.
Qed.

Lemma displayProducts_renders_witness :
  map card_name
    (carousel (dom (snd (displayProducts [speaker; rated 3] (initial session0)))))
  = [js "Speaker"; js "Lamp"]
  /\ details_listening
       (dom (snd (displayProducts [speaker; rated 3] (initial session0))))
     = true.
Proof.
  destruct (displayProducts_renders [speaker; rated 3] (initial session0))
    as (_ & N & _ & _ & L).
  { repeat constructor. }
  split; [exact N | exact L].
Defined.

Lemma url_safe_plain (u : N) :
  url_safe u = true ->
  u <> 34%N /\ u <> 60%N /\ u <> 62%N /\ u <> 38%N /\ u <> 32%N.
Proof.
  intros H. repeat split; intros ->; vm_compute in H; discriminate H.
Qed.

(** X11: The search link of a card is the search address followed by
    unreserved characters (letters, digits and the marks - _ . ! ~ * ' and
    the two parentheses) and percent escapes only, whatever the name of
    the product: no double quote, angle bracket, ampersand or space of a
    name reaches the link, so that the name cannot end the attribute the
    link is written in. An apostrophe of the name does reach it. *)
Theorem card_link_safe (p : product) (c : card) :
  Forall (fun u => (u < 65536)%N) (name p) ->
  product_card p = Ok c ->
  exists q, card_amazonUrl c = amazon_search ++ q
            /\ encodeURIComponent (name p) = Ok q
            /\ Forall (fun u => url_safe u = true) q
            /\ Forall (fun u => u <> 34%N /\ u <> 60%N /\ u <> 62%N
                                /\ u <> 38%N /\ u <> 32%N) q
            /\ encodeURIComponent (js "O'Neil") = Ok (js "O'Neil").
Proof.
  intros B H. pose proof (product_card_total p) as T. rewrite H in T.
  destruct T as (_ & _ & _ & q & E & U).
  exists q. split; [exact U|]. split; [exact E|].
  pose proof (encodeURIComponent_safe _ _ B E) as S.
  split; [exact S|]. split; [|reflexivity].
  eapply Forall_impl; [|exact S]. exact url_safe_plain.
Qed.

Lemma card_link_safe_witness :
  exists c q, product_card speaker = Ok c
              /\ card_amazonUrl c = amazon_search ++ q
              /\ Forall (fun u => url_safe u = true) q.
Proof.
  destruct (product_card speaker) as [c|e] eqn:E; [|discriminate E].
  destruct (card_link_safe speaker c) as (q & U & _ & S & _).
  - repeat constructor.
  - exact E.
  - exists c, q. repeat split; assumption.
Defined.

Lemma cards_until_throw (ps1 ps2 : list product) (p : product)
    (cs : list card) (e : exn) :
  cards_of ps1 = Ok cs -> product_card p = Throw e ->
  cards_until (ps1 ++ p :: ps2) = (cs, Some e).
Proof.
  revert cs. induction ps1 as [|p1 ps1 IH]; intros cs H Hp; simpl in *.
  - injection H as <-. rewrite Hp. reflexivity.
  - destruct (product_card p1) as [c|e1]; [|discriminate H]. simpl in H.
    destruct (cards_of ps1) as [cs'|e1]; [|discriminate H]. simpl in H.
    injection H as <-. rewrite (IH cs' eq_refl Hp). reflexivity.
Qed.

Lemma handleResponseData_shown (d : payload) (w : world) :
  shown_products d <> [] ->
  handleResponseData d w = displayProducts (shown_products d) w.
Proof.
  unfold handleResponseData, shown_products.
  destruct (products_populated d); [reflexivity|].
  destruct (product_ d); [reflexivity|]. contradiction.
Qed.

Lemma removeTypingIndicator_carousel (w : world) :
  carousel (dom (removeTypingIndicator w)) = carousel (dom w)
  /\ carousel_hidden (dom (removeTypingIndicator w)) = carousel_hidden (dom w)
  /\ details_listening (dom (removeTypingIndicator w))
     = details_listening (dom w).
Proof.
  unfold removeTypingIndicator.
  destruct (existsb is_typing (chat (dom w))); open_world w;
    repeat split; reflexivity.
Qed.

Lemma on_error_carousel (c : chain) (w : world) :
  carousel (dom (on_error c w)) = carousel (dom w)
  /\ carousel_hidden (dom (on_error c w)) = carousel_hidden (dom w)
  /\ details_listening (dom (on_error c w)) = details_listening (dom w).
Proof.
  unfold on_error.
  destruct (removeTypingIndicator_carousel (emit ConsoleError w)) as (C & H & L).
  set (w1 := removeTypingIndicator (emit ConsoleError w)) in *.
  assert (E : carousel (dom (addMessageToChat bot (apology c) w1))
              = carousel (dom w1)
              /\ carousel_hidden (dom (addMessageToChat bot (apology c) w1))
                 = carousel_hidden (dom w1)
              /\ details_listening (dom (addMessageToChat bot (apology c) w1))
                 = details_listening (dom w1))
    by (open_world w1; repeat split; reflexivity).
  destruct E as (-> & -> & ->). rewrite C, H, L.
  open_world w. repeat split; reflexivity.
Qed.

(** X12: In a page that holds no foreign markup: when a card of a reply
    throws (a name with a lone surrogate, a bad rating, no description),
    the success handler has already removed the first indicator and shown
    the reply; the catch then removes one more indicator, if there is one,
    and adds the apology after the reply. The carousel is left with the
    cards built before the failing one, is not shown or hidden, and the
    Details buttons of these cards have no listener. *)
Theorem failing_card_after_reply (c : chain) (w : world) (r : reply)
    (d : payload) (text : jsstring) (ps1 ps2 : list product) (p : product)
    (cs : list card) (e : exn) :
  shown_text c r = Ok text ->
  data r = Some d ->
  shown_products d = ps1 ++ p :: ps2 ->
  cards_of ps1 = Ok cs ->
  product_card p = Throw e ->
  foreign_markup (dom (settle c (Response true (Some r)) w)) = false ->
  chat (dom (settle c (Response true (Some r)) w)) =
    remove_first_typing (remove_first_typing (chat (dom w)))
      ++ [bot_node text; bot_node (apology c)]
  /\ carousel (dom (settle c (Response true (Some r)) w)) = cs
  /\ carousel_hidden (dom (settle c (Response true (Some r)) w))
     = carousel_hidden (dom w)
  /\ details_listening (dom (settle c (Response true (Some r)) w)) = false.
Proof.
  intros Ht Hd Hs Hc Hp _. cbn [settle]. unfold on_reply.
  rewrite Ht, Hd.
  set (w2 := note_markup _ (addMessageToChat bot text (removeTypingIndicator w))).
  rewrite handleResponseData_shown by (rewrite Hs; destruct ps1; discriminate).
  rewrite Hs.
  destruct (displayProducts_until (ps1 ++ p :: ps2) w2) as (F & C & H & L).
  destruct (displayProducts_frame (ps1 ++ p :: ps2) w2) as (Ch & _ & _).
  rewrite (cards_until_throw ps1 ps2 p cs e Hc Hp) in F, C, H, L.
  cbn [fst snd] in F, C, H, L.
  destruct (displayProducts (ps1 ++ p :: ps2) w2) as [res w3].
  cbn [fst snd] in *. subst res.
  assert (C2 : chat (dom w2) =
               remove_first_typing (chat (dom w)) ++ [bot_node text]).
  { subst w2. rewrite noted_message_chat, removeTypingIndicator_chat.
    reflexivity. }
  assert (K2 : carousel_hidden (dom w2) = carousel_hidden (dom w)).
  { subst w2. destruct (removeTypingIndicator_carousel w) as (_ & H2 & _).
    destruct (removeTypingIndicator w) as [[] ? ? ? ? ?]. exact H2. }
  destruct (on_error_effect c w3) as (Ce & _).
  destruct (on_error_carousel c w3) as (K & Hh & Ll).
  split.
  - rewrite Ce, Ch, C2, remove_first_typing_snoc by reflexivity.
    rewrite <- app_assoc. unfold bot_node.
    rewrite br_newlines_apology. reflexivity.
  - rewrite K, Hh, Ll, C, H, L, K2. repeat split.
Qed.

Lemma failing_card_after_reply_witness :
  chat (dom (settle PlainChain (Response true (Some two_products)) sending)) =
    [welcome; MessageNode user (js "<p>hi</p>");
     bot_node (js "Here you are"); bot_node apology_plain]
  /\ length (carousel (dom (settle PlainChain (Response true (Some two_products))
                              sending))) = 1%nat.
Proof.
  assert (Hc : exists cs, cards_of [speaker] = Ok cs /\ length cs = 1%nat).
  { destruct (cards_of [speaker]) as [cs|e] eqn:E; [|discriminate E].
    exists cs. split; [reflexivity|].
    vm_compute in E. injection E as <-. reflexivity. }
  destruct Hc as (cs & Hc & Hl).
  assert (Ht : shown_text PlainChain two_products = Ok (js "Here you are"))
    by (vm_compute; reflexivity).
  assert (Hp : product_card (rated 7) = Throw RangeError)
    by (vm_compute; reflexivity).
  assert (Hm : foreign_markup
                 (dom (settle PlainChain (Response true (Some two_products))
                         sending)) = false)
    by (vm_compute; reflexivity).
  pose proof (failing_card_after_reply PlainChain sending two_products _
                (js "Here you are") [speaker] [] (rated 7) cs RangeError
                Ht eq_refl eq_refl Hc Hp Hm) as (C & K & _).
  split; [rewrite C; vm_compute; reflexivity | rewrite K; exact Hl].
Defined.

(** ** Staging an image *)








(** X14: The read of a preview is not cancelled when the attachment is
    removed: when it completes afterwards, the image preview is shown with
    the data of the removed file, although the slot is empty and the notice
    is hidden. *)
Theorem preview_outlives_attachment (w : world) (f : file) :
  startsWith (js "image/") (file_type f) = true ->
  fresh_ids w ->
  let w' := run [FileChange (Some f); RemoveFileClick; ReaderLoad (next_id w)] w in
  currentAttachment (dom w') = None
  /\ filePreview_hidden (dom w') = true
  /\ imagePreview_hidden (dom w') = false
  /\ imagePreview_src (dom w') = file_dataURL f
  /\ userInput (dom w') = [].
Proof.
  intros Ht Hf. cbv zeta. unfold run. cbn [fold_left].
  set (w1 := step (FileChange (Some f)) w).
  assert (R1 : readers w1 = readers w ++ [(next_id w, PreviewRead f)]).
  { unfold w1. cbn [step]. unfold handleFileUpload. rewrite Ht.
    open_world w. reflexivity. }
  set (w2 := step RemoveFileClick w1).
  assert (R2 : readers w2 = readers w ++ [(next_id w, PreviewRead f)]
               /\ currentAttachment (dom w2) = None
               /\ filePreview_hidden (dom w2) = true
               /\ userInput (dom w2) = []).
  { unfold w2. cbn [step]. unfold removeAttachment. rewrite <- R1.
    destruct w1 as [[] ? ? ? ? ?]. repeat split; reflexivity. }
  destruct R2 as (R2 & A2 & P2 & U2).
  cbn [step]. rewrite R2.
  rewrite (lookup_app_new _ _ _ (lookup_fresh _ _ Hf)).
  destruct w2 as [[] ? ? ? ? ?]. cbn in *. subst.
  repeat split; reflexivity.
Qed.

Lemma preview_outlives_attachment_witness :
  imagePreview_hidden
    (dom (run [FileChange (Some cat_png); RemoveFileClick; ReaderLoad 0]
              (initial session0))) = false
  /\ currentAttachment
       (dom (run [FileChange (Some cat_png); RemoveFileClick; ReaderLoad 0]
                 (initial session0))) = None.
Proof.
  assert (Ht : startsWith (js "image/") (file_type cat_png) = true)
    by reflexivity.
  assert (Hf : fresh_ids (initial session0)) by constructor.
  destruct (preview_outlives_attachment (initial session0) cat_png Ht Hf)
    as (A & _ & P & _).
  split; [exact P | exact A].
Defined.

(** ** The Details button of a card *)




(** A click on a Details button does nothing or what typing the
    question and submitting it does: what holds after every sequence of
    events holds with such clicks among them. *)
Lemma details_click_as_events (i : nat) (w : world) :
  details_click i w = w
  \/ exists text, details_click i w = run [Typed text; Submit] w.
Proof.
  unfold details_click.
  destruct (nth_error (carousel (dom w)) i) as [c|]; [|left; reflexivity].
  destruct (details_listening (dom w)); [|left; reflexivity].
  right. eexists. reflexivity.
Qed.




(** ** What the linkifier can throw *)

Lemma plus_lazy_inv (p : N -> bool) (k : option N -> jsstring -> option found)
    (s : jsstring) (x : found) :
  plus_lazy p k s = Some x ->
  exists a c b, s = a ++ c :: b
                /\ Forall (fun d => p d = true) (a ++ [c])
                /\ k (Some c) b = Some x.
Proof.
  induction s as [|d s IH]; cbn [plus_lazy]; [discriminate|].
  destruct (p d) eqn:Hd; [|discriminate].
  destruct (k (Some d) s) as [r|] eqn:Hk.
  - intros H. injection H as <-. exists [], d, s.
    repeat split; [repeat constructor; exact Hd | exact Hk].
  - intros H. destruct (IH H) as (a & c & b & -> & Hall & Hkc).
    exists (d :: a), c, b. repeat split; [|exact Hkc].
    constructor; [exact Hd | exact Hall].
Qed.

Lemma plus_greedy_inv (p : N -> bool) (k : option N -> jsstring -> option found)
    (s : jsstring) (x : found) :
  plus_greedy p k s = Some x ->
  exists a c b, s = a ++ c :: b
                /\ Forall (fun d => p d = true) (a ++ [c])
                /\ k (Some c) b = Some x.
Proof.
  induction s as [|d s IH]; cbn [plus_greedy]; [discriminate|].
  destruct (p d) eqn:Hd; [|discriminate].
  destruct (plus_greedy p k s) as [r|] eqn:Hg.
  - intros H. injection H as <-.
    destruct (IH eq_refl) as (a & c & b & -> & Hall & Hkc).
    exists (d :: a), c, b. repeat split; [|exact Hkc].
    constructor; [exact Hd | exact Hall].
  - intros H. exists [], d, s.
    repeat split; [repeat constructor; exact Hd | exact H].
Qed.

(** A match of a pattern without groups goes on with the captures it
    started with. *)
Lemma rmatch_group_free (r : regex) :
  group_free r = true ->
  forall prev s cs k x,
    rmatch r prev s cs k = Some x ->
    exists prev' s', k prev' s' cs = Some x.
Proof.
  induction r as [|p|r1 IH1 r2 IH2|r1 IH1 r2 IH2|r1 IH1|g p|i r1 IH1| |];
    cbn [group_free]; intros G prev s cs k x H; cbn [rmatch] in H.
  - eauto.
  - destruct s as [|c s']; [discriminate|].
    destruct (p c); [eauto | discriminate].
  - apply andb_true_iff in G. destruct G as [G1 G2].
    destruct (IH1 G1 _ _ _ _ _ H) as (prev' & s' & H').
    exact (IH2 G2 _ _ _ _ _ H').
  - apply andb_true_iff in G. destruct G as [G1 G2].
    destruct (rmatch r1 prev s cs k) as [y|] eqn:E.
    + injection H as <-. exact (IH1 G1 _ _ _ _ _ E).
    + exact (IH2 G2 _ _ _ _ _ H).
  - destruct (rmatch r1 prev s cs k) as [y|] eqn:E.
    + injection H as <-. exact (IH1 G _ _ _ _ _ E).
    + eauto.
  - destruct g.
    + apply plus_greedy_inv in H. destruct H as (a & c & b & _ & _ & H). eauto.
    + apply plus_lazy_inv in H. destruct H as (a & c & b & _ & _ & H). eauto.
  - discriminate G.
  - destruct (xorb _ _); [eauto | discriminate].
  - destruct s; [eauto | discriminate].
Qed.

Lemma firstn_sub_app {A} (a b : list A) :
  firstn (length (a ++ b) - length b) (a ++ b) = a.
Proof.
  rewrite length_app, Nat.add_sub, firstn_app, Nat.sub_diag, firstn_all.
  cbn [firstn]. apply app_nil_r.
Qed.

(** A match of the quoted pattern: a quote, the span of the second
    group, a quote. *)
Lemma match_at_quoted (prev : option N) (s : jsstring) (cs : captures)
    (rest : jsstring) :
  match_at re_quoted prev s = Some (cs, rest) ->
  exists q1 p2 q3,
    s = q1 :: p2 ++ q3 :: rest
    /\ is_quote q1 = true /\ is_quote q3 = true
    /\ cap 2 cs = Some p2.
Proof.
  unfold match_at, re_quoted. cbn [rmatch].
  destruct s as [|q1 s1]; [discriminate|].
  destruct (is_quote q1) eqn:H1; [|discriminate].
  intros H. apply plus_lazy_inv in H.
  destruct H as (a & c & b & -> & _ & H).
  destruct b as [|q3 b]; [discriminate|].
  destruct (is_quote q3) eqn:H3; [|discriminate].
  injection H as <- <-.
  exists q1, (a ++ [c]), q3.
  rewrite <- app_assoc. cbn [app].
  repeat split; [exact H1 | exact H3 |].
  cbn [cap Nat.eqb]. f_equal.
  change (a ++ c :: q3 :: b) with (a ++ [c] ++ q3 :: b).
  rewrite app_assoc. exact (firstn_sub_app (a ++ [c]) (q3 :: b)).
Qed.

Lemma quote_not_surrogate (c : N) :
  is_quote c = true -> is_low_surrogate c = false /\ is_high_surrogate c = false.
Proof.
  unfold is_quote, is_low_surrogate, is_high_surrogate. intros H.
  apply orb_true_iff in H.
  destruct H as [H|H]; apply N.eqb_eq in H; subst c; split; reflexivity.
Qed.

Lemma well_paired_split (c : N) (z : jsstring) :
  is_low_surrogate c = false -> is_high_surrogate c = false ->
  forall x, well_paired (x ++ c :: z) = true ->
            well_paired x = true /\ well_paired z = true.
Proof.
  intros Hl Hh.
  assert (G : forall n x, (length x <= n)%nat ->
                well_paired (x ++ c :: z) = true ->
                well_paired x = true /\ well_paired z = true).
  { induction n as [|n IH]; intros x Hn H.
    - destruct x; [|simpl in Hn; lia].
      cbn [app well_paired] in H. rewrite Hl, Hh in H.
      split; [reflexivity | exact H].
    - destruct x as [|d x].
      + cbn [app well_paired] in H. rewrite Hl, Hh in H.
        split; [reflexivity | exact H].
      + cbn [app well_paired] in H. cbn [well_paired].
        destruct (is_low_surrogate d); [discriminate H|].
        destruct (is_high_surrogate d).
        * destruct x as [|e x]; cbn [app] in H.
          -- rewrite Hl in H. discriminate H.
          -- apply andb_true_iff in H. destruct H as [He H].
             rewrite He. cbn [andb]. apply (IH x); [simpl in Hn; lia | exact H].
        * apply (IH x); [simpl in Hn; lia | exact H]. }
  intros x. apply (G (length x)). apply Nat.le_refl.
Qed.

Lemma encodeURIComponent_ok (s : jsstring) :
  well_paired s = true -> exists q, encodeURIComponent s = Ok q.
Proof.
  intros H. pose proof (encodeURIComponent_total s) as T.
  destruct (encodeURIComponent s) as [q|e]; [eauto|].
  destruct T as [_ T]. congruence.
Qed.

(** A global [replace] throws only where its callback does. *)
Lemma replace_from_ok (r : regex)
    (f : jsstring -> captures -> result jsstring) (s : jsstring) :
  forall prev skip,
    (forall x prev' s' cs rest,
        s = x ++ s' -> match_at r prev' s' = Some (cs, rest) ->
        exists o, f (firstn (length s' - length rest) s') cs = Ok o) ->
    exists out, replace_from r f prev skip s = Ok out.
Proof.
  induction s as [|c s IH]; intros prev skip H.
  - destruct skip as [|n]; cbn [replace_from]; [|eauto].
    destruct (match_at r prev []) as [[cs rest]|] eqn:E; [|eauto].
    destruct (H [] prev [] cs rest eq_refl E) as [o Ho].
    rewrite Ho. cbn [bind]. eauto.
  - assert (H' : forall x prev' s' cs rest,
               s = x ++ s' -> match_at r prev' s' = Some (cs, rest) ->
               exists o, f (firstn (length s' - length rest) s') cs = Ok o).
    { intros x prev' s' cs rest -> E.
      exact (H (c :: x) prev' s' cs rest eq_refl E). }
    destruct skip as [|n]; cbn [replace_from]; [|exact (IH _ _ H')].
    destruct (match_at r prev (c :: s)) as [[cs rest]|] eqn:E.
    + destruct (H [] prev (c :: s) cs rest eq_refl E) as [o Ho].
      rewrite Ho. cbn [bind].
      destruct (firstn (length (c :: s) - length rest) (c :: s)) as [|x m'].
      * destruct (IH (Some c) 0%nat H') as [t Et]. rewrite Et. cbn [bind]. eauto.
      * destruct (IH (Some c) (length m') H') as [t Et].
        rewrite Et. cbn [bind]. eauto.
    + destruct (IH (Some c) 0%nat H') as [t Et]. rewrite Et. cbn [bind]. eauto.
Qed.

(** The first pass throws only on a message with a lone surrogate. *)
Lemma pass_quoted_ok (m : jsstring) :
  well_paired m = true -> exists m1, pass_quoted m = Ok m1.
Proof.
  intros W. unfold pass_quoted, replace_all. apply replace_from_ok.
  intros x prev' s' cs rest -> E.
  destruct (match_at_quoted _ _ _ _ E) as (q1 & p2 & q3 & -> & H1 & H3 & C).
  unfold link_quoted. rewrite C. cbn [or_empty].
  destruct (regex_test re_keywords p2); [|eauto].
  destruct (quote_not_surrogate q1 H1) as [L1 G1].
  destruct (quote_not_surrogate q3 H3) as [L3 G3].
  destruct (well_paired_split q1 _ L1 G1 x W) as [_ W1].
  destruct (well_paired_split q3 _ L3 G3 p2 W1) as [W2 _].
  destruct (encodeURIComponent_ok p2 W2) as [q Hq].
  rewrite Hq. cbn [bind]. eauto.
Qed.

Lemma generic_tail (B : regex) (cs0 : captures) (prev : option N)
    (s : jsstring) (cs : captures) (rest : jsstring) :
  group_free B = true ->
  rmatch (Seq (Group 2 (Plus false word_or_space)) (Seq (Group 3 B) WordB))
         prev s cs0 (fun _ s' cs' => Some (cs', s')) = Some (cs, rest) ->
  exists p, cap 2 cs = Some p /\ Forall (fun c => word_or_space c = true) p.
Proof.
  intros G H. cbn [rmatch] in H.
  apply plus_lazy_inv in H. destruct H as (a & c & b & -> & Hall & H).
  apply (rmatch_group_free B G) in H. destruct H as (prev' & s' & H).
  destruct (xorb _ _); [|discriminate].
  injection H as <- <-.
  exists (a ++ [c]). split; [|exact Hall].
  cbn [cap Nat.eqb]. f_equal.
  change (a ++ c :: b) with (a ++ [c] ++ b).
  rewrite app_assoc. exact (firstn_sub_app (a ++ [c]) b).
Qed.

(** In a match of the product-noun pattern the second group holds
    word characters and white space only. *)
Lemma match_at_generic (prev : option N) (s : jsstring) (cs : captures)
    (rest : jsstring) :
  match_at re_generic prev s = Some (cs, rest) ->
  exists p, cap 2 cs = Some p /\ Forall (fun c => word_or_space c = true) p.
Proof.
  unfold match_at, re_generic.
  change (fun c : N => is_word c || is_space c) with word_or_space.
  set (A := alts (map (lit true) ["the "; "a "; "an "]%string)).
  set (B := alts (map (lit true)
                    [" product"; " device"; " gadget"; " item"]%string)).
  assert (GA : group_free A = true) by reflexivity.
  assert (GB : group_free B = true) by reflexivity.
  clearbody A B.
  remember (Seq (Group 2 (Plus false word_or_space)) (Seq (Group 3 B) WordB))
    as T eqn:ET.
  intros H. cbn [rmatch] in H.
  destruct (xorb _ _); [|discriminate].
  match type of H with
  | match ?M with _ => _ end = _ => destruct M as [y|] eqn:E
  end.
  - injection H as ->.
    apply (rmatch_group_free A GA) in E. destruct E as (prev' & s' & E).
    subst T. exact (generic_tail B _ _ _ _ _ GB E).
  - subst T. exact (generic_tail B _ _ _ _ _ GB H).
Qed.

Lemma word_or_space_not_surrogate (c : N) :
  word_or_space c = true ->
  is_low_surrogate c = false /\ is_high_surrogate c = false.
Proof.
  unfold word_or_space, is_word, is_space, is_digit, is_upper, is_lower,
    is_low_surrogate, is_high_surrogate.
  intros H.
  rewrite ?orb_true_iff, ?andb_true_iff, ?N.leb_le, ?N.eqb_eq in H.
  rewrite !andb_false_iff, !N.leb_gt. lia.
Qed.

Lemma word_or_space_well_paired (p : jsstring) :
  Forall (fun c => word_or_space c = true) p -> well_paired p = true.
Proof.
  induction 1 as [|c p Hc _ IH]; [reflexivity|].
  cbn [well_paired].
  destruct (word_or_space_not_surrogate c Hc) as [-> ->]. exact IH.
Qed.

Lemma Forall_trimStart (P : N -> Prop) (s : jsstring) :
  Forall P s -> Forall P (trimStart s).
Proof.
  induction 1 as [|c s Hc Hs IH]; cbn [trimStart]; [constructor|].
  destruct (is_space c); [exact IH | constructor; assumption].
Qed.

Lemma Forall_trim (P : N -> Prop) (s : jsstring) :
  Forall P s -> Forall P (trim s).
Proof.
  intros H. unfold trim, trimEnd.
  apply Forall_rev, Forall_trimStart, Forall_rev, Forall_trimStart, H.
Qed.

(** The second pass never throws. *)
Lemma pass_generic_ok (m : jsstring) : exists out, pass_generic m = Ok out.
Proof.
  unfold pass_generic, replace_all. apply replace_from_ok.
  intros x prev' s' cs rest _ E.
  destruct (match_at_generic _ _ _ _ E) as (p & C & Hp).
  unfold link_generic. rewrite C. cbn [or_empty].
  destruct (3 <? length p)%nat; [|eauto].
  destruct (encodeURIComponent_ok (trim p)) as [q Hq].
  { apply word_or_space_well_paired, Forall_trim, Hp. }
  rewrite Hq. cbn [bind]. eauto.
Qed.

(** X16: The linkifier throws only on a message with a surrogate that is
    not half of a pair: on every other message it returns a text, and its
    second pass returns one on every message. *)
Theorem formatMessageWithLinks_total (m : jsstring) :
  well_paired m = true ->
  (exists out, formatMessageWithLinks m = Ok out)
  /\ forall m1, exists out, pass_generic m1 = Ok out.
Proof.
  intros W. split; [|exact pass_generic_ok].
  unfold formatMessageWithLinks.
  destruct (pass_quoted_ok m W) as [m1 E]. rewrite E. cbn [bind].
  apply pass_generic_ok.
Qed.

Lemma formatMessageWithLinks_total_witness :
  exists out, formatMessageWithLinks (js "Try the 'phone' item") = Ok out.
Proof.
  assert (W : well_paired (js "Try the 'phone' item") = true)
    by (vm_compute; reflexivity).
  exact (proj1 (formatMessageWithLinks_total _ W)).
Defined.

(** ** A reply that is rendered *)

Lemma handleResponseData_good (d : payload) (w : world) :
  Forall (fun p => good_product p = true) (shown_products d) ->
  fst (handleResponseData d w) = Ok tt
  /\ exists l, log (snd (handleResponseData d w)) = log w ++ l
               /\ ~ In ConsoleError l.
Proof.
  unfold handleResponseData, shown_products. intros H.
  assert (D : forall ps, Forall (fun p => good_product p = true) ps ->
              fst (displayProducts ps w) = Ok tt
              /\ exists l, log (snd (displayProducts ps w)) = log w ++ l
                           /\ ~ In ConsoleError l).
  { intros ps Hps. destruct (cards_of_good ps Hps) as (cs & E & _).
    destruct (displayProducts_frame ps w) as (_ & _ & L).
    rewrite (displayProducts_ok ps cs w E) in *. cbn [fst snd] in *.
    split; [reflexivity|]. exists []. rewrite app_nil_r.
    split; [open_world w; reflexivity | intros []]. }
  destruct (products_populated d); [exact (D _ H)|].
  destruct (product_ d) as [p|]; [exact (D _ H)|].
  destruct (order d) as [o|]; cbn [fst snd]; (split; [reflexivity|]).
  - exists [ConsoleLog o]. split; [open_world w; reflexivity|].
    intros [X|[]]. discriminate X.
  - exists []. rewrite app_nil_r. split; [open_world w; reflexivity | intros []].
Qed.

(** X17: In a page that holds no foreign markup, a successful reply
    whose message is a string without a lone surrogate and whose products
    all have a name without a lone surrogate, no bad rating and a
    description is rendered: the transcript loses its first indicator and
    gains one message, the text of the reply as its chain shows it, and no
    error is logged; the apology does not appear. *)
Theorem healthy_reply_rendered (c : chain) (w : world) (r : reply)
    (m : jsstring) :
  message r = Some m ->
  well_paired m = true ->
  Forall (fun p => good_product p = true)
         (match data r with
          | Some d => shown_products d
          | None => []
          end) ->
  foreign_markup (dom (settle c (Response true (Some r)) w)) = false ->
  exists text,
    shown_text c r = Ok text
    /\ chat (dom (settle c (Response true (Some r)) w))
       = remove_first_typing (chat (dom w)) ++ [bot_node text]
    /\ exists l, log (settle c (Response true (Some r)) w) = log w ++ l
                 /\ ~ In ConsoleError l.
Proof.
  intros M W G _.
  assert (T : exists text, shown_text c r = Ok text).
  { unfold shown_text. rewrite M. destruct c; [|eauto].
    unfold formatMessageWithLinks.
    destruct (pass_quoted_ok _ W) as [m1 E]. rewrite E. cbn [bind].
    apply pass_generic_ok. }
  destruct T as [text Ht]. exists text. split; [exact Ht|].
  cbn [settle]. unfold on_reply.
  rewrite Ht.
  set (w2 := note_markup _ (addMessageToChat bot text (removeTypingIndicator w))).
  assert (C2 : chat (dom w2)
               = remove_first_typing (chat (dom w)) ++ [bot_node text]).
  { unfold w2. rewrite noted_message_chat, removeTypingIndicator_chat.
    reflexivity. }
  assert (L2 : exists l, log w2 = log w ++ l /\ ~ In ConsoleError l).
  { unfold w2.
    destruct (noted_message_rest (opens_tag (or_empty (message r))) bot text
                (removeTypingIndicator w)) as (L & _).
    rewrite L, removeTypingIndicator_log.
    eexists. split; [reflexivity|].
    destruct (existsb is_typing (chat (dom w))); [intros [X|[]]; discriminate X
                                                 | intros []]. }
  destruct (data r) as [d|]; [|split; [exact C2 | exact L2]].
  destruct (handleResponseData_good d w2 G) as (F & l3 & L3 & N3).
  destruct (handleResponseData_frame d w2) as (C3 & _).
  destruct (handleResponseData d w2) as [[u|e] w3]; cbn [fst snd] in *;
    [|discriminate F].
  split; [rewrite C3; exact C2|].
  destruct L2 as (l2 & L2 & N2). exists (l2 ++ l3).
  rewrite L3, L2, app_assoc. split; [reflexivity|].
  intros X. apply in_app_or in X. destruct X; contradiction.
Qed.

Lemma healthy_reply_rendered_witness :
  exists text,
    chat (dom (settle PlainChain ok_reply sending))
    = remove_first_typing (chat (dom sending)) ++ [bot_node text].
Proof.
  assert (W : well_paired (js "ok") = true) by (vm_compute; reflexivity).
  assert (Hm : foreign_markup (dom (settle PlainChain ok_reply sending)) = false)
    by (vm_compute; reflexivity).
  destruct (healthy_reply_rendered PlainChain sending
              {| message := Some (js "ok"); data := None |} (js "ok")
              eq_refl W (Forall_nil _) Hm)
    as (text & _ & C & _).
  exists text. exact C.
Defined.

(** ** The spans between quotes *)

Lemma plus_lazy_first (p : N -> bool)
    (k : option N -> jsstring -> option found) (c : N) (b : jsstring)
    (r : found) :
  forall a,
    Forall (fun d => p d = true) (a ++ [c]) ->
    (forall a1 d a2, a = a1 ++ d :: a2 -> k (Some d) (a2 ++ c :: b) = None) ->
    k (Some c) b = Some r ->
    plus_lazy p k (a ++ c :: b) = Some r.
Proof.
  induction a as [|d a IH]; intros Hall Hk Hc; cbn [app plus_lazy].
  - inversion Hall as [|? ? Hp _]; subst. rewrite Hp, Hc. reflexivity.
  - inversion Hall as [|? ? Hp Hall']; subst.
    rewrite Hp, (Hk [] d a eq_refl).
    apply IH; [exact Hall' | | exact Hc].
    intros a1 e a2 ->. exact (Hk (d :: a1) e a2 eq_refl).
Qed.

Lemma match_at_quoted_miss (prev : option N) (c : N) (s : jsstring) :
  is_quote c = false -> match_at re_quoted prev (c :: s) = None.
Proof.
  intros H. unfold match_at, re_quoted. cbn [rmatch]. rewrite H. reflexivity.
Qed.

Lemma match_at_quoted_prev (prev : option N) (s : jsstring) :
  match_at re_quoted prev s = match_at re_quoted None s.
Proof. destruct s; reflexivity. Qed.

(** Between two quotes, a span without quotes that is not empty is
    matched from the first quote to the second. *)
Lemma match_at_quoted_span (prev : option N) (q1 q3 : N) (p2 y : jsstring) :
  is_quote q1 = true -> is_quote q3 = true ->
  p2 <> [] -> Forall (fun c => is_quote c = false) p2 ->
  match_at re_quoted prev (q1 :: p2 ++ q3 :: y)
  = Some ([(3%nat, [q3]); (2%nat, p2); (1%nat, [q1])], y).
Proof.
  intros H1 H3 Hne Hall.
  destruct (exists_last Hne) as (a & c & ->).
  unfold match_at, re_quoted. cbn [rmatch]. rewrite H1.
  rewrite <- app_assoc. cbn [app].
  apply plus_lazy_first.
  - apply Forall_impl with (2 := Hall). intros d Hd. rewrite Hd. reflexivity.
  - intros a1 d a2 ->. rewrite <- app_assoc in Hall.
    apply Forall_app in Hall. destruct Hall as [_ Hall].
    inversion Hall as [|? ? _ Hall2]; subst.
    destruct a2 as [|e a2]; cbn [app].
    + inversion Hall2 as [|? ? He _]; subst. rewrite He. reflexivity.
    + inversion Hall2 as [|? ? He _]; subst. rewrite He. reflexivity.
  - rewrite H3. do 3 f_equal.
    + f_equal. exact (firstn_sub_app [q3] y).
    + f_equal.
      * f_equal. change (a ++ c :: q3 :: y) with (a ++ [c] ++ q3 :: y).
        rewrite app_assoc. exact (firstn_sub_app (a ++ [c]) (q3 :: y)).
      * f_equal. f_equal. exact (firstn_sub_app [q1] (a ++ c :: q3 :: y)).
Qed.

Lemma replace_quoted_prev (f : jsstring -> captures -> result jsstring)
    (prev : option N) (skip : nat) (s : jsstring) :
  replace_from re_quoted f prev skip s = replace_from re_quoted f None skip s.
Proof.
  destruct s as [|c s]; destruct skip as [|n]; cbn [replace_from];
    try reflexivity; rewrite (match_at_quoted_prev prev); reflexivity.
Qed.

Lemma replace_quoted_skip (f : jsstring -> captures -> result jsstring)
    (y : jsstring) :
  forall z prev,
    replace_from re_quoted f prev (length z) (z ++ y)
    = replace_from re_quoted f None 0 y.
Proof.
  induction z as [|c z IH]; intros prev; cbn [length app].
  - apply replace_quoted_prev.
  - cbn [replace_from]. apply IH.
Qed.

Lemma replace_quoted_prefix (f : jsstring -> captures -> result jsstring)
    (s : jsstring) :
  forall x prev,
    Forall (fun c => is_quote c = false) x ->
    replace_from re_quoted f prev 0 (x ++ s)
    = (tail <- replace_from re_quoted f None 0 s ;; Ok (x ++ tail)).
Proof.
  induction x as [|c x IH]; intros prev Hx; cbn [app].
  - rewrite replace_quoted_prev.
    destruct (replace_from re_quoted f None 0 s); reflexivity.
  - inversion Hx as [|? ? Hc Hx']; subst.
    cbn [replace_from]. rewrite (match_at_quoted_miss _ _ _ Hc), (IH _ Hx').
    destruct (replace_from re_quoted f None 0 s); reflexivity.
Qed.

(** X18: The first pass, span by span: up to the first quote the message is
    left as it is; a span without quotes between that quote and the next
    one is replaced by its markup; and the rest of the message, after the
    closing quote, is handled in the same way on its own. *)
Theorem pass_quoted_span (x p2 y : jsstring) (q1 q3 : N) :
  Forall (fun c => is_quote c = false) x ->
  is_quote q1 = true -> is_quote q3 = true ->
  p2 <> [] -> Forall (fun c => is_quote c = false) p2 ->
  pass_quoted (x ++ q1 :: p2 ++ q3 :: y)
  = (out <- span_markup p2 ;;
     tail <- pass_quoted y ;;
     Ok (x ++ q1 :: out ++ q3 :: tail)).
Proof.
  intros Hx H1 H3 Hne Hp.
  unfold pass_quoted, replace_all.
  rewrite (replace_quoted_prefix _ _ x None Hx).
  cbn [replace_from].
  rewrite (match_at_quoted_span None q1 q3 p2 y H1 H3 Hne Hp).
  assert (M : firstn (length (q1 :: p2 ++ q3 :: y) - length y)
                (q1 :: p2 ++ q3 :: y) = q1 :: p2 ++ [q3]).
  { change (q1 :: p2 ++ q3 :: y) with ((q1 :: p2) ++ [q3] ++ y).
    rewrite app_assoc. exact (firstn_sub_app ((q1 :: p2) ++ [q3]) y). }
  assert (L : link_quoted (q1 :: p2 ++ [q3])
                [(3%nat, [q3]); (2%nat, p2); (1%nat, [q1])]
              = (out <- span_markup p2 ;; Ok ([q1] ++ out ++ [q3]))).
  { unfold link_quoted, span_markup. cbn [cap Nat.eqb or_empty].
    destruct (regex_test re_keywords p2); [|reflexivity].
    destruct (encodeURIComponent p2); reflexivity. }
  cbv beta iota zeta. rewrite M, L.
  destruct (span_markup p2) as [out|e]; cbn [bind]; [|reflexivity].
  change (p2 ++ q3 :: y) with (p2 ++ [q3] ++ y).
  rewrite app_assoc, replace_quoted_skip.
  destruct (replace_from re_quoted link_quoted None 0 y); cbn [bind];
    [|reflexivity].
  rewrite <- !app_assoc. reflexivity.
Qed.

Lemma pass_quoted_span_witness :
  pass_quoted (js "Try 'phone'")
  = Ok (js "Try '" ++ product_link (js "phone") (js "phone") ++ js "'").
Proof.
  assert (Hx : Forall (fun c => is_quote c = false) (js "Try "))
    by (repeat constructor).
  assert (Hp : Forall (fun c => is_quote c = false) (js "phone"))
    by (repeat constructor).
  assert (Hne : js "phone" <> []) by discriminate.
  assert (H1 : is_quote 39%N = true) by reflexivity.
  pose proof (pass_quoted_span (js "Try ") (js "phone") [] 39%N 39%N
                Hx H1 H1 Hne Hp) as E.
  exact E.
Defined.

(** ** Applying the linkifier again *)

(** A global [replace] whose callback gives a match back or puts a
    longer text in its place never shortens its input, and keeps its
    length only if the callback gave every match back. *)
Lemma replace_from_grows (r : regex)
    (f : jsstring -> captures -> result jsstring)
    (quiet : jsstring -> captures -> bool) :
  (forall prev s cs rest o,
      match_at r prev s = Some (cs, rest) ->
      f (firstn (length s - length rest) s) cs = Ok o ->
      if quiet (firstn (length s - length rest) s) cs
      then o = firstn (length s - length rest) s
      else (length (firstn (length s - length rest) s) < length o)%nat) ->
  forall s prev skip t,
    replace_from r f prev skip s = Ok t ->
    (length (skipn skip s) <= length t)%nat
    /\ ((length t <= length (skipn skip s))%nat ->
        forallb (fun x => quiet (fst x) (snd x)) (scan r prev skip s) = true).
Proof.
  intros Hf. induction s as [|c s IH]; intros prev skip t H.
  - destruct skip as [|n]; cbn [replace_from scan skipn] in *.
    + destruct (match_at r prev []) as [[cs rest]|] eqn:E.
      * destruct (f (firstn (length (@nil N) - length rest) []) cs) as [o|e] eqn:Fo;
          [|discriminate H].
        cbn [bind] in H. injection H as <-.
        pose proof (Hf _ _ _ _ _ E Fo) as Q.
        split; [simpl; lia|]. intros L. cbn [forallb fst snd].
        destruct (quiet _ cs); [reflexivity|].
        rewrite firstn_nil in Q. simpl in Q, L. lia.
      * injection H as <-. split; [simpl; lia | reflexivity].
    + injection H as <-. split; [simpl; lia | reflexivity].
  - destruct skip as [|n]; cbn [replace_from scan skipn] in *.
    + destruct (match_at r prev (c :: s)) as [[cs rest]|] eqn:E.
      * set (m := firstn (length (c :: s) - length rest) (c :: s)) in *.
        destruct (f m cs) as [o|e] eqn:Fo; [|discriminate H].
        cbn [bind] in H.
        pose proof (Hf _ _ _ _ _ E Fo) as Q. fold m in Q.
        destruct m as [|x m'] eqn:Em.
        -- destruct (replace_from r f (Some c) 0 s) as [tl|e] eqn:R;
             [|discriminate H].
           cbn [bind] in H. injection H as <-.
           destruct (IH _ _ _ R) as [G1 G2]. cbn [skipn] in G1, G2.
           rewrite length_app. cbn [length].
           split; [lia|]. intros L. cbn [forallb fst snd length pred].
           destruct (quiet [] cs).
           ++ subst o. simpl in L. apply G2. lia.
           ++ simpl in Q. lia.
        -- destruct (replace_from r f (Some c) (length m') s) as [tl|e] eqn:R;
             [|discriminate H].
           cbn [bind] in H. injection H as <-.
           destruct (IH _ _ _ R) as [G1 G2].
           assert (Lm : (length m' <= length s)%nat).
           { assert (X : (length (x :: m') <= length (c :: s))%nat)
               by (rewrite <- Em; unfold m; rewrite length_firstn; lia).
             simpl in X. lia. }
           rewrite length_skipn in G1, G2.
           rewrite length_app. cbn [length].
           split.
           ++ destruct (quiet (x :: m') cs); [subst o|]; simpl in *; lia.
           ++ intros L. cbn [forallb fst snd length pred].
              destruct (quiet (x :: m') cs).
              ** subst o. simpl in L. apply G2. lia.
              ** simpl in Q. lia.
      * destruct (replace_from r f (Some c) 0 s) as [tl|e] eqn:R;
          [|discriminate H].
        cbn [bind] in H. injection H as <-.
        destruct (IH _ _ _ R) as [G1 G2]. cbn [skipn] in G1, G2.
        cbn [length]. split; [lia|]. intros L. apply G2. lia.
    + exact (IH _ _ _ H).
Qed.

(** A match of the quoted pattern with its three groups. *)
Lemma match_at_quoted_caps (prev : option N) (s : jsstring) (cs : captures)
    (rest : jsstring) :
  match_at re_quoted prev s = Some (cs, rest) ->
  exists q1 p2 q3,
    s = q1 :: p2 ++ q3 :: rest
    /\ cap 1 cs = Some [q1] /\ cap 2 cs = Some p2 /\ cap 3 cs = Some [q3].
Proof.
  unfold match_at, re_quoted. cbn [rmatch].
  destruct s as [|q1 s1]; [discriminate|].
  destruct (is_quote q1) eqn:H1; [|discriminate].
  intros H. apply plus_lazy_inv in H.
  destruct H as (a & c & b & -> & _ & H).
  destruct b as [|q3 b]; [discriminate|].
  destruct (is_quote q3) eqn:H3; [|discriminate].
  injection H as <- <-.
  exists q1, (a ++ [c]), q3.
  rewrite <- app_assoc. cbn [app].
  split; [reflexivity|].
  cbn [cap Nat.eqb].
  split; [f_equal; exact (firstn_sub_app [q1] (a ++ c :: q3 :: b))|].
  split; [|f_equal; exact (firstn_sub_app [q3] b)].
  f_equal.
  change (a ++ c :: q3 :: b) with (a ++ [c] ++ q3 :: b).
  rewrite app_assoc. exact (firstn_sub_app (a ++ [c]) (q3 :: b)).
Qed.

(** A match of a pattern without groups goes on, with the captures it
    started with, on what it leaves of its input. *)
Lemma rmatch_group_free_suffix (r : regex) :
  group_free r = true ->
  forall prev s cs k x,
    rmatch r prev s cs k = Some x ->
    exists a prev' s', s = a ++ s' /\ k prev' s' cs = Some x.
Proof.
  induction r as [|p|r1 IH1 r2 IH2|r1 IH1 r2 IH2|r1 IH1|g p|i r1 IH1| |];
    cbn [group_free]; intros G prev s cs k x H; cbn [rmatch] in H.
  - exists [], prev, s. split; [reflexivity | exact H].
  - destruct s as [|c s']; [discriminate|].
    destruct (p c); [|discriminate].
    exists [c], (Some c), s'. split; [reflexivity | exact H].
  - apply andb_true_iff in G. destruct G as [G1 G2].
    destruct (IH1 G1 _ _ _ _ _ H) as (a & prev' & s' & -> & H').
    destruct (IH2 G2 _ _ _ _ _ H') as (b & prev'' & s'' & -> & H'').
    exists (a ++ b), prev'', s''. rewrite <- app_assoc.
    split; [reflexivity | exact H''].
  - apply andb_true_iff in G. destruct G as [G1 G2].
    destruct (rmatch r1 prev s cs k) as [y|] eqn:E.
    + injection H as <-. exact (IH1 G1 _ _ _ _ _ E).
    + exact (IH2 G2 _ _ _ _ _ H).
  - destruct (rmatch r1 prev s cs k) as [y|] eqn:E.
    + injection H as <-. exact (IH1 G _ _ _ _ _ E).
    + exists [], prev, s. split; [reflexivity | exact H].
  - assert (X : exists a c b, s = a ++ c :: b /\ k (Some c) b cs = Some x).
    { destruct g.
      - apply plus_greedy_inv in H. destruct H as (a & c & b & E & _ & H). eauto.
      - apply plus_lazy_inv in H. destruct H as (a & c & b & E & _ & H). eauto. }
    destruct X as (a & c & b & -> & X).
    exists (a ++ [c]), (Some c), b. rewrite <- app_assoc.
    split; [reflexivity | exact X].
  - discriminate G.
  - destruct (xorb _ _); [|discriminate].
    exists [], prev, s. split; [reflexivity | exact H].
  - destruct s; [|discriminate].
    exists [], prev, []. split; [reflexivity | exact H].
Qed.

Lemma generic_tail_parts (B : regex) (cs0 : captures) (prev : option N)
    (s : jsstring) (cs : captures) (rest : jsstring) :
  group_free B = true ->
  rmatch (Seq (Group 2 (Plus false word_or_space)) (Seq (Group 3 B) WordB))
         prev s cs0 (fun _ s' cs' => Some (cs', s')) = Some (cs, rest) ->
  exists p b, s = p ++ b ++ rest /\ cs = (3%nat, b) :: (2%nat, p) :: cs0.
Proof.
  intros G H. cbn [rmatch] in H.
  apply plus_lazy_inv in H. destruct H as (a & c & b0 & -> & _ & H).
  apply (rmatch_group_free_suffix B G) in H.
  destruct H as (bb & prev' & s' & -> & H).
  destruct (xorb _ _); [|discriminate].
  injection H as <- <-.
  exists (a ++ [c]), bb. rewrite <- app_assoc. split; [reflexivity|].
  f_equal.
  - f_equal. exact (firstn_sub_app bb s').
  - f_equal. f_equal.
    change (a ++ c :: bb ++ s') with (a ++ [c] ++ bb ++ s').
    rewrite app_assoc. exact (firstn_sub_app (a ++ [c]) (bb ++ s')).
Qed.

(** A match of the product-noun pattern is made of its three groups:
    the article if there is one, the product, the noun. *)
Lemma match_at_generic_parts (prev : option N) (s : jsstring) (cs : captures)
    (rest : jsstring) :
  match_at re_generic prev s = Some (cs, rest) ->
  exists a p b,
    s = a ++ p ++ b ++ rest
    /\ or_empty (cap 1 cs) = a /\ cap 2 cs = Some p /\ cap 3 cs = Some b.
Proof.
  unfold match_at, re_generic.
  change (fun c : N => is_word c || is_space c) with word_or_space.
  set (A := alts (map (lit true) ["the "; "a "; "an "]%string)).
  set (B := alts (map (lit true)
                    [" product"; " device"; " gadget"; " item"]%string)).
  assert (GA : group_free A = true) by reflexivity.
  assert (GB : group_free B = true) by reflexivity.
  clearbody A B.
  remember (Seq (Group 2 (Plus false word_or_space)) (Seq (Group 3 B) WordB))
    as T eqn:ET.
  intros H. cbn [rmatch] in H.
  destruct (xorb _ _); [|discriminate].
  match type of H with
  | match ?M with _ => _ end = _ => destruct M as [y|] eqn:E
  end.
  - injection H as ->.
    apply (rmatch_group_free_suffix A GA) in E.
    destruct E as (a & prev' & s' & -> & E).
    subst T. destruct (generic_tail_parts B _ _ _ _ _ GB E) as (p & b & -> & ->).
    exists a, p, b. split; [reflexivity|].
    cbn [cap Nat.eqb or_empty].
    split; [exact (firstn_sub_app a (p ++ b ++ rest))|].
    split; reflexivity.
  - subst T. destruct (generic_tail_parts B _ _ _ _ _ GB H) as (p & b & -> & ->).
    exists [], p, b. repeat split.
Qed.

Lemma product_link_longer (q t : jsstring) :
  (length t < length (product_link q t))%nat.
Proof.
  unfold product_link. rewrite !length_app.
  assert (E : length (js "</a>") = 4%nat) by reflexivity.
  lia.
Qed.

Lemma forallb_map {A B} (f : B -> bool) (g : A -> B) (l : list A) :
  forallb f (map g l) = forallb (fun x => f (g x)) l.
Proof.
  induction l as [|x l IH]; simpl; [reflexivity|]. rewrite IH. reflexivity.
Qed.

Lemma link_quoted_cases (whole : jsstring) (cs : captures)
    (p1 p2 p3 o : jsstring) :
  cap 1 cs = Some p1 -> cap 2 cs = Some p2 -> cap 3 cs = Some p3 ->
  link_quoted whole cs = Ok o ->
  if regex_test re_keywords p2
  then exists q, o = p1 ++ product_link q p2 ++ p3
  else o = whole.
Proof.
  unfold link_quoted. intros -> -> ->. unfold or_empty.
  destruct (regex_test re_keywords p2).
  - destruct (encodeURIComponent p2) as [q|e]; unfold bind; [|discriminate].
    intros H. injection H as <-. exists q. reflexivity.
  - intros H. injection H as <-. reflexivity.
Qed.

Lemma link_generic_cases (whole : jsstring) (cs : captures)
    (a p b o : jsstring) :
  or_empty (cap 1 cs) = a -> cap 2 cs = Some p -> cap 3 cs = Some b ->
  link_generic whole cs = Ok o ->
  if (3 <? length p)%nat
  then exists q, o = a ++ product_link q p ++ b
  else o = whole.
Proof.
  unfold link_generic. intros <- -> ->.
  change (or_empty (Some p)) with p. change (or_empty (Some b)) with b.
  destruct (3 <? length p)%nat.
  - destruct (encodeURIComponent (trim p)) as [q|e]; unfold bind; [|discriminate].
    intros H. injection H as <-. exists q. reflexivity.
  - intros H. injection H as <-. reflexivity.
Qed.

(** The first pass never shortens a message, and keeps its length only
    where no span between quotes holds a keyword. *)
Lemma pass_quoted_grows (s t : jsstring) :
  pass_quoted s = Ok t ->
  (length s <= length t)%nat
  /\ ((length t <= length s)%nat -> no_keyword_span s = true).
Proof.
  intros H. unfold pass_quoted, replace_all in H.
  apply (replace_from_grows re_quoted link_quoted
           (fun _ cs => negb (regex_test re_keywords (or_empty (cap 2 cs)))))
    in H.
  - cbn [skipn] in H. destruct H as [H1 H2]. split; [exact H1|].
    intros L. unfold no_keyword_span, quoted_spans. rewrite forallb_map.
    exact (H2 L).
  - clear. intros prev s cs rest o E F.
    destruct (match_at_quoted_caps _ _ _ _ E) as (q1 & p2 & q3 & -> & C1 & C2 & C3).
    pose proof (link_quoted_cases _ _ _ _ _ _ C1 C2 C3 F) as K.
    rewrite C2. change (or_empty (Some p2)) with p2.
    replace (q1 :: p2 ++ q3 :: rest) with (([q1] ++ p2 ++ [q3]) ++ rest) in *
      by (rewrite <- !app_assoc; reflexivity).
    rewrite firstn_sub_app in *.
    destruct (regex_test re_keywords p2); unfold negb.
    + destruct K as [q ->].
      pose proof (product_link_longer q p2) as P.
      rewrite !length_app. lia.
    + exact K.
Qed.

(** So does the second pass: it keeps the length of a message only
    where no product part is longer than 3 characters. *)
Lemma pass_generic_grows (s t : jsstring) :
  pass_generic s = Ok t ->
  (length s <= length t)%nat
  /\ ((length t <= length s)%nat -> no_long_generic s = true).
Proof.
  intros H. unfold pass_generic, replace_all in H.
  apply (replace_from_grows re_generic link_generic
           (fun _ cs => negb (3 <? length (or_empty (cap 2 cs)))%nat))
    in H.
  - cbn [skipn] in H. destruct H as [H1 H2]. split; [exact H1|].
    intros L. unfold no_long_generic, generic_products. rewrite forallb_map.
    exact (H2 L).
  - clear. intros prev s cs rest o E F.
    destruct (match_at_generic_parts _ _ _ _ E) as (a & p & b & -> & C1 & C2 & C3).
    pose proof (link_generic_cases _ _ _ _ _ _ C1 C2 C3 F) as K.
    rewrite C2. change (or_empty (Some p)) with p.
    replace (a ++ p ++ b ++ rest) with ((a ++ p ++ b) ++ rest) in *
      by (rewrite <- !app_assoc; reflexivity).
    rewrite firstn_sub_app in *.
    destruct (3 <? length p)%nat; unfold negb.
    + destruct K as [q ->].
      pose proof (product_link_longer q p) as P.
      rewrite !length_app. lia.
    + exact K.
Qed.

(** Where no product part is longer than 3 characters the second pass
    returns the message. *)
Lemma pass_generic_quiet (m : jsstring) :
  no_long_generic m = true -> pass_generic m = Ok m.
Proof.
  intros H. unfold pass_generic, replace_all.
  rewrite replace_from_unchanged; [reflexivity|].
  intros mt cs Hin. unfold link_generic.
  unfold no_long_generic, generic_products in H.
  rewrite forallb_map, forallb_forall in H.
  pose proof (H (mt, cs) Hin) as K. cbn [snd] in K.
  apply negb_true_iff in K. rewrite K. reflexivity.
Qed.

(** The messages the linkifier returns as they are: those in which no
    span between quotes holds a keyword and no product part is longer
    than 3 characters. *)
Lemma formatMessageWithLinks_fixed (s : jsstring) :
  formatMessageWithLinks s = Ok s
  <-> no_keyword_span s = true /\ no_long_generic s = true.
Proof.
  unfold formatMessageWithLinks. split.
  - intros H. destruct (pass_quoted s) as [m1|e] eqn:E1; [|discriminate H].
    cbn [bind] in H.
    destruct (pass_quoted_grows s m1 E1) as [L1 Q1].
    destruct (pass_generic_grows m1 s H) as [L2 Q2].
    assert (K : no_keyword_span s = true) by (apply Q1; exact L2).
    split; [exact K|].
    rewrite (pass_quoted_unchanged s K) in E1. injection E1 as <-.
    apply Q2. apply Nat.le_refl.
  - intros [K G]. rewrite (pass_quoted_unchanged s K). cbn [bind].
    exact (pass_generic_quiet s G).
Qed.

(** C7, as the code has it. Applying the linkifier to its own output
    gives that output again exactly when the output holds no span between
    quotes with a product keyword and no product-noun phrase whose product
    part is longer than 3 characters. This is so whenever the first
    application returns the message as it is, which it does exactly when
    the message itself meets the two conditions; it is also so after some
    insertions of the second pass. It fails wherever the first pass has
    inserted a link: the attribute values of the link stand between
    double quotes, and the first pass of the second application finds the
    keyword between two of them. *)
Theorem linkify_twice_stable_iff (m out : jsstring) :
  formatMessageWithLinks m = Ok out ->
  (linkify_twice m = formatMessageWithLinks m
   <-> no_keyword_span out = true /\ no_long_generic out = true)
  /\ (out = m <-> no_keyword_span m = true /\ no_long_generic m = true)
  /\ (out = m -> linkify_twice m = formatMessageWithLinks m).
Proof.
  intros E.
  assert (T : linkify_twice m = formatMessageWithLinks out)
    by (unfold linkify_twice; rewrite E; reflexivity).
  assert (F : out = m <-> no_keyword_span m = true /\ no_long_generic m = true).
  { rewrite <- formatMessageWithLinks_fixed. rewrite E.
    split; [intros ->; reflexivity | intros H; injection H as ->; reflexivity]. }
  split; [|split; [exact F|]].
  - rewrite T, E. apply formatMessageWithLinks_fixed.
  - intros ->. rewrite T. reflexivity.
Qed.

Lemma linkify_twice_stable_iff_witness :
  formatMessageWithLinks (js "the smart device") =
    Ok (js "the " ++ product_link (js "smart") (js "smart") ++ js " device")
  /\ linkify_twice (js "the smart device") =
       formatMessageWithLinks (js "the smart device").
Proof.
  assert (E : formatMessageWithLinks (js "the smart device") =
              Ok (js "the " ++ product_link (js "smart") (js "smart")
                    ++ js " device")) by (vm_compute; reflexivity).
  split; [exact E|].
  destruct (linkify_twice_stable_iff _ _ E) as [[_ I] _].
  apply I. split; vm_compute; reflexivity.
Defined.

(** C7 as stated fails: the message 'phone' has its two quotes matched;
    the first application wraps the word in a link, and the second one
    pairs the closing quote of the class attribute with the quote after
    the link and wraps the text between them, the link text included, in
    a second link. A message without any quote fails as well: in the
    smart phone device the second pass links smart phone, and the second
    application finds the keyword phone between the quotes of the href
    value. *)
Lemma linkify_not_idempotent :
  formatMessageWithLinks quoted_phone =
    Ok (js "'" ++ product_link (js "phone") (js "phone") ++ js "'")
  /\ linkify_twice quoted_phone =
       Ok (js "'<a href=" ++ dq ++ amazon_search ++ js "phone" ++ dq
             ++ js " target=" ++ dq ++ js "_blank" ++ dq
             ++ js " class=" ++ dq ++ js "product-link" ++ dq
             ++ product_link (js "%3Ephone%3C%2Fa%3E") (js ">phone</a>")
             ++ js "'")
  /\ linkify_twice quoted_phone <> formatMessageWithLinks quoted_phone
  /\ formatMessageWithLinks (js "the smart phone device") =
       Ok (js "the "
             ++ product_link (js "smart%20phone") (js "smart phone")
             ++ js " device")
  /\ linkify_twice (js "the smart phone device")
     <> formatMessageWithLinks (js "the smart phone device").
Proof.
  split; [vm_compute; reflexivity|]. split; [vm_compute; reflexivity|].
  split; [vm_compute; discriminate|]. split; [vm_compute; reflexivity|].
  vm_compute. discriminate.
Qed.

(** ** A sale display without a discount *)

(** X19: The sale display does not ask for a discount: a product whose
    original price is set and differs from its price, but is not above it
    when both are read as numbers (or one of them does not read as a
    number), is shown struck through with 0 percent off. *)
Theorem sale_display_without_discount (p : product) :
  truthy (original_price p) = true ->
  strict_neq (original_price p) (price p) = true ->
  ~ num_lt (price_number (price p)) (price_number (original_price p)) ->
  formatPriceDisplay p
  = sale_display (ToString (price p)) (Fin 0) (strikeout (original_price p)).
Proof.
  intros Ht Hn Hlt. rewrite formatPriceDisplay_cases, Ht, Hn. cbn [andb].
  rewrite calculateDiscount_unguarded by (right; exact Hlt). reflexivity.
Qed.

Lemma sale_display_without_discount_witness :
  formatPriceDisplay (five_dollars (VStr (js "$5.00")))
  = sale_display (js "$5") (Fin 0) (js "$5.00").
Proof.
  assert (Ht : truthy (original_price (five_dollars (VStr (js "$5.00")))) = true)
    by reflexivity.
  assert (Hn : strict_neq (original_price (five_dollars (VStr (js "$5.00"))))
                 (price (five_dollars (VStr (js "$5.00")))) = true)
    by reflexivity.
  assert (Hlt : ~ num_lt
                  (price_number (price (five_dollars (VStr (js "$5.00")))))
                  (price_number
                     (original_price (five_dollars (VStr (js "$5.00")))))).
  { intros H. vm_compute in H. discriminate H. }
  exact (sale_display_without_discount _ Ht Hn Hlt).
Defined.
